(** * SmartCampus databases benchmark: the benchmark driver [entrypoint.go]

  A shallow embedding of the Go program [src/entrypoint.go] and the
  properties its specification states about it.

  The program talks to six storage backends, to the file system and to
  the clock.  Those are modelled by an environment [Env] (what the
  outside world answers: the chunk directory, which calls fail and with
  which error, how long every call takes, what the time-bound queries
  return) and by a [State] threaded through the program (monotonic clock,
  schema catalog of the backend, output files, the trace of calls made). *)

From Stdlib Require Import ZArith String List Lia Floats Sorted.
From stdpp Require Import base gmap strings list pretty.

Open Scope string_scope.
Open Scope list_scope.
Open Scope Z_scope.

(** ** Go integers and strings *)

Module GoInt.

Definition minInt64 : Z := - 2 ^ 63.
Definition maxInt64 : Z := 2 ^ 63 - 1.

(** Two's complement wrap-around of a 64-bit signed integer. *)
Definition wrap64 (z : Z) : Z := (z + 2 ^ 63) mod 2 ^ 64 - 2 ^ 63.

Definition add64 (a b : Z) : Z := wrap64 (a + b).
Definition sub64 (a b : Z) : Z := wrap64 (a - b).
Definition mul64 (a b : Z) : Z := wrap64 (a * b).

(** Go's [/] and [%] on integers truncate toward zero. *)
Definition div64 (a b : Z) : Z := wrap64 (Z.quot a b).
Definition rem64 (a b : Z) : Z := Z.rem a b.

Definition fits64 (z : Z) : Prop := minInt64 <= z <= maxInt64.

(** [len] of a slice, a Go [int]. *)
Definition len {A} (l : list A) : Z := Z.of_nat (length l).

(** [strconv.Itoa]. *)
Definition Itoa (i : Z) : string := pretty i.

End GoInt.
Import GoInt.

Module GoStrings.

(** [strings.Index s sep]: offset of the first occurrence, [None] for -1. *)
Fixpoint Index (s sep : string) : option nat :=
  if String.prefix sep s then Some 0%nat
  else match s with
       | EmptyString => None
       | String _ s' => S <$> Index s' sep
       end.

(** The loop of [strings.genSplit] for a non-empty separator: cut at the
    first occurrence, go on after it.  Go bounds the loop by
    [Count(s, sep)]; here [n] bounds it. *)
Fixpoint genSplit (n : nat) (s sep : string) : list string :=
  match n with
  | O => [s]
  | S n' =>
      match Index s sep with
      | None => [s]
      | Some m =>
          substring 0 m s ::
          genSplit n' (substring (m + String.length sep)
                                 (String.length s - (m + String.length sep)) s) sep
      end
  end.

(** [strings.Split s sep], [sep] not empty: an occurrence takes at least
    one byte, so there are at most [len(s)] of them. *)
Definition Split (s sep : string) : list string :=
  genSplit (String.length s) s sep.

(** [strings.Join]. *)
Fixpoint Join (l : list string) (sep : string) : string :=
  match l with
  | [] => ""
  | [x] => x
  | x :: l' => x +:+ sep +:+ Join l' sep
  end.

End GoStrings.
Import GoStrings.

(** ** Go's [time] package, as far as the program uses it *)

Module GoTime.

(** [time.Duration]: an [int64] count of nanoseconds. *)
Definition Duration := Z.

Definition Nanosecond : Duration := 1.
Definition Millisecond : Duration := 1000000.
Definition Second : Duration := 1000000000.
Definition Hour : Duration := 3600 * Second.

Definition minDuration : Duration := minInt64.
Definition maxDuration : Duration := maxInt64.

(** [d.Milliseconds()] is [int64(d) / 1e6]. *)
Definition Milliseconds (d : Duration) : Z := div64 d 1000000.

(** [time.Time] without a monotonic reading, as the database drivers
    build it: [sec] seconds since January 1 of year 1 (an [int64]) and
    [nsec] nanoseconds within the second. *)
Record Time := mkTime { sec : Z; nsec : Z }.

(** The zero value of [time.Time] ([var minTime time.Time]). *)
Definition zeroTime : Time := mkTime 0 0.

Definition unixToInternal : Z := 62135596800.

(** [time.Unix(sec, 0)]. *)
Definition Unix (s : Z) : Time := mkTime (add64 s unixToInternal) 0.

Definition wfTime (t : Time) : Prop :=
  fits64 (sec t) /\ 0 <= nsec t < 1000000000.

(** [t.addSec(d)]: saturates instead of overflowing. *)
Definition addSec (t : Time) (d : Z) : Time :=
  let sum := add64 (sec t) d in
  if Bool.eqb (sec t <? sum) (0 <? d) then mkTime sum (nsec t)
  else if 0 <? d then mkTime maxInt64 (nsec t)
  else mkTime (- maxInt64) (nsec t).

(** [t.Add(d)]. *)
Definition Add (t : Time) (d : Duration) : Time :=
  let dsec := div64 d 1000000000 in
  let ns := nsec t + rem64 d 1000000000 in
  if 1000000000 <=? ns then addSec (mkTime (sec t) (ns - 1000000000)) (add64 dsec 1)
  else if ns <? 0 then addSec (mkTime (sec t) (ns + 1000000000)) (sub64 dsec 1)
  else addSec (mkTime (sec t) ns) dsec.

(** [t.Equal(u)] and [t.Before(u)]. *)
Definition Equal (t u : Time) : bool :=
  (sec t =? sec u) && (nsec t =? nsec u).

Definition Before (t u : Time) : bool :=
  (sec t <? sec u) || ((sec t =? sec u) && (nsec t <? nsec u)).

(** [t.Sub(u)]: the difference, saturated at the largest and smallest
    [Duration] when it does not fit. *)
Definition Sub (t u : Time) : Duration :=
  let d := add64 (mul64 (sub64 (sec t) (sec u)) Second) (nsec t - nsec u) in
  if Equal (Add u d) t then d
  else if Before t u then minDuration
  else maxDuration.

(** [subMono(t, u)]: the difference of two monotonic clock readings,
    saturated. *)
Definition subMono (t u : Z) : Duration :=
  let d := sub64 t u in
  if (d <? 0) && (u <? t) then maxDuration
  else if (0 <? d) && (t <? u) then minDuration
  else d.

End GoTime.
Import GoTime.

(** ** Data model of [entrypoint.go] *)

(** [type Reading struct] (the nested [Connection] struct is flattened). *)
Record Reading := mkReading {
UserId : string;
LastUpdatedTime : Z;
Ssid : string;
Rssi : float
}.

(** [type ReadingFile struct]. *)
Record ReadingFile := mkReadingFile { Response : list Reading }.

(** [type QueryResult struct]. *)
Record QueryResult := mkQueryResult {
QueryId : Z;
DurationMs : Z;
Description : string
}.

(** The anonymous struct of [BenchmarkResults.Ingestion]; its
  [DurationMs] field is named [IngestDurationMs] here. *)
Record IngestionSample := mkSample {
IngestDurationMs : Z;
NRecords : Z
}.

(** [type BenchmarkResults struct]. *)
Record BenchmarkResults := mkResults {
DbType : string;
Ingestion : list IngestionSample;
Queries : list QueryResult
}.

(** [BenchmarkResults{}]. *)
Definition emptyResults : BenchmarkResults := mkResults "" [] [].

(** [results.Ingestion = append(results.Ingestion, x)]. *)
Definition appendIngestion (r : BenchmarkResults) (x : IngestionSample) : BenchmarkResults :=
mkResults (DbType r) (Ingestion r ++ [x]) (Queries r).

(** [results.Queries = append(results.Queries, q)]. *)
Definition appendQuery (r : BenchmarkResults) (q : QueryResult) : BenchmarkResults :=
mkResults (DbType r) (Ingestion r) (Queries r ++ [q]).

(** [results.DbType = t]. *)
Definition setDbType (r : BenchmarkResults) (t : string) : BenchmarkResults :=
mkResults t (Ingestion r) (Queries r).

(** The duration that stands for a query that was not measured. *)
Definition sentinel : Z := -1.

(** ** The outside world *)

(** A Go [error] value, by its message. *)
Definition error := string.

(** An entry of the directory [../data/readings]: what opening and
  JSON-decoding it gives. *)
Inductive ChunkFile :=
| Decodes (data : ReadingFile)
| Malformed (e : error)
| Unreadable (e : error).

(** The client constructors that can fail. *)
Inductive Api := PgxPoolNew | LineSenderFromConf | ClickHousePing.

(** The driver calls of the ingestion loops. *)
Inductive WriteOp :=
| CopyFrom
| SendBatch
| LineAt (row : nat)
| LineFlush
| TxBegin
| TxPrepare
| StmtExec (row : nat)
| TxCommit
| WritePoint (row : nat)
| WriteFlush.

(** The schema statements of the setup step.  The column lists are left
  out, they play no role in what follows. *)
Inductive Stmt :=
| CreateTable (if_not_exists : bool) (name : string) (hypertable : bool)
| CreateIndex (if_not_exists : bool) (name : string) (on : string)
| SelectCreateHypertable (table : string) (if_not_exists : bool).

(** The places where the program calls out. *)
Inductive Call :=
| CallConnect (api : Api) (url : string)
| CallExec (stmts : list Stmt)
| CallLoadChunk (chunk : Z)
| CallWrite (chunk : Z) (op : WriteOp)
| CallQuery (id : Z) (part : nat)
| CallCreate (path : string)
| CallEncode (path : string).

(** What a backend holds under a name. *)
Inductive RelKind := RelTable | RelHypertable | RelIndex.

Record Env := mkEnv {
(** the directory [../data/readings], entry name to content *)
readings : gmap string ChunkFile;
(** [os.ReadDir] fails with this error *)
readdir_error : option error;
(** the error a call fails with, [None] when it succeeds *)
fault : Call -> option error;
(** nanoseconds a call takes on the monotonic clock *)
latency : Call -> N;
(** the row [SELECT MIN(timestamp), MAX(timestamp)] scans into
    [minTime, maxTime] *)
time_bounds : Time * Time;
(** the [_time] of the records a Flux query result iterates over *)
flux_records : Call -> list Time;
(** the most connections the pool of the run opens: [MaxConns] of a
    [pgxpool.Pool] (by default the larger of 4 and the number of CPUs),
    [MaxOpenConns] of a [database/sql] pool ([None]: no limit, its
    default) *)
max_conns : option positive
}.

(** A row handed to a backend; [row_id] is ClickHouse's explicit id. *)
Record Row := mkRow {
row_id : option Z;
row_user : string;
row_time : Time;
row_rssi : float;
row_ssid : string
}.

(** A time argument of a query: bound as a parameter, or spliced into the
  query text as [t.Format(time.RFC3339)]. *)
Inductive Arg := SqlTime (t : Time) | RFC3339 (t : Time).

(** The time bounds the program derives from the result of query 1. *)
Inductive Derived := MiddleTime | HourBefore | HourAfter | DayAfter.

(** What the program did, in order (newest first in [trace]). *)
Inductive Event :=
| EvConnect (api : Api) (url : string)
| EvExec (stmts : list Stmt)
| EvLoadChunk (chunk : Z)
| EvWrite (chunk : Z) (op : WriteOp) (rows : list Row)
| EvQuery (id : Z) (part : nat) (args : list Arg)
| EvDerive (what : Derived) (t : Time)
| EvCreate (path : string)
| EvEncode (path : string).

(** The content of an output file: just created, or holding the JSON
  encoding of a result record. *)
Inductive FileData := Empty | Json (r : BenchmarkResults).

Record State := mkState {
clock : Z;
catalog : gmap string RelKind;
outputs : gmap string FileData;
trace : list Event;
(** the connections of the pool that are held by [Rows] nobody closed *)
held : nat
}.

(** The events in the order they happened. *)
Definition events (s : State) : list Event := rev (trace s).

(** ** Computations: state passing with Go's [if err != nil { return err }] *)

(** What a computation comes to: a value, a Go error, the end of the fuel
  of the model, or a call that never returns ([Blocked]: the pool hands
  out no connection, and the context is never cancelled). *)
Inductive Res (A : Type) :=
| Ok (a : A)
| Err (e : error)
| OutOfFuel
| Blocked.
Arguments Ok {A} a.
Arguments Err {A} e.
Arguments OutOfFuel {A}.
Arguments Blocked {A}.

Definition M (A : Type) : Type := State -> Res A * State.

Definition ret {A} (a : A) : M A := fun s => (Ok a, s).

Definition fail {A} (e : error) : M A := fun s => (Err e, s).

Definition bind {A B} (m : M A) (f : A -> M B) : M B :=
fun s =>
  match m s with
  | (Ok a, s') => f a s'
  | (Err e, s') => (Err e, s')
  | (OutOfFuel, s') => (OutOfFuel, s')
  | (Blocked, s') => (Blocked, s')
  end.

Declare Scope go_scope.
Delimit Scope go_scope with go.
Notation "x <- m ;; k" := (bind m (fun x => k))
(at level 100, m at next level, right associativity) : go_scope.
Notation "m ;; k" := (bind m (fun _ => k))
(at level 100, right associativity) : go_scope.
Open Scope go_scope.

(** [if err != nil { return err }]. *)
Definition check (err : option error) : M unit :=
match err with
| Some e => fail e
| None => ret tt
end.

Definition emit (e : Event) : M unit :=
fun s => (Ok tt, mkState (clock s) (catalog s) (outputs s) (e :: trace s) (held s)).

(** The schema semantics of a backend, one statement. *)
Definition execStmt (cat : gmap string RelKind) (st : Stmt) : error + gmap string RelKind :=
match st with
| CreateTable ine name hyper =>
    match cat !! name with
    | Some _ => if ine then inr cat else inl ("relation " +:+ name +:+ " already exists")
    | None => inr (<[name := if hyper then RelHypertable else RelTable]> cat)
    end
| CreateIndex ine name on =>
    match cat !! on with
    | None => inl ("relation " +:+ on +:+ " does not exist")
    | Some _ =>
        match cat !! name with
        | Some _ => if ine then inr cat else inl ("relation " +:+ name +:+ " already exists")
        | None => inr (<[name := RelIndex]> cat)
        end
    end
| SelectCreateHypertable table ine =>
    match cat !! table with
    | None => inl ("relation " +:+ table +:+ " does not exist")
    | Some RelHypertable =>
        if ine then inr cat else inl ("table " +:+ table +:+ " is already a hypertable")
    | Some RelTable => inr (<[table := RelHypertable]> cat)
    | Some RelIndex => inl (table +:+ " is not a table")
    end
end.

(** A batch of statements: the first failure aborts the batch and leaves
  the catalog as it was. *)
Fixpoint execStmts (cat : gmap string RelKind) (sts : list Stmt) : error + gmap string RelKind :=
match sts with
| [] => inr cat
| st :: sts' =>
    match execStmt cat st with
    | inl e => inl e
    | inr cat' => execStmts cat' sts'
    end
end.

Section Program.

Variable E : Env.

(** The clock moves on by the time the call takes. *)
Definition tick (c : Call) : M unit :=
  fun s => (Ok tt, mkState (clock s + Z.of_N (latency E c)) (catalog s) (outputs s) (trace s)
                           (held s)).

(** A call that hands back its error: [x, err := f(...)]. *)
Definition try_call (c : Call) : M (option error) :=
  tick c ;; ret (fault E c).

(** [time.Now()], its monotonic reading. *)
Definition time_Now : M Z := fun s => (Ok (clock s), s).

(** [time.Since(start)] on the monotonic readings, [subMono] of Go's
    [time] package. *)
Definition time_Since (start : Z) : M Duration := fun s => (Ok (subMono (clock s) start), s).

(** Does the constructor build a connection pool? *)
Definition opensPool (api : Api) : bool :=
  match api with
  | LineSenderFromConf => false
  | _ => true
  end.

(** A pool that was just built holds no connection. *)
Definition newPool : M unit :=
  fun s => (Ok tt, mkState (clock s) (catalog s) (outputs s) (trace s) 0).

(** [pgxpool.New], [qdb.LineSenderFromConf], [clickhouse.OpenDB] with
    [conn.Ping]. *)
Definition connect (api : Api) (url : string) : M unit :=
  (if opensPool api then newPool else ret tt) ;;
  emit (EvConnect api url) ;;
  err <- try_call (CallConnect api url) ;;
  check err.

(** [pool.Acquire], the first thing [pool.Query] and [pool.QueryRow] do:
    when every connection of the pool is held it waits for one, with
    [context.Background()] for ever. *)
Definition poolFull (n : nat) : bool :=
  match max_conns E with
  | Some limit => (Pos.to_nat limit <=? n)%nat
  | None => false
  end.

Definition acquire : M unit :=
  fun s => if poolFull (held s) then (Blocked, s) else (Ok tt, s).

(** The [Rows] of a [pool.Query] that is never closed keeps its
    connection. *)
Definition keepRows : M unit :=
  fun s => (Ok tt, mkState (clock s) (catalog s) (outputs s) (trace s) (S (held s))).

(** [pool.Exec] / [conn.Exec] of the schema statements. *)
Definition db_Exec (stmts : list Stmt) : M unit :=
  emit (EvExec stmts) ;;
  err <- try_call (CallExec stmts) ;;
  check err ;;
  fun s =>
    match execStmts (catalog s) stmts with
    | inl e => (Err e, s)
    | inr cat => (Ok tt, mkState (clock s) cat (outputs s) (trace s) (held s))
    end.

(** ** [loadDataChunk] (lines 48-71) *)

Definition chunkName (currentChunk : Z) : string :=
  "readings_" +:+ Itoa currentChunk +:+ ".json".

Definition loadDataChunk (currentChunk : Z) (s : State)
  : (bool * ReadingFile * option error) * State :=
  let s := mkState (clock s + Z.of_N (latency E (CallLoadChunk currentChunk)))
                   (catalog s) (outputs s) (EvLoadChunk currentChunk :: trace s) (held s) in
  match readings E !! chunkName currentChunk with
  | None =>
      ((false, mkReadingFile [],
        Some ("open ../data/readings/" +:+ chunkName currentChunk +:+ ": no such file or directory")), s)
  | Some (Unreadable e) => ((false, mkReadingFile [], Some e), s)
  | Some (Malformed e) => ((false, mkReadingFile [], Some e), s)
  | Some (Decodes data) =>
      match readdir_error E with
      | Some e => ((false, mkReadingFile [], Some e), s)
      | None =>
          let filesInDirectory := map_to_list (readings E) in
          if add64 currentChunk 1 <? len filesInDirectory
          then ((true, data, None), s)
          else ((false, data, None), s)
      end
  end.

(** ** The ingestion loops

    The six loops differ in the block between [start := time.Now()] and
    [nRecords += len(data.Response)] only; that block is the [write]
    argument of [ingestLoop]. *)

(** [time.Unix(int64(reading.LastUpdatedTime), 0)] and the other columns. *)
Definition rowOf (reading : Reading) : Row :=
  mkRow None (UserId reading) (Unix (LastUpdatedTime reading)) (Rssi reading) (Ssid reading).

(** A driver call of the ingestion loop that returns an error.  The calls
    on a pool ([CopyFrom], [SendBatch], and [Exec] of the setup) take a
    connection and give it back; they come before the first query, when
    no connection is held (lemma [pool_idle] below). *)
Definition db_Write (chunk : Z) (op : WriteOp) (rows : list Row) : M unit :=
  emit (EvWrite chunk op rows) ;;
  err <- try_call (CallWrite chunk op) ;;
  check err.

(** A driver call of the ingestion loop that returns nothing: what goes
    wrong in it is not seen by the program. *)
Definition db_Write_noerr (chunk : Z) (op : WriteOp) (rows : list Row) : M unit :=
  emit (EvWrite chunk op rows) ;;
  _ <- try_call (CallWrite chunk op) ;;
  ret tt.

(** [for i, reading := range data.Response { ... }]. *)
Fixpoint forRange (body : nat -> Reading -> M unit) (i : nat) (l : list Reading) : M unit :=
  match l with
  | [] => ret tt
  | reading :: l' => body i reading ;; forRange body (S i) l'
  end.

(** PostgreSQL and TimescaleDB (lines 105-124, 445-464): build [rows],
    one [pool.CopyFrom]. *)
Definition writeCopyFrom (nRecords chunk : Z) (data : ReadingFile) : M unit :=
  db_Write chunk CopyFrom (map rowOf (Response data)).

(** QuestDB (lines 826-839): one [At] per reading, then [Flush]. *)
Definition writeLineSender (nRecords chunk : Z) (data : ReadingFile) : M unit :=
  forRange (fun i reading => db_Write chunk (LineAt i) [rowOf reading]) 0 (Response data) ;;
  db_Write chunk LineFlush [].

(** InfluxDB (lines 1189-1200): [writeAPI.WritePoint] and [writeAPI.Flush]
    return no error. *)
Definition writeInflux (nRecords chunk : Z) (data : ReadingFile) : M unit :=
  forRange (fun i reading => db_Write_noerr chunk (WritePoint i) [rowOf reading]) 0 (Response data) ;;
  db_Write_noerr chunk WriteFlush [].

(** CrateDB (lines 1850-1865): queue one INSERT per reading, send the
    batch, [batchResults.Close()]. *)
Definition writeBatch (nRecords chunk : Z) (data : ReadingFile) : M unit :=
  db_Write chunk SendBatch (map rowOf (Response data)).

(** ClickHouse (lines 2238-2263): the id column is
    [uint64(nRecords+i+1)]. *)
Definition rowWithId (nRecords : Z) (i : nat) (reading : Reading) : Row :=
  mkRow (Some (add64 (add64 nRecords (Z.of_nat i)) 1 mod 2 ^ 64))
        (UserId reading) (Unix (LastUpdatedTime reading)) (Rssi reading) (Ssid reading).

Definition writeTx (nRecords chunk : Z) (data : ReadingFile) : M unit :=
  db_Write chunk TxBegin [] ;;
  db_Write chunk TxPrepare [] ;;
  forRange (fun i reading => db_Write chunk (StmtExec i) [rowWithId nRecords i reading])
           0 (Response data) ;;
  db_Write chunk TxCommit [].

(** The loop [for { ... if !hasNext { break } }] (lines 97-140 and its
    five copies).  [fuel] bounds the number of iterations. *)
Fixpoint ingestLoop (write : Z -> Z -> ReadingFile -> M unit) (fuel : nat)
    (currentChunk : Z) (results : BenchmarkResults) (nRecords : Z) : M BenchmarkResults :=
  match fuel with
  | O => fun s => (OutOfFuel, s)
  | S fuel' =>
      fun s =>
        match loadDataChunk currentChunk s with
        | ((_, _, Some err), s') => (Err err, s')
        | ((hasNext, data, None), s') =>
            (start <- time_Now ;;
             write nRecords currentChunk data ;;
             let nRecords := add64 nRecords (len (Response data)) in
             d <- time_Since start ;;
             let duration := Milliseconds d in
             let results := appendIngestion results (mkSample duration nRecords) in
             let currentChunk := add64 currentChunk 1 in
             if negb hasNext then ret results
             else ingestLoop write fuel' currentChunk results nRecords) s'
        end
  end.

(** [currentChunk := 0; results := BenchmarkResults{}; nRecords := 0] and
    the loop.  A pass that goes on has [currentChunk+1] below the number of
    directory entries, so one more pass than there are entries is enough. *)
Definition ingest (write : Z -> Z -> ReadingFile -> M unit) : M BenchmarkResults :=
  ingestLoop write (S (size (readings E))) 0 emptyResults 0.

(** ** Query blocks *)

(** [pool.QueryRow(...).Scan(...)], [pool.Query(...)],
    [queryAPI.Query(...)]: the call and the error it hands back. *)
Definition db_Query (id : Z) (part : nat) (args : list Arg) : M (option error) :=
  emit (EvQuery id part args) ;;
  try_call (CallQuery id part).

(** Appends the measured entry:
    [DurationMs: time.Since(start).Milliseconds()]. *)
Definition measured (start : Z) (id : Z) (desc : string) (results : BenchmarkResults)
  : M BenchmarkResults :=
  d <- time_Since start ;;
  ret (appendQuery results (mkQueryResult id (Milliseconds d) desc)).

(** Appends the entry with [DurationMs: -1]. *)
Definition unsupported (id : Z) (desc : string) (results : BenchmarkResults) : BenchmarkResults :=
  appendQuery results (mkQueryResult id sentinel desc).

(** A derived time bound is computed. *)
Definition derive (what : Derived) (t : Time) : M Time :=
  emit (EvDerive what t) ;;
  ret t.

(** The block of a query of the SQL backends that scans one row:
    [start = time.Now(); err = pool.QueryRow(...).Scan(...);
     if err != nil { return err }; results.Queries = append(...)].
    [Scan] closes the row, its connection goes back to the pool. *)
Definition sqlQuery (id : Z) (desc : string) (args : list Time) (results : BenchmarkResults)
  : M BenchmarkResults :=
  start <- time_Now ;;
  acquire ;;
  err <- db_Query id 0 (map SqlTime args) ;;
  check err ;;
  measured start id desc results.

(** The block of a query whose rows are dropped:
    [start = time.Now(); _, err = pool.Query(...);
     if err != nil { return err }; results.Queries = append(...)].
    The [Rows] is neither read nor closed: the error the backend reports
    while the rows are read ([rows.Err()]) is never seen, the duration is
    that of the call alone, and the connection stays with the [Rows]. *)
Definition sqlQueryRows (id : Z) (desc : string) (args : list Time) (results : BenchmarkResults)
  : M BenchmarkResults :=
  start <- time_Now ;;
  acquire ;;
  err <- db_Query id 0 (map SqlTime args) ;;
  check err ;;
  keepRows ;;
  measured start id desc results.

(** The block of a query of the InfluxDB adapter: an error of the call
    appends the sentinel entry and the program goes on. *)
Definition fluxQuery (id : Z) (desc : string) (args : list Time) (results : BenchmarkResults)
  : M BenchmarkResults :=
  start <- time_Now ;;
  err <- db_Query id 0 (map RFC3339 args) ;;
  match err with
  | Some _ => ret (unsupported id desc results)
  | None => measured start id desc results
  end.

(** [middleTime = minTime.Add(maxTime.Sub(minTime) / 2)]. *)
Definition middleOf (minTime maxTime : Time) : Time :=
  Add minTime (div64 (Sub maxTime minTime) 2).

(** [os.Create(outFile)] then [json.NewEncoder(out).Encode(results)]
    (lines 397-407 and its copies). *)
Definition setFile (path : string) (d : FileData) : M unit :=
  fun s => (Ok tt, mkState (clock s) (catalog s) (<[path := d]> (outputs s)) (trace s) (held s)).

Definition writeResults (dbType outFile : string) (results : BenchmarkResults) : M unit :=
  let results := setDbType results dbType in
  emit (EvCreate outFile) ;;
  err <- try_call (CallCreate outFile) ;;
  check err ;;
  setFile outFile Empty ;;
  emit (EvEncode outFile) ;;
  err <- try_call (CallEncode outFile) ;;
  check err ;;
  setFile outFile (Json results).

(** Query 1 of the SQL backends (lines 145-157): [Scan(&minTime, &maxTime)]. *)
Definition sqlQuery1 (results : BenchmarkResults) : M (BenchmarkResults * Time * Time) :=
  start <- time_Now ;;
  acquire ;;
  err <- db_Query 1 0 [] ;;
  check err ;;
  let '(minTime, maxTime) := time_bounds E in
  results <- measured start 1 "Get time bounds" results ;;
  ret (results, minTime, maxTime).

(** Query 7 with the window computed by the program (lines 236-251). *)
Definition sqlQuery7 (middleTime : Time) (results : BenchmarkResults) : M BenchmarkResults :=
  start <- time_Now ;;
  hourBefore <- derive HourBefore (Add middleTime (- Hour)) ;;
  hourAfter <- derive HourAfter (Add middleTime Hour) ;;
  acquire ;;
  err <- db_Query 7 0 [SqlTime hourBefore; SqlTime hourAfter] ;;
  check err ;;
  measured start 7 "Records around middle time (±1 hour)" results.

(** Query 8 with the window computed by the program (lines 593-606); its
    rows are dropped. *)
Definition sqlQuery8 (middleTime : Time) (results : BenchmarkResults) : M BenchmarkResults :=
  start <- time_Now ;;
  dayAfter <- derive DayAfter (Add middleTime (24 * Hour)) ;;
  acquire ;;
  err <- db_Query 8 0 [SqlTime middleTime; SqlTime dayAfter] ;;
  check err ;;
  keepRows ;;
  measured start 8 "24 hours aggregation from middle time" results.

(** ** [benchmarkPostgres] (lines 73-408) *)

Definition schemaPostgres : list Stmt :=
  [CreateTable false "user_events" false;
   CreateIndex true "idx_user_events_timestamp" "user_events"].

Definition queriesPostgres (results : BenchmarkResults) : M BenchmarkResults :=
  bounds <- sqlQuery1 results ;;
  let '(results, minTime, maxTime) := bounds in
  middleTime <- derive MiddleTime (middleOf minTime maxTime) ;;
  results <- sqlQuery 2 "Count all records" [] results ;;
  results <- sqlQuery 3 "Count distinct users" [] results ;;
  results <- sqlQuery 4 "Average RSSI" [] results ;;
  results <- sqlQuery 5 "Records before middle time" [middleTime] results ;;
  results <- sqlQuery 6 "Records after middle time" [middleTime] results ;;
  results <- sqlQuery7 middleTime results ;;
  let results := unsupported 8 "24 hours aggregation from middle time" results in
  results <- sqlQueryRows 9 "Top 10 users by activity" [] results ;;
  results <- sqlQuery 10 "Records with strong signal" [] results ;;
  results <- sqlQuery 11 "Records with weak signal" [] results ;;
  results <- sqlQueryRows 12 "Top SSIDs" [] results ;;
  results <- sqlQueryRows 13 "RSSI statistics by user" [] results ;;
  let results := unsupported 14 "RSSI percentiles" results in
  results <- sqlQuery 15 "Records in first half" [minTime; middleTime] results ;;
  results <- sqlQuery 16 "Records in second half" [middleTime; maxTime] results ;;
  let results := unsupported 17 "Hourly user activity patterns" results in
  let results := unsupported 18 "Daily RSSI variance" results in
  let results := unsupported 19 "Peak usage hours" results in
  let results := unsupported 20 "User session duration analysis" results in
  ret results.

Definition benchmarkPostgres (connStr outFile : string) : M unit :=
  connect PgxPoolNew connStr ;;
  db_Exec schemaPostgres ;;
  results <- ingest writeCopyFrom ;;
  results <- queriesPostgres results ;;
  writeResults "postgres" outFile results.

(** The twenty queries of the adapters that run all of them with bound
    time parameters and compute the windows of 7 and 8 in the program:
    TimescaleDB (lines 482-779), CrateDB (lines 1883-2180) and ClickHouse
    (lines 2281-2578).  The three differ in the SQL text only.  Queries 8,
    9, 12, 13 and 17 to 20 are [pool.Query] calls whose rows are dropped,
    the others [pool.QueryRow(...).Scan(...)]. *)
Definition queriesSql (results : BenchmarkResults) : M BenchmarkResults :=
  bounds <- sqlQuery1 results ;;
  let '(results, minTime, maxTime) := bounds in
  middleTime <- derive MiddleTime (middleOf minTime maxTime) ;;
  results <- sqlQuery 2 "Count all records" [] results ;;
  results <- sqlQuery 3 "Count distinct users" [] results ;;
  results <- sqlQuery 4 "Average RSSI" [] results ;;
  results <- sqlQuery 5 "Records before middle time" [middleTime] results ;;
  results <- sqlQuery 6 "Records after middle time" [middleTime] results ;;
  results <- sqlQuery7 middleTime results ;;
  results <- sqlQuery8 middleTime results ;;
  results <- sqlQueryRows 9 "Top 10 users by activity" [] results ;;
  results <- sqlQuery 10 "Records with strong signal" [] results ;;
  results <- sqlQuery 11 "Records with weak signal" [] results ;;
  results <- sqlQueryRows 12 "Top SSIDs" [] results ;;
  results <- sqlQueryRows 13 "RSSI statistics by user" [] results ;;
  results <- sqlQuery 14 "RSSI percentiles" [] results ;;
  results <- sqlQuery 15 "Records in first half" [minTime; middleTime] results ;;
  results <- sqlQuery 16 "Records in second half" [middleTime; maxTime] results ;;
  results <- sqlQueryRows 17 "Hourly user activity patterns" [] results ;;
  results <- sqlQueryRows 18 "Daily RSSI variance" [] results ;;
  results <- sqlQueryRows 19 "Peak usage hours" [] results ;;
  results <- sqlQueryRows 20 "User session duration analysis" [] results ;;
  ret results.

(** ** [benchmarkTimescaleDb] (lines 410-792) *)

Definition schemaTimescaleDb : list Stmt :=
  [CreateTable false "user_events" true;
   SelectCreateHypertable "user_events" true].

Definition benchmarkTimescaleDb (connStr outFile : string) : M unit :=
  connect PgxPoolNew connStr ;;
  db_Exec schemaTimescaleDb ;;
  results <- ingest writeCopyFrom ;;
  results <- queriesSql results ;;
  writeResults "timescaledb" outFile results.

(** ** [benchmarkQuestDb] (lines 794-1164) *)

(** Queries 7 and 8 hand [middleTime] alone to the backend, the window is
    computed there ([dateadd('h', -1, $1)], lines 955 and 969). *)
Definition queriesQuestDb (results : BenchmarkResults) : M BenchmarkResults :=
  bounds <- sqlQuery1 results ;;
  let '(results, minTime, maxTime) := bounds in
  middleTime <- derive MiddleTime (middleOf minTime maxTime) ;;
  results <- sqlQuery 2 "Count all records" [] results ;;
  results <- sqlQuery 3 "Count distinct users" [] results ;;
  results <- sqlQuery 4 "Average RSSI" [] results ;;
  results <- sqlQuery 5 "Records before middle time" [middleTime] results ;;
  results <- sqlQuery 6 "Records after middle time" [middleTime] results ;;
  results <- sqlQuery 7 "Records around middle time (±1 hour)" [middleTime] results ;;
  results <- sqlQueryRows 8 "24 hours aggregation from middle time" [middleTime] results ;;
  results <- sqlQueryRows 9 "Top 10 users by activity" [] results ;;
  results <- sqlQuery 10 "Records with strong signal" [] results ;;
  results <- sqlQuery 11 "Records with weak signal" [] results ;;
  results <- sqlQueryRows 12 "Top SSIDs" [] results ;;
  results <- sqlQueryRows 13 "RSSI statistics by user" [] results ;;
  results <- sqlQuery 14 "RSSI percentiles" [] results ;;
  results <- sqlQuery 15 "Records in first half" [minTime; middleTime] results ;;
  results <- sqlQuery 16 "Records in second half" [middleTime; maxTime] results ;;
  results <- sqlQueryRows 17 "Hourly user activity patterns" [] results ;;
  results <- sqlQueryRows 18 "Daily RSSI variance" [] results ;;
  results <- sqlQueryRows 19 "Peak usage hours" [] results ;;
  results <- sqlQueryRows 20 "User session duration analysis" [] results ;;
  ret results.

Definition invalidConnStr : error :=
  "invalid connection string format, expected 'ingestUrl:::queryUrl'".

Definition benchmarkQuestDb (connStr outFile : string) : M unit :=
  let connParts := Split connStr ":::" in
  match connParts with
  | [ingestUrl; queryUrl] =>
      connect LineSenderFromConf ingestUrl ;;
      connect PgxPoolNew queryUrl ;;
      results <- ingest writeLineSender ;;
      results <- queriesQuestDb results ;;
      writeResults "questdb" outFile results
  | _ => fail invalidConnStr
  end.

(** ** [benchmarkInfluxDB] (lines 1166-1816) *)

(** Query 1 (lines 1221-1269): two Flux queries; the time of the last
    record of each result is kept. *)
Definition fluxQuery1 (results : BenchmarkResults) : M (BenchmarkResults * Time * Time) :=
  let minTime := zeroTime in
  let maxTime := zeroTime in
  start <- time_Now ;;
  err <- db_Query 1 0 [] ;;
  match err with
  | Some _ => ret (unsupported 1 "Get time bounds" results, minTime, maxTime)
  | None =>
      let minTime := List.last (flux_records E (CallQuery 1 0)) minTime in
      err <- db_Query 1 1 [] ;;
      match err with
      | Some _ => ret (unsupported 1 "Get time bounds" results, minTime, maxTime)
      | None =>
          let maxTime := List.last (flux_records E (CallQuery 1 1)) maxTime in
          results <- measured start 1 "Get time bounds" results ;;
          ret (results, minTime, maxTime)
      end
  end.

(** Query 7 (lines 1410-1437). *)
Definition fluxQuery7 (middleTime : Time) (results : BenchmarkResults) : M BenchmarkResults :=
  start <- time_Now ;;
  hourBefore <- derive HourBefore (Add middleTime (- Hour)) ;;
  hourAfter <- derive HourAfter (Add middleTime Hour) ;;
  err <- db_Query 7 0 [RFC3339 hourBefore; RFC3339 hourAfter] ;;
  match err with
  | Some _ => ret (unsupported 7 "Records around middle time (±1 hour)" results)
  | None => measured start 7 "Records around middle time (±1 hour)" results
  end.

(** Query 8 (lines 1439-1465). *)
Definition fluxQuery8 (middleTime : Time) (results : BenchmarkResults) : M BenchmarkResults :=
  start <- time_Now ;;
  dayAfter <- derive DayAfter (Add middleTime (24 * Hour)) ;;
  err <- db_Query 8 0 [RFC3339 middleTime; RFC3339 dayAfter] ;;
  match err with
  | Some _ => ret (unsupported 8 "24 hours aggregation from middle time" results)
  | None => measured start 8 "24 hours aggregation from middle time" results
  end.

Definition queriesInfluxDB (results : BenchmarkResults) : M BenchmarkResults :=
  bounds <- fluxQuery1 results ;;
  let '(results, minTime, maxTime) := bounds in
  middleTime <- derive MiddleTime (middleOf minTime maxTime) ;;
  results <- fluxQuery 2 "Count all records" [] results ;;
  results <- fluxQuery 3 "Count distinct users" [] results ;;
  results <- fluxQuery 4 "Average RSSI" [] results ;;
  results <- fluxQuery 5 "Records before middle time" [middleTime] results ;;
  results <- fluxQuery 6 "Records after middle time" [middleTime] results ;;
  results <- fluxQuery7 middleTime results ;;
  results <- fluxQuery8 middleTime results ;;
  results <- fluxQuery 9 "Top 10 users by activity" [] results ;;
  results <- fluxQuery 10 "Records with strong signal" [] results ;;
  results <- fluxQuery 11 "Records with weak signal" [] results ;;
  results <- fluxQuery 12 "Top SSIDs" [] results ;;
  results <- fluxQuery 13 "RSSI statistics by user" [] results ;;
  results <- fluxQuery 14 "RSSI percentiles" [] results ;;
  results <- fluxQuery 15 "Records in first half" [minTime; middleTime] results ;;
  results <- fluxQuery 16 "Records in second half" [middleTime; maxTime] results ;;
  results <- fluxQuery 17 "Hourly user activity patterns" [] results ;;
  results <- fluxQuery 18 "Daily RSSI variance" [] results ;;
  results <- fluxQuery 19 "Peak usage hours" [] results ;;
  results <- fluxQuery 20 "User session duration analysis" [] results ;;
  ret results.

(** [connStr] is not used: the client is built for a fixed address, which
    cannot fail. *)
Definition benchmarkInfluxDB (connStr outFile : string) : M unit :=
  results <- ingest writeInflux ;;
  results <- queriesInfluxDB results ;;
  writeResults "influxdb" outFile results.

(** ** [benchmarkCrateDB] (lines 1818-2193) *)

Definition schemaCrateDB : list Stmt :=
  [CreateTable true "user_events" false].

Definition benchmarkCrateDB (connStr outFile : string) : M unit :=
  connect PgxPoolNew connStr ;;
  db_Exec schemaCrateDB ;;
  results <- ingest writeBatch ;;
  results <- queriesSql results ;;
  writeResults "cratedb" outFile results.

(** ** [benchmarkClickHouse] (lines 2195-2591) *)

Definition schemaClickHouse : list Stmt :=
  [CreateTable true "user_events" false].

Definition benchmarkClickHouse (connStr outFile : string) : M unit :=
  connect ClickHousePing connStr ;;
  db_Exec schemaClickHouse ;;
  results <- ingest writeTx ;;
  results <- queriesSql results ;;
  writeResults "clickhouse" outFile results.
(** ** [main] (lines 2593-2631) *)

(** How [main] ends: it prints the usage and returns, it returns after
    the benchmark function returned [nil], or it panics. *)
Inductive Exit := Usage | Returned | Panicked (msg : error).

(** The chain of [if *dbType == ...] (lines 2604-2630): [panic(err)] when
    the benchmark function returns an error, [panic] with a message of its
    own for a type it does not know. *)
Definition dispatch (connStr outputFile dbType : string) : M unit :=
  if String.eqb dbType "postgres" then benchmarkPostgres connStr outputFile
  else if String.eqb dbType "timescaledb" then benchmarkTimescaleDb connStr outputFile
  else if String.eqb dbType "questdb" then benchmarkQuestDb connStr outputFile
  else if String.eqb dbType "cratedb" then benchmarkCrateDB connStr outputFile
  else if String.eqb dbType "clickhouse" then benchmarkClickHouse connStr outputFile
  else if String.eqb dbType "influxdb" then benchmarkInfluxDB connStr outputFile
  else fail ("Unsupported database type: " +:+ dbType).

(** [main], from the values of the flags [-conn], [-o] and [-type] on: a
    flag left empty makes it print the usage and return (lines
    2599-2602). *)
Definition main (connStr outputFile dbType : string) : State -> Res Exit * State :=
  fun s =>
    if String.eqb connStr EmptyString || String.eqb dbType EmptyString
       || String.eqb outputFile EmptyString
    then (Ok Usage, s)
    else
      match dispatch connStr outputFile dbType s with
      | (Ok _, s') => (Ok Returned, s')
      | (Err e, s') => (Ok (Panicked e), s')
      | (OutOfFuel, s') => (OutOfFuel, s')
      | (Blocked, s') => (Blocked, s')
      end.

(** ** The query sequences as data

    The twenty blocks of an adapter, listed; [rows] marks the blocks whose
    [Rows] is dropped.  [runSteps] runs such a list;
    the lemmas [queries*_plan] below show that each adapter's query code is
    the run of its list, so that a property of all blocks is proved once,
    by induction on the list. *)

Inductive Step :=
| StepSql (id : Z) (desc : string) (pre : list (Derived * Time)) (args : list Arg)
          (rows : bool)
| StepFlux (id : Z) (desc : string) (pre : list (Derived * Time)) (args : list Arg)
| StepFluxBounds
| StepSentinel (id : Z) (desc : string)
| StepDerive (what : Derived) (t : Time).

Fixpoint derives (pre : list (Derived * Time)) : M unit :=
  match pre with
  | [] => ret tt
  | (what, t) :: pre' => _ <- derive what t ;; derives pre'
  end.

Definition runStep (st : Step) (results : BenchmarkResults) : M BenchmarkResults :=
  match st with
  | StepSql id desc pre args rows =>
      start <- time_Now ;;
      derives pre ;;
      acquire ;;
      err <- db_Query id 0 args ;;
      check err ;;
      (if rows then keepRows else ret tt) ;;
      measured start id desc results
  | StepFlux id desc pre args =>
      start <- time_Now ;;
      derives pre ;;
      err <- db_Query id 0 args ;;
      match err with
      | Some _ => ret (unsupported id desc results)
      | None => measured start id desc results
      end
  | StepFluxBounds =>
      bounds <- fluxQuery1 results ;;
      ret (fst (fst bounds))
  | StepSentinel id desc => ret (unsupported id desc results)
  | StepDerive what t => _ <- derive what t ;; ret results
  end.

Fixpoint runSteps (plan : list Step) (results : BenchmarkResults) : M BenchmarkResults :=
  match plan with
  | [] => ret results
  | st :: plan' => results <- runStep st results ;; runSteps plan' results
  end.

(** The window steps of queries 7 and 8. *)
Definition step7 (flux : bool) (middleTime : Time) : Step :=
  let hourBefore := Add middleTime (- Hour) in
  let hourAfter := Add middleTime Hour in
  if flux
  then StepFlux 7 "Records around middle time (±1 hour)"
         [(HourBefore, hourBefore); (HourAfter, hourAfter)] [RFC3339 hourBefore; RFC3339 hourAfter]
  else StepSql 7 "Records around middle time (±1 hour)"
         [(HourBefore, hourBefore); (HourAfter, hourAfter)] [SqlTime hourBefore; SqlTime hourAfter]
         false.

Definition step8 (flux : bool) (middleTime : Time) : Step :=
  let dayAfter := Add middleTime (24 * Hour) in
  if flux
  then StepFlux 8 "24 hours aggregation from middle time"
         [(DayAfter, dayAfter)] [RFC3339 middleTime; RFC3339 dayAfter]
  else StepSql 8 "24 hours aggregation from middle time"
         [(DayAfter, dayAfter)] [SqlTime middleTime; SqlTime dayAfter] true.

Definition planPostgres : list Step :=
  let '(minTime, maxTime) := time_bounds E in
  let middleTime := middleOf minTime maxTime in
  [StepSql 1 "Get time bounds" [] [] false;
   StepDerive MiddleTime middleTime;
   StepSql 2 "Count all records" [] [] false;
   StepSql 3 "Count distinct users" [] [] false;
   StepSql 4 "Average RSSI" [] [] false;
   StepSql 5 "Records before middle time" [] [SqlTime middleTime] false;
   StepSql 6 "Records after middle time" [] [SqlTime middleTime] false;
   step7 false middleTime;
   StepSentinel 8 "24 hours aggregation from middle time";
   StepSql 9 "Top 10 users by activity" [] [] true;
   StepSql 10 "Records with strong signal" [] [] false;
   StepSql 11 "Records with weak signal" [] [] false;
   StepSql 12 "Top SSIDs" [] [] true;
   StepSql 13 "RSSI statistics by user" [] [] true;
   StepSentinel 14 "RSSI percentiles";
   StepSql 15 "Records in first half" [] [SqlTime minTime; SqlTime middleTime] false;
   StepSql 16 "Records in second half" [] [SqlTime middleTime; SqlTime maxTime] false;
   StepSentinel 17 "Hourly user activity patterns";
   StepSentinel 18 "Daily RSSI variance";
   StepSentinel 19 "Peak usage hours";
   StepSentinel 20 "User session duration analysis"].

Definition planSql : list Step :=
  let '(minTime, maxTime) := time_bounds E in
  let middleTime := middleOf minTime maxTime in
  [StepSql 1 "Get time bounds" [] [] false;
   StepDerive MiddleTime middleTime;
   StepSql 2 "Count all records" [] [] false;
   StepSql 3 "Count distinct users" [] [] false;
   StepSql 4 "Average RSSI" [] [] false;
   StepSql 5 "Records before middle time" [] [SqlTime middleTime] false;
   StepSql 6 "Records after middle time" [] [SqlTime middleTime] false;
   step7 false middleTime;
   step8 false middleTime;
   StepSql 9 "Top 10 users by activity" [] [] true;
   StepSql 10 "Records with strong signal" [] [] false;
   StepSql 11 "Records with weak signal" [] [] false;
   StepSql 12 "Top SSIDs" [] [] true;
   StepSql 13 "RSSI statistics by user" [] [] true;
   StepSql 14 "RSSI percentiles" [] [] false;
   StepSql 15 "Records in first half" [] [SqlTime minTime; SqlTime middleTime] false;
   StepSql 16 "Records in second half" [] [SqlTime middleTime; SqlTime maxTime] false;
   StepSql 17 "Hourly user activity patterns" [] [] true;
   StepSql 18 "Daily RSSI variance" [] [] true;
   StepSql 19 "Peak usage hours" [] [] true;
   StepSql 20 "User session duration analysis" [] [] true].

Definition planQuestDb : list Step :=
  let '(minTime, maxTime) := time_bounds E in
  let middleTime := middleOf minTime maxTime in
  [StepSql 1 "Get time bounds" [] [] false;
   StepDerive MiddleTime middleTime;
   StepSql 2 "Count all records" [] [] false;
   StepSql 3 "Count distinct users" [] [] false;
   StepSql 4 "Average RSSI" [] [] false;
   StepSql 5 "Records before middle time" [] [SqlTime middleTime] false;
   StepSql 6 "Records after middle time" [] [SqlTime middleTime] false;
   StepSql 7 "Records around middle time (±1 hour)" [] [SqlTime middleTime] false;
   StepSql 8 "24 hours aggregation from middle time" [] [SqlTime middleTime] true;
   StepSql 9 "Top 10 users by activity" [] [] true;
   StepSql 10 "Records with strong signal" [] [] false;
   StepSql 11 "Records with weak signal" [] [] false;
   StepSql 12 "Top SSIDs" [] [] true;
   StepSql 13 "RSSI statistics by user" [] [] true;
   StepSql 14 "RSSI percentiles" [] [] false;
   StepSql 15 "Records in first half" [] [SqlTime minTime; SqlTime middleTime] false;
   StepSql 16 "Records in second half" [] [SqlTime middleTime; SqlTime maxTime] false;
   StepSql 17 "Hourly user activity patterns" [] [] true;
   StepSql 18 "Daily RSSI variance" [] [] true;
   StepSql 19 "Peak usage hours" [] [] true;
   StepSql 20 "User session duration analysis" [] [] true].

(** [minTime] and [maxTime] after query 1 of the InfluxDB adapter. *)
Definition influxBounds : Time * Time :=
  match fault E (CallQuery 1 0) with
  | Some _ => (zeroTime, zeroTime)
  | None =>
      let minTime := List.last (flux_records E (CallQuery 1 0)) zeroTime in
      match fault E (CallQuery 1 1) with
      | Some _ => (minTime, zeroTime)
      | None => (minTime, List.last (flux_records E (CallQuery 1 1)) zeroTime)
      end
  end.

Definition planInfluxDB : list Step :=
  let '(minTime, maxTime) := influxBounds in
  let middleTime := middleOf minTime maxTime in
  [StepFluxBounds;
   StepDerive MiddleTime middleTime;
   StepFlux 2 "Count all records" [] [];
   StepFlux 3 "Count distinct users" [] [];
   StepFlux 4 "Average RSSI" [] [];
   StepFlux 5 "Records before middle time" [] [RFC3339 middleTime];
   StepFlux 6 "Records after middle time" [] [RFC3339 middleTime];
   step7 true middleTime;
   step8 true middleTime;
   StepFlux 9 "Top 10 users by activity" [] [];
   StepFlux 10 "Records with strong signal" [] [];
   StepFlux 11 "Records with weak signal" [] [];
   StepFlux 12 "Top SSIDs" [] [];
   StepFlux 13 "RSSI statistics by user" [] [];
   StepFlux 14 "RSSI percentiles" [] [];
   StepFlux 15 "Records in first half" [] [RFC3339 minTime; RFC3339 middleTime];
   StepFlux 16 "Records in second half" [] [RFC3339 middleTime; RFC3339 maxTime];
   StepFlux 17 "Hourly user activity patterns" [] [];
   StepFlux 18 "Daily RSSI variance" [] [];
   StepFlux 19 "Peak usage hours" [] [];
   StepFlux 20 "User session duration analysis" [] []].

(** What a step leaves in the trace and which entry it appends. *)
Definition stepEvents (st : Step) : list Event :=
  match st with
  | StepSql id _ pre args _ | StepFlux id _ pre args =>
      map (fun p => EvDerive (fst p) (snd p)) pre ++ [EvQuery id 0 args]
  | StepFluxBounds =>
      EvQuery 1 0 [] ::
      match fault E (CallQuery 1 0) with
      | Some _ => []
      | None => [EvQuery 1 1 []]
      end
  | StepSentinel _ _ => []
  | StepDerive what t => [EvDerive what t]
  end.

Definition planEvents (plan : list Step) : list Event := flat_map stepEvents plan.

(** Query 1 of the InfluxDB adapter fails when one of its two calls does. *)
Definition fluxBoundsFailed : bool :=
  match fault E (CallQuery 1 0), fault E (CallQuery 1 1) with
  | None, None => false
  | _, _ => true
  end.

(** [q] is the entry the step [st] appends. *)
Definition entryOf (st : Step) (q : QueryResult) : Prop :=
  match st with
  | StepSql id desc _ _ _ =>
      QueryId q = id /\ Description q = desc /\ 0 <= DurationMs q
  | StepFlux id desc _ _ =>
      QueryId q = id /\ Description q = desc /\
      match fault E (CallQuery id 0) with
      | Some _ => DurationMs q = sentinel
      | None => 0 <= DurationMs q
      end
  | StepFluxBounds =>
      QueryId q = 1 /\ Description q = "Get time bounds" /\
      if fluxBoundsFailed then DurationMs q = sentinel else 0 <= DurationMs q
  | StepSentinel id desc =>
      QueryId q = id /\ Description q = desc /\ DurationMs q = sentinel
  | StepDerive _ _ => False
  end.

Definition records (st : Step) : bool :=
  match st with
  | StepDerive _ _ => false
  | _ => true
  end.

(** How the run of a block, or of a list of blocks, ends: it goes through,
    a call returns an error, or the pool has no connection left and the
    call waits for ever. *)
Inductive Outcome := Runs | Fails (e : error) | Blocks.

(** The end of a block that starts with [n] connections held, and the
    connections held after it went through. *)
Definition stepOutcome (n : nat) (st : Step) : Outcome :=
  match st with
  | StepSql id _ _ _ _ =>
      if poolFull n then Blocks
      else match fault E (CallQuery id 0) with
           | Some e => Fails e
           | None => Runs
           end
  | _ => Runs
  end.

Definition heldAfter (n : nat) (st : Step) : nat :=
  match st with
  | StepSql _ _ _ _ true => S n
  | _ => n
  end.

Fixpoint planOutcome (n : nat) (plan : list Step) : Outcome :=
  match plan with
  | [] => Runs
  | st :: plan' =>
      match stepOutcome n st with
      | Runs => planOutcome (heldAfter n st) plan'
      | o => o
      end
  end.

(** The derivations a block makes before its call. *)
Definition stepDerivations (st : Step) : list Event :=
  match st with
  | StepSql _ _ pre _ _ | StepFlux _ _ pre _ => map (fun p => EvDerive (fst p) (snd p)) pre
  | _ => []
  end.

(** What a list of blocks leaves in the trace: the events of the blocks
    that went through, then those of the block whose call failed, or the
    derivations of the block whose call waits. *)
Fixpoint ranEvents (n : nat) (plan : list Step) : list Event :=
  match plan with
  | [] => []
  | st :: plan' =>
      match stepOutcome n st with
      | Runs => stepEvents st ++ ranEvents (heldAfter n st) plan'
      | Fails _ => stepEvents st
      | Blocks => stepDerivations st
      end
  end.

End Program.

(** ** The adapters, by name *)

Inductive Backend := Postgres | TimescaleDb | QuestDb | InfluxDB | CrateDB | ClickHouse.

Definition dbTypeOf (b : Backend) : string :=
  match b with
  | Postgres => "postgres"
  | TimescaleDb => "timescaledb"
  | QuestDb => "questdb"
  | InfluxDB => "influxdb"
  | CrateDB => "cratedb"
  | ClickHouse => "clickhouse"
  end.

Definition benchmark (E : Env) (b : Backend) : string -> string -> M unit :=
  match b with
  | Postgres => benchmarkPostgres E
  | TimescaleDb => benchmarkTimescaleDb E
  | QuestDb => benchmarkQuestDb E
  | InfluxDB => benchmarkInfluxDB E
  | CrateDB => benchmarkCrateDB E
  | ClickHouse => benchmarkClickHouse E
  end.

(** The steps before the ingestion loop: connection and schema. *)
Definition setupOf (E : Env) (b : Backend) (connStr : string) : M unit :=
  match b with
  | Postgres => connect E PgxPoolNew connStr ;; db_Exec E schemaPostgres
  | TimescaleDb => connect E PgxPoolNew connStr ;; db_Exec E schemaTimescaleDb
  | QuestDb =>
      match Split connStr ":::" with
      | [ingestUrl; queryUrl] =>
          connect E LineSenderFromConf ingestUrl ;; connect E PgxPoolNew queryUrl
      | _ => fail invalidConnStr
      end
  | InfluxDB => ret tt
  | CrateDB => connect E PgxPoolNew connStr ;; db_Exec E schemaCrateDB
  | ClickHouse => connect E ClickHousePing connStr ;; db_Exec E schemaClickHouse
  end.

Definition writeOf (E : Env) (b : Backend) : Z -> Z -> ReadingFile -> M unit :=
  match b with
  | Postgres | TimescaleDb => writeCopyFrom E
  | QuestDb => writeLineSender E
  | InfluxDB => writeInflux E
  | CrateDB => writeBatch E
  | ClickHouse => writeTx E
  end.

Definition queriesOf (E : Env) (b : Backend) : BenchmarkResults -> M BenchmarkResults :=
  match b with
  | Postgres => queriesPostgres E
  | QuestDb => queriesQuestDb E
  | InfluxDB => queriesInfluxDB E
  | TimescaleDb | CrateDB | ClickHouse => queriesSql E
  end.

Definition planOf (E : Env) (b : Backend) : list Step :=
  match b with
  | Postgres => planPostgres E
  | QuestDb => planQuestDb E
  | InfluxDB => planInfluxDB E
  | TimescaleDb | CrateDB | ClickHouse => planSql E
  end.

(** The driver calls the ingestion block of an adapter makes for a chunk,
    in order. *)
Definition writeOps (b : Backend) (data : ReadingFile) : list WriteOp :=
  let n := length (Response data) in
  match b with
  | Postgres | TimescaleDb => [CopyFrom]
  | QuestDb => map LineAt (seq 0 n) ++ [LineFlush]
  | InfluxDB => map WritePoint (seq 0 n) ++ [WriteFlush]
  | CrateDB => [SendBatch]
  | ClickHouse => [TxBegin; TxPrepare] ++ map StmtExec (seq 0 n) ++ [TxCommit]
  end.

(** The error of the first of these calls that the backend rejects. *)
Fixpoint firstFault (E : Env) (chunk : Z) (ops : list WriteOp) : option error :=
  match ops with
  | [] => None
  | op :: ops' =>
      match fault E (CallWrite chunk op) with
      | Some e => Some e
      | None => firstFault E chunk ops'
      end
  end.

(** ** The chunk directory *)

(** A directory that holds the chunk files [readings_0.json] ...
    [readings_(K-1).json], all of them decodable, and nothing else. *)
Definition chunkDir (chunks : list ReadingFile) : gmap string ChunkFile :=
  list_to_map (imap (fun i data => (chunkName (Z.of_nat i), Decodes data)) chunks).

(** The number of readings of chunk [i], 0 when there is no such chunk. *)
Definition chunkSize (E : Env) (i : Z) : Z :=
  match readings E !! chunkName i with
  | Some (Decodes data) => len (Response data)
  | _ => 0
  end.

(** The sum of the sizes of the [m] chunks from chunk [c] on, and of the
    chunks [0] to [i]. *)
Fixpoint cumulativeFrom (E : Env) (c : Z) (m : nat) : Z :=
  match m with
  | O => 0
  | S m' => chunkSize E c + cumulativeFrom E (c + 1) m'
  end.

Definition cumulative (E : Env) (i : nat) : Z := cumulativeFrom E 0 (S i).

(** The values [nRecords] takes in [k] passes of the loop that start at
    chunk [c] with [nRecords = n]. *)
Fixpoint runningFrom (E : Env) (c n : Z) (k : nat) : list Z :=
  match k with
  | O => []
  | S k' =>
      let n' := add64 n (chunkSize E c) in
      n' :: runningFrom E (c + 1) n' k'
  end.

(** The directory listing is a Go slice: its length is an [int], and the
    loop counter stays below it. *)
Definition dirFits (E : Env) : Prop := Z.of_nat (size (readings E)) < maxInt64.

(** The error a block of driver calls ends with, [None] when all succeed. *)
Definition outcome (err : option error) : Res unit :=
  match err with
  | Some e => Err e
  | None => Ok tt
  end.

(** The state after the driver call [c] that left [ev] in the trace. *)
Definition afterQuery (E : Env) (ev : list Event) (c : Call) (s : State) : State :=
  mkState (clock s + Z.of_N (latency E c)) (catalog s) (outputs s) (rev ev ++ trace s)
          (held s).

(** The state after the constructor [api] was called. *)
Definition afterConnect (E : Env) (api : Api) (url : string) (s : State) : State :=
  mkState (clock s + Z.of_N (latency E (CallConnect api url))) (catalog s) (outputs s)
          (EvConnect api url :: trace s) (if opensPool api then 0%nat else held s).

(** The instant of a [Time] as a count of nanoseconds. *)
Definition nanos (t : Time) : Z := sec t * 1000000000 + nsec t.

(** What a step that succeeds does to the result record. *)
Definition stepPost (E : Env) (st : Step) (r r' : BenchmarkResults) : Prop :=
  DbType r' = DbType r /\ Ingestion r' = Ingestion r /\
  if records st
  then exists q, entryOf E st q /\ Queries r' = Queries r ++ [q]
  else Queries r' = Queries r.

(** The events a computation added, oldest first. *)
Definition added (s s' : State) (evs : list Event) : Prop :=
  trace s' = rev evs ++ trace s.

(** The identifiers of the twenty queries. *)
Definition allQueryIds : list Z :=
  [1; 2; 3; 4; 5; 6; 7; 8; 9; 10; 11; 12; 13; 14; 15; 16; 17; 18; 19; 20].

(** The identifiers PostgreSQL is given no query for (lines 253-258,
    332-337, 369-395). *)
Definition postgresUnsupported : list Z := [8; 14; 17; 18; 19; 20].

(** Does the adapter run a query for the identifier? *)
Definition runsQuery (b : Backend) (id : Z) : bool :=
  match b with
  | Postgres => negb (existsb (Z.eqb id) postgresUnsupported)
  | _ => true
  end.

(** What is known of the duration of the entry of identifier [id]. *)
Definition entryFor (b : Backend) (id : Z) (q : QueryResult) : Prop :=
  QueryId q = id /\
  (DurationMs q = sentinel \/ 0 <= DurationMs q) /\
  match b with
  | InfluxDB => True
  | _ => if runsQuery b id then 0 <= DurationMs q else DurationMs q = sentinel
  end.

(** The queries whose rows are dropped, [_, err = pool.Query(...)]: their
    [Rows] keeps a connection of the pool. *)
Definition rowsQueryIds : list Z := [8; 9; 12; 13; 17; 18; 19; 20].

Definition leavesRows (b : Backend) (id : Z) : bool :=
  match b with
  | InfluxDB => false
  | _ => runsQuery b id && existsb (Z.eqb id) rowsQueryIds
  end.

(** The connections held when query [k] starts, in a run whose queries
    before [k] went through. *)
Definition heldBefore (b : Backend) (k : Z) : nat :=
  length (List.filter (fun j => (j <? k) && leavesRows b j) allQueryIds).

(** Did the call of the query of the InfluxDB adapter return an error?
    Query 1 is two calls. *)
Definition fluxFailed (E : Env) (b : Backend) (id : Z) : bool :=
  match b with
  | InfluxDB =>
      if id =? 1 then fluxBoundsFailed E
      else match fault E (CallQuery id 0) with
           | Some _ => true
           | None => false
           end
  | _ => false
  end.

(** The entry of identifier [id] in the results of a completed run: the
    sentinel when the adapter has no query for [id] or, in the InfluxDB
    adapter, when the call returned an error; a measured duration, which
    is not negative, otherwise. *)
Definition reported (E : Env) (b : Backend) (id : Z) (q : QueryResult) : Prop :=
  QueryId q = id /\
  if negb (runsQuery b id) || fluxFailed E b id
  then DurationMs q = sentinel
  else 0 <= DurationMs q.

(** A computation that leaves the pool as it is. *)
Definition keepsPool {A} (m : M A) : Prop :=
  forall s, held (snd (m s)) = held s.

(** The queries whose time window comes from the result of query 1. *)
Definition dependentIds : list Z := [5; 6; 7; 8; 15; 16].

(** ** A small world for the examples: two chunks of 3 and 2 readings,
    a backend that answers every call in 1.5 ms and never fails, a
    dataset that spans two hours, and a pool of 16 connections. *)

Definition reading (user : string) (t : Z) : Reading :=
  mkReading user t "eduroam" (-60)%float.

Definition twoChunks : list ReadingFile :=
  [mkReadingFile [reading "u1" 1700000000; reading "u2" 1700000060; reading "u3" 1700003600];
   mkReadingFile [reading "u1" 1700005000; reading "u2" 1700007200]].

Definition quietEnv : Env :=
  mkEnv (chunkDir twoChunks) None (fun _ => None) (fun _ => 1500000%N)
        (Unix 1700000000, Unix 1700007200) (fun _ => []) (Some 16%positive).

Definition freshState : State := mkState 0 ∅ ∅ [] 0.

(** The same world with a backend that drops the connection on query 3. *)
Definition brokenQueryEnv : Env :=
  mkEnv (chunkDir twoChunks) None
        (fun c => match c with
                  | CallQuery 3 0 => Some "unexpected EOF"
                  | _ => None
                  end)
        (fun _ => 1500000%N)
        (Unix 1700000000, Unix 1700007200) (fun _ => []) (Some 16%positive).

(** The counts [ns] of the samples of a run are the cumulative sums of the
    chunk sizes: as [int] values always, and as plain sums, which never
    decrease and end at the total, when the total fits an [int]. *)
Definition cumulativeCounts (E : Env) (ns : list Z) : Prop :=
  ns <> [] /\
  (forall i, (i < length ns)%nat -> nth i ns 0 = wrap64 (cumulative E i)) /\
  (cumulative E (length ns - 1) <= maxInt64 ->
   (forall i, (i < length ns)%nat -> nth i ns 0 = cumulative E i) /\
   (forall i j, (i <= j < length ns)%nat -> nth i ns 0 <= nth j ns 0) /\
   List.last ns 0 = cumulative E (length ns - 1)).

(** The same world with a second chunk file that is cut short. *)
Definition malformedChunkEnv : Env :=
  mkEnv (<[chunkName 1 := Malformed "unexpected EOF"]> (chunkDir twoChunks)) None
        (fun _ => None) (fun _ => 1500000%N)
        (Unix 1700000000, Unix 1700007200) (fun _ => []) (Some 16%positive).

(** The same world with a backend that rejects every write. *)
Definition rejectingWritesEnv : Env :=
  mkEnv (chunkDir twoChunks) None
        (fun c => match c with
                  | CallWrite _ _ => Some "unauthorized access"
                  | _ => None
                  end)
        (fun _ => 1500000%N)
        (Unix 1700000000, Unix 1700007200) (fun _ => []) (Some 16%positive).

(** A computation only adds to the trace. *)
Definition grows {A} (m : M A) : Prop :=
  forall s, exists l, trace (snd (m s)) = l ++ trace s.

(** [minTime] and [maxTime] after query 1. *)
Definition boundsOf (E : Env) (b : Backend) : Time * Time :=
  match b with
  | InfluxDB => influxBounds E
  | _ => time_bounds E
  end.

(** The time arguments of query 7 for the middle time [m]: QuestDB is
    handed [m] and computes the window itself. *)
Definition window7 (b : Backend) (m : Time) : list Arg :=
  match b with
  | QuestDb => [SqlTime m]
  | InfluxDB => [RFC3339 (Add m (- Hour)); RFC3339 (Add m Hour)]
  | _ => [SqlTime (Add m (- Hour)); SqlTime (Add m Hour)]
  end.

(** ** The order of the derivations and of the queries *)

Definition argOf (b : Backend) (t : Time) : Arg :=
  match b with
  | InfluxDB => RFC3339 t
  | _ => SqlTime t
  end.

(** The calls of query 1: the InfluxDB adapter asks for the minimum and,
    when that call succeeded, for the maximum. *)
Definition query1Events (E : Env) (b : Backend) : list Event :=
  match b with
  | InfluxDB =>
      EvQuery 1 0 [] ::
      match fault E (CallQuery 1 0) with
      | Some _ => []
      | None => [EvQuery 1 1 []]
      end
  | _ => [EvQuery 1 0 []]
  end.

Definition query7Events (b : Backend) (m : Time) : list Event :=
  match b with
  | QuestDb => [EvQuery 7 0 [SqlTime m]]
  | _ => [EvDerive HourBefore (Add m (- Hour)); EvDerive HourAfter (Add m Hour);
          EvQuery 7 0 (window7 b m)]
  end.

Definition query8Events (b : Backend) (m : Time) : list Event :=
  match b with
  | Postgres => []
  | QuestDb => [EvQuery 8 0 [SqlTime m]]
  | _ => [EvDerive DayAfter (Add m (24 * Hour));
          EvQuery 8 0 [argOf b m; argOf b (Add m (24 * Hour))]]
  end.

(** A query without time argument, when the adapter runs it. *)
Definition plainQuery (b : Backend) (id : Z) : list Event :=
  if runsQuery b id then [EvQuery id 0 []] else [].

(** What follows the derivation of the middle time [m]. *)
Definition afterMiddle (b : Backend) (minTime maxTime m : Time) : list Event :=
  [EvQuery 2 0 []; EvQuery 3 0 []; EvQuery 4 0 [];
   EvQuery 5 0 [argOf b m]; EvQuery 6 0 [argOf b m]] ++
  query7Events b m ++ query8Events b m ++
  [EvQuery 9 0 []; EvQuery 10 0 []; EvQuery 11 0 []; EvQuery 12 0 []; EvQuery 13 0 []] ++
  plainQuery b 14 ++
  [EvQuery 15 0 [argOf b minTime; argOf b m]; EvQuery 16 0 [argOf b m; argOf b maxTime]] ++
  plainQuery b 17 ++ plainQuery b 18 ++ plainQuery b 19 ++ plainQuery b 20.

(** The derivations and queries of the query sequence of an adapter, in
    the order of the source. *)
Definition queryScript (E : Env) (b : Backend) : list Event :=
  let minTime := fst (boundsOf E b) in
  let maxTime := snd (boundsOf E b) in
  let m := middleOf minTime maxTime in
  query1Events E b ++ EvDerive MiddleTime m :: afterMiddle b minTime maxTime m.

Definition isDependentQuery (ev : Event) : bool :=
  match ev with
  | EvQuery id _ _ => existsb (Z.eqb id) dependentIds
  | _ => false
  end.

Definition isDerivation (ev : Event) : bool :=
  match ev with
  | EvDerive _ _ => true
  | _ => false
  end.

Definition isDerivationOf (what : Derived) (ev : Event) : bool :=
  match ev, what with
  | EvDerive MiddleTime _, MiddleTime
  | EvDerive HourBefore _, HourBefore
  | EvDerive HourAfter _, HourAfter
  | EvDerive DayAfter _, DayAfter => true
  | _, _ => false
  end.

(** The reading of the specification: every derived bound, the middle
    time and its offsets, is computed before the first of the queries 5, 6,
    7, 8, 15, 16 runs, that is, no derivation follows such a query. *)
Fixpoint derivedBeforeDependents (evs : list Event) : bool :=
  match evs with
  | [] => true
  | ev :: evs' =>
      if isDependentQuery ev then negb (existsb isDerivation evs')
      else derivedBeforeDependents evs'
  end.

(** The value of a derived bound for the middle time [m]. *)
Definition boundFor (what : Derived) (m : Time) : Time :=
  match what with
  | MiddleTime => m
  | HourBefore => Add m (- Hour)
  | HourAfter => Add m Hour
  | DayAfter => Add m (24 * Hour)
  end.

(** The time arguments of a dependent query for the middle time [m]. *)
Definition dependentArgs (b : Backend) (minTime maxTime m : Time) (id : Z) : list Arg :=
  if id =? 5 then [argOf b m]
  else if id =? 6 then [argOf b m]
  else if id =? 7 then window7 b m
  else if id =? 8 then
         match b with
         | QuestDb => [SqlTime m]
         | _ => [argOf b m; argOf b (Add m (24 * Hour))]
         end
  else if id =? 15 then [argOf b minTime; argOf b m]
  else if id =? 16 then [argOf b m; argOf b maxTime]
  else [].

(** What the events after the derivation of the middle time [m] have to
    do with it: a derivation is that of an offset of [m], a dependent query
    is run with the arguments made of [m]. *)
Definition madeOf (b : Backend) (minTime maxTime m : Time) (ev : Event) : Prop :=
  match ev with
  | EvDerive what t => what <> MiddleTime /\ t = boundFor what m
  | EvQuery id part args =>
      id <> 1 /\ part = 0%nat /\
      (In id dependentIds -> args = dependentArgs b minTime maxTime m id)
  | _ => False
  end.

(** A world whose InfluxDB answers the first call of query 1 (the minimum)
    with one record and fails the second (the maximum). *)
Definition maxQueryFailsEnv : Env :=
  mkEnv (chunkDir twoChunks) None
        (fun c => match c with
                  | CallQuery 1 1 => Some "unexpected EOF"
                  | _ => None
                  end)
        (fun _ => 1500000%N)
        (Unix 1700000000, Unix 1700007200)
        (fun c => match c with
                  | CallQuery 1 0 => [Unix 1700000000]
                  | _ => []
                  end)
        (Some 16%positive).

(** A world whose InfluxDB fails the first call of query 1. *)
Definition minQueryFailsEnv : Env :=
  mkEnv (chunkDir twoChunks) None
        (fun c => match c with
                  | CallQuery 1 0 => Some "unexpected EOF"
                  | _ => None
                  end)
        (fun _ => 1500000%N)
        (Unix 1700000000, Unix 1700007200) (fun _ => []) (Some 16%positive).
(** ** The adapter of a [-type] value *)

(** The adapter [main] runs for a value of [-type], if it knows it. *)
Definition backendOf (dbType : string) : option Backend :=
  List.find (fun b => String.eqb dbType (dbTypeOf b))
            [Postgres; TimescaleDb; QuestDb; CrateDB; ClickHouse; InfluxDB].

(** ** The driver calls of an ingestion block, with their rows *)

(** The calls the ingestion block of an adapter makes for a chunk when
    none fails, each with the rows it hands over; [nRecords] is the count
    before the chunk. *)
Definition writeCalls (b : Backend) (nRecords : Z) (data : ReadingFile)
  : list (WriteOp * list Row) :=
  let readings := Response data in
  match b with
  | Postgres | TimescaleDb => [(CopyFrom, map rowOf readings)]
  | QuestDb => imap (fun i reading => (LineAt i, [rowOf reading])) readings ++ [(LineFlush, [])]
  | InfluxDB =>
      imap (fun i reading => (WritePoint i, [rowOf reading])) readings ++ [(WriteFlush, [])]
  | CrateDB => [(SendBatch, map rowOf readings)]
  | ClickHouse =>
      [(TxBegin, []); (TxPrepare, [])] ++
      imap (fun i reading => (StmtExec i, [rowWithId nRecords i reading])) readings ++
      [(TxCommit, [])]
  end.

(** Does the adapter see the errors of its write calls? *)
Definition checksWrites (b : Backend) : bool :=
  match b with
  | InfluxDB => false
  | _ => true
  end.

(** A sequence of driver calls, each checked ([if err != nil { return err }])
    or not. *)
Fixpoint runWrites (E : Env) (checked : bool) (chunk : Z) (calls : list (WriteOp * list Row))
  : M unit :=
  match calls with
  | [] => ret tt
  | (op, rows) :: calls' =>
      (if checked then db_Write E chunk op rows else db_Write_noerr E chunk op rows) ;;
      runWrites E checked chunk calls'
  end.

(** The calls of such a sequence that are made: all of them, or, when the
    calls are checked, those up to the first that fails. *)
Fixpoint sentCalls (E : Env) (checked : bool) (chunk : Z) (calls : list (WriteOp * list Row))
  : list (WriteOp * list Row) :=
  match calls with
  | [] => []
  | (op, rows) :: calls' =>
      (op, rows) ::
      match fault E (CallWrite chunk op) with
      | Some _ => if checked then [] else sentCalls E checked chunk calls'
      | None => sentCalls E checked chunk calls'
      end
  end.

(** The time the calls take. *)
Definition callsLatency (E : Env) (chunk : Z) (calls : list (WriteOp * list Row)) : Z :=
  fold_right (fun call acc => Z.of_N (latency E (CallWrite chunk (fst call))) + acc) 0 calls.

Definition evWrite (chunk : Z) (call : WriteOp * list Row) : Event :=
  EvWrite chunk (fst call) (snd call).

(** ** The passes of the ingestion loop *)

(** The events of a pass that succeeds, and the sample it appends. *)
Definition passEvents (b : Backend) (chunk nRecords : Z) (data : ReadingFile) : list Event :=
  EvLoadChunk chunk :: map (evWrite chunk) (writeCalls b nRecords data).

Definition passSample (E : Env) (b : Backend) (chunk nRecords : Z) (data : ReadingFile)
  : IngestionSample :=
  mkSample (Milliseconds (subMono (callsLatency E chunk (writeCalls b nRecords data)) 0))
           (add64 nRecords (len (Response data))).

(** The events and the samples of the passes over the chunks [datas],
    the first of which is chunk [chunk]. *)
Fixpoint ingestEvents (b : Backend) (chunk nRecords : Z) (datas : list ReadingFile)
  : list Event :=
  match datas with
  | [] => []
  | data :: datas' =>
      passEvents b chunk nRecords data ++
      ingestEvents b (chunk + 1) (add64 nRecords (len (Response data))) datas'
  end.

Fixpoint ingestSamples (E : Env) (b : Backend) (chunk nRecords : Z) (datas : list ReadingFile)
  : list IngestionSample :=
  match datas with
  | [] => []
  | data :: datas' =>
      passSample E b chunk nRecords data ::
      ingestSamples E b (chunk + 1) (add64 nRecords (len (Response data))) datas'
  end.

(** The rows handed to the backend, in order, and a row without
    ClickHouse's explicit id. *)
Definition rowsWritten (evs : list Event) : list Row :=
  flat_map (fun ev => match ev with
                      | EvWrite _ _ rows => rows
                      | _ => []
                      end) evs.

Definition eraseId (row : Row) : Row :=
  mkRow None (row_user row) (row_time row) (row_rssi row) (row_ssid row).

(** All readings of the chunks, in file order. *)
Definition allReadings (datas : list ReadingFile) : list Reading :=
  flat_map Response datas.

(** The time the driver calls [ops] for a chunk take, in nanoseconds. *)
Definition opsLatency (E : Env) (chunk : Z) (ops : list WriteOp) : Z :=
  fold_right (fun op acc => Z.of_N (latency E (CallWrite chunk op)) + acc) 0 ops.

(** ** The ingestion as a whole *)

(** [nRecords] after the passes over [datas]. *)
Definition countAfter (nRecords : Z) (datas : list ReadingFile) : Z :=
  fold_left (fun n data => add64 n (len (Response data))) datas nRecords.

(** No write call of the passes over [chunks] returns an error the adapter
    would see. *)
Definition writesAccepted (E : Env) (b : Backend) (chunks : list ReadingFile) : Prop :=
  checksWrites b = true ->
  forall j data, chunks !! j = Some data ->
                 firstFault E (Z.of_nat j) (writeOps b data) = None.

(** The error of [os.Open] for a chunk file that is not there. *)
Definition noSuchChunk (chunk : Z) : error :=
  "open ../data/readings/" +:+ chunkName chunk +:+ ": no such file or directory".

(** ** The setup step, and more worlds for the examples *)

(** The calls of the setup step of an adapter, when none fails. *)
Definition setupEvents (b : Backend) (connStr : string) : list Event :=
  match b with
  | Postgres => [EvConnect PgxPoolNew connStr; EvExec schemaPostgres]
  | TimescaleDb => [EvConnect PgxPoolNew connStr; EvExec schemaTimescaleDb]
  | QuestDb =>
      match Split connStr ":::" with
      | [ingestUrl; queryUrl] =>
          [EvConnect LineSenderFromConf ingestUrl; EvConnect PgxPoolNew queryUrl]
      | _ => []
      end
  | InfluxDB => []
  | CrateDB => [EvConnect PgxPoolNew connStr; EvExec schemaCrateDB]
  | ClickHouse => [EvConnect ClickHousePing connStr; EvExec schemaClickHouse]
  end.

(** The constructor and the schema statements of the adapters that have a
    setup step of one connection and one batch. *)
Definition setupCalls (b : Backend) : option (Api * list Stmt) :=
  match b with
  | Postgres => Some (PgxPoolNew, schemaPostgres)
  | TimescaleDb => Some (PgxPoolNew, schemaTimescaleDb)
  | CrateDB => Some (PgxPoolNew, schemaCrateDB)
  | ClickHouse => Some (ClickHousePing, schemaClickHouse)
  | _ => None
  end.

(** The world of the examples with one more entry in the chunk
    directory. *)
Definition strayEntryEnv : Env :=
  mkEnv (<[".DS_Store" := Unreadable "is not a chunk"]> (chunkDir twoChunks)) None
        (fun _ => None) (fun _ => 1500000%N)
        (Unix 1700000000, Unix 1700007200) (fun _ => []) (Some 16%positive).

(** The world of the examples with a backend that is down: every call to
    it returns an error. *)
Definition downEnv : Env :=
  mkEnv (chunkDir twoChunks) None
        (fun c => match c with
                  | CallCreate _ | CallEncode _ => None
                  | _ => Some "connection refused"
                  end)
        (fun _ => 1500000%N)
        (Unix 1700000000, Unix 1700007200) (fun _ => []) (Some 16%positive).

(** The world of the examples on a machine of four CPUs: a pool of four
    connections. *)
Definition fourConnEnv : Env :=
  mkEnv (chunkDir twoChunks) None (fun _ => None) (fun _ => 1500000%N)
        (Unix 1700000000, Unix 1700007200) (fun _ => []) (Some 4%positive).

(** The world of the examples with an output path that cannot be
    created. *)
Definition readOnlyEnv : Env :=
  mkEnv (chunkDir twoChunks) None
        (fun c => match c with
                  | CallCreate _ => Some "permission denied"
                  | _ => None
                  end)
        (fun _ => 1500000%N)
        (Unix 1700000000, Unix 1700007200) (fun _ => []) (Some 16%positive).

(** The world of the examples with a backend that rejects the second row
    of the second chunk. *)
Definition failingRowEnv : Env :=
  mkEnv (chunkDir twoChunks) None
        (fun c => match c with
                  | CallWrite 1 (StmtExec 1) => Some "memory limit exceeded"
                  | _ => None
                  end)
        (fun _ => 1500000%N)
        (Unix 1700000000, Unix 1700007200) (fun _ => []) (Some 16%positive).

(** * Properties *)

(** ** Integers and the clock *)

Lemma wrap64_fits (z : Z) : fits64 z -> wrap64 z = z.
Proof.
  unfold fits64, wrap64, minInt64, maxInt64. intros H.
  rewrite Z.mod_small; lia.
Qed.

Lemma wrap64_range (z : Z) : fits64 (wrap64 z).
Proof.
  unfold fits64, wrap64, minInt64, maxInt64.
  pose proof (Z.mod_pos_bound (z + 2 ^ 63) (2 ^ 64)). lia.
Qed.

Lemma wrap64_eqm (z : Z) : exists k, wrap64 z = z + k * 2 ^ 64.
Proof.
  unfold wrap64. exists (- ((z + 2 ^ 63) / 2 ^ 64)).
  pose proof (Z.div_mod (z + 2 ^ 63) (2 ^ 64)). lia.
Qed.

Lemma subMono_nonneg (t u : Z) : u <= t -> 0 <= subMono t u <= maxInt64.
Proof.
  intros H. unfold subMono, maxDuration, minDuration.
  pose proof (wrap64_range (t - u)) as Hr. unfold fits64, minInt64, maxInt64 in *.
  unfold sub64.
  destruct (Z.ltb_spec (wrap64 (t - u)) 0), (Z.ltb_spec u t), (Z.ltb_spec 0 (wrap64 (t - u))),
    (Z.ltb_spec t u); cbn; try lia.
  assert (t = u) by lia. subst. replace (u - u) with 0 in * by lia.
  rewrite wrap64_fits in *; unfold fits64, minInt64, maxInt64; lia.
Qed.

Lemma Milliseconds_nonneg (d : Duration) : 0 <= d <= maxInt64 -> 0 <= Milliseconds d.
Proof.
  intros H. unfold Milliseconds, div64.
  assert (0 <= d ÷ 1000000 <= d).
  { split; [apply Z.quot_pos; lia |].
    rewrite Z.quot_div_nonneg by lia.
    apply Z.div_le_upper_bound; lia. }
  rewrite wrap64_fits; [lia |]. unfold fits64, minInt64, maxInt64 in *. lia.
Qed.

(** The duration an entry is given is never negative: the clock does not go
    back between the two readings. *)
Lemma measured_nonneg (start now : Z) : start <= now -> 0 <= Milliseconds (subMono now start).
Proof. intros H. apply Milliseconds_nonneg, subMono_nonneg, H. Qed.

(** ** Computations *)

Lemma bind_Ok {A B} (m : M A) (f : A -> M B) (s s' : State) (b : B) :
  bind m f s = (Ok b, s') ->
  exists a s1, m s = (Ok a, s1) /\ f a s1 = (Ok b, s').
Proof.
  unfold bind. destruct (m s) as [[a | e | |] s1]; intros H; try discriminate.
  eauto.
Qed.

Lemma bind_Err_l {A B} (m : M A) (f : A -> M B) (s s' : State) (e : error) :
  m s = (Err e, s') -> bind m f s = (Err e, s').
Proof. unfold bind. intros ->. reflexivity. Qed.

Lemma bind_Ok_l {A B} (m : M A) (f : A -> M B) (s s1 : State) (a : A) :
  m s = (Ok a, s1) -> bind m f s = f a s1.
Proof. unfold bind. intros ->. reflexivity. Qed.

(** ** The query blocks, one step at a time *)

Section Steps.

Variable E : Env.

Lemma added_nil (s : State) : added s s [].
Proof. reflexivity. Qed.

Lemma added_app (s s1 s2 : State) (l1 l2 : list Event) :
  added s s1 l1 -> added s1 s2 l2 -> added s s2 (l1 ++ l2).
Proof.
  unfold added. intros H1 H2. rewrite H2, H1, rev_app_distr, app_assoc. reflexivity.
Qed.

Lemma derives_spec (pre : list (Derived * Time)) (s : State) :
  derives pre s =
  (Ok tt, mkState (clock s) (catalog s) (outputs s)
            (rev (map (fun p => EvDerive (fst p) (snd p)) pre) ++ trace s) (held s)).
Proof.
  revert s. induction pre as [| [what t] pre IH]; intros s.
  - destruct s; reflexivity.
  - cbn [derives]. unfold bind at 1. unfold derive at 1. unfold bind at 1.
    cbn [emit ret]. rewrite IH. cbn [clock catalog outputs trace held map rev fst snd].
    rewrite <- app_assoc. reflexivity.
Qed.

Lemma latency_nonneg (c : Call) (z : Z) : z <= z + Z.of_N (latency E c).
Proof. pose proof (N2Z.is_nonneg (latency E c)). lia. Qed.

Local Ltac exec :=
  cbv [bind ret fail check time_Now time_Since db_Query emit try_call tick measured
       derive acquire keepRows fst snd clock catalog outputs trace held].

Local Ltac post :=
  unfold stepPost, unsupported, appendQuery; cbn [records DbType Ingestion Queries];
  repeat split; try reflexivity.

Lemma runStep_sql (id : Z) (desc : string) (pre : list (Derived * Time)) (args : list Arg)
    (rows : bool) (r : BenchmarkResults) (s : State) :
  runStep E (StepSql id desc pre args rows) r s =
  let st := StepSql id desc pre args rows in
  if poolFull E (held s)
  then (Blocked, mkState (clock s) (catalog s) (outputs s)
                         (rev (stepDerivations st) ++ trace s) (held s))
  else
    let s' := afterQuery E (stepEvents E st) (CallQuery id 0) s in
    match fault E (CallQuery id 0) with
    | Some e => (Err e, s')
    | None =>
        (Ok (appendQuery r (mkQueryResult id (Milliseconds (subMono (clock s') (clock s))) desc)),
         mkState (clock s') (catalog s') (outputs s') (trace s') (heldAfter (held s) st))
    end.
Proof.
  cbn [runStep stepEvents stepDerivations]. unfold bind at 1. cbn [time_Now]. unfold bind at 1.
  rewrite derives_spec. unfold bind at 1. unfold acquire at 1. cbn [held].
  destruct (poolFull E (held s)); [reflexivity |].
  exec. unfold afterQuery. rewrite rev_app_distr. cbn [rev app clock catalog outputs trace held].
  destruct (fault E (CallQuery id 0)); [reflexivity |].
  destruct rows; reflexivity.
Qed.

Lemma runStep_flux (id : Z) (desc : string) (pre : list (Derived * Time)) (args : list Arg)
    (r : BenchmarkResults) (s : State) :
  runStep E (StepFlux id desc pre args) r s =
  let s' := afterQuery E (stepEvents E (StepFlux id desc pre args)) (CallQuery id 0) s in
  match fault E (CallQuery id 0) with
  | Some e => (Ok (unsupported id desc r), s')
  | None =>
      (Ok (appendQuery r (mkQueryResult id (Milliseconds (subMono (clock s') (clock s))) desc)),
       s')
  end.
Proof.
  cbn [runStep stepEvents]. unfold bind at 1. cbn [time_Now]. unfold bind at 1.
  rewrite derives_spec. exec. unfold afterQuery. rewrite rev_app_distr. cbn [rev app clock].
  destruct (fault E (CallQuery id 0)); reflexivity.
Qed.

(** A block leaves the files and the catalog alone; how it ends is
    [stepOutcome]. *)
Lemma runStep_spec (st : Step) (r : BenchmarkResults) (s : State) :
  exists s',
    outputs s' = outputs s /\ catalog s' = catalog s /\
    match stepOutcome E (held s) st with
    | Blocks => runStep E st r s = (Blocked, s') /\ added s s' (stepDerivations st)
    | Fails e => runStep E st r s = (Err e, s') /\ added s s' (stepEvents E st)
    | Runs =>
        added s s' (stepEvents E st) /\ held s' = heldAfter (held s) st /\
        exists r', runStep E st r s = (Ok r', s') /\ stepPost E st r r'
    end.
Proof.
  destruct st as [id desc pre args rows | id desc pre args | | id desc | what t].
  - (* a block of a SQL backend *)
    rewrite runStep_sql. cbn [stepOutcome]. cbv zeta.
    destruct (poolFull E (held s)).
    { eexists. split; [| split; [| split]]; [| | reflexivity |]; reflexivity. }
    destruct (fault E (CallQuery id 0)) as [e |] eqn:Hf.
    { eexists. split; [| split; [| split]]; [| | reflexivity |]; reflexivity. }
    eexists. split; [| split; [| split; [| split]]]; cycle 4.
    { eexists; split; [reflexivity |]. post.
      eexists; split; [| reflexivity]. cbn. repeat split.
      apply measured_nonneg, latency_nonneg. }
    all: reflexivity.
  - (* a block of the InfluxDB adapter *)
    exists (afterQuery E (stepEvents E (StepFlux id desc pre args)) (CallQuery id 0) s).
    rewrite runStep_flux. cbn [stepOutcome]. cbv zeta.
    repeat split.
    destruct (fault E (CallQuery id 0)) as [e |] eqn:Hf;
      (eexists; split; [reflexivity |]); post;
      (eexists; split; [| reflexivity]); cbn [entryOf QueryId Description DurationMs];
      rewrite Hf; repeat split.
    apply measured_nonneg, latency_nonneg.
  - (* query 1 of the InfluxDB adapter *)
    cbn [runStep stepOutcome stepEvents]. unfold fluxQuery1. exec.
    unfold stepPost, entryOf, fluxBoundsFailed, added.
    destruct (fault E (CallQuery 1 0)) as [e |] eqn:Hf; exec.
    + eexists; (split; [| split; [| split; [| split]]]); cycle 4.
      { eexists; split; [reflexivity |]. post.
        eexists; split; [| reflexivity]. cbn. repeat split. }
      all: reflexivity.
    + destruct (fault E (CallQuery 1 1)) as [e |] eqn:Hf'; exec.
      * eexists; (split; [| split; [| split; [| split]]]); cycle 4.
        { eexists; split; [reflexivity |]. post.
          eexists; split; [| reflexivity]. cbn. repeat split. }
        all: reflexivity.
      * eexists; (split; [| split; [| split; [| split]]]); cycle 4.
        { eexists; split; [reflexivity |]. post.
          eexists; split; [| reflexivity]. cbn [QueryId Description DurationMs].
          repeat split. apply measured_nonneg.
          etransitivity; [apply latency_nonneg | apply latency_nonneg]. }
        all: reflexivity.
  - (* an entry with the sentinel *)
    exists s. repeat split. eexists; split; [reflexivity |]. post.
    eexists; split; [| reflexivity]. cbn. repeat split.
  - (* a derived bound *)
    cbn [runStep stepOutcome stepEvents]. exec.
    eexists; (split; [| split; [| split; [| split]]]); cycle 4.
    { eexists; split; [reflexivity |]. post. }
    all: reflexivity.
Qed.

End Steps.

(** ** A sequence of query blocks *)

Section Plans.

Variable E : Env.

Lemma firstn_app_length {A} (l1 l2 : list A) (n : nat) :
  firstn (length l1 + n) (l1 ++ l2) = l1 ++ firstn n l2.
Proof. induction l1 as [| a l1 IH]; cbn; [reflexivity | rewrite IH; reflexivity]. Qed.

Lemma firstn_length_app {A} (l1 l2 : list A) : firstn (length l1) (l1 ++ l2) = l1.
Proof.
  rewrite <- (Nat.add_0_r (length l1)), firstn_app_length, firstn_O, app_nil_r.
  reflexivity.
Qed.

(** The events a sequence of blocks leaves are an initial segment of the
    events of its blocks, all of them when every block goes through. *)
Lemma ranEvents_prefix (n : nat) (plan : list Step) :
  exists k, ranEvents E n plan = firstn k (planEvents E plan).
Proof.
  revert n. induction plan as [| st plan IH]; intros n; [exists 0%nat; reflexivity |].
  cbn [ranEvents planEvents flat_map].
  destruct (stepOutcome E n st) eqn:Ho.
  - destruct (IH (heldAfter n st)) as (k & ->).
    exists (length (stepEvents E st) + k)%nat. rewrite firstn_app_length. reflexivity.
  - exists (length (stepEvents E st)). rewrite firstn_length_app. reflexivity.
  - destruct st as [id desc pre args rows | id desc pre args | | id desc | what t];
      try discriminate.
    cbn [stepDerivations stepEvents].
    exists (length (map (fun p => EvDerive (fst p) (snd p)) pre)).
    rewrite <- app_assoc, firstn_length_app. reflexivity.
Qed.

Lemma ranEvents_Runs (n : nat) (plan : list Step) :
  planOutcome E n plan = Runs -> ranEvents E n plan = planEvents E plan.
Proof.
  revert n. induction plan as [| st plan IH]; intros n H; [reflexivity |].
  cbn [ranEvents planEvents flat_map planOutcome] in *.
  destruct (stepOutcome E n st); try discriminate.
  rewrite IH by assumption. reflexivity.
Qed.

(** A sequence of blocks leaves the files and the catalog alone.  It ends
    as [planOutcome] says: with the error of the first call that returns
    one, blocked by the first call that finds the pool used up, or, when
    every block goes through, with the entry of every recording block
    appended. *)
Lemma runSteps_spec (plan : list Step) (r : BenchmarkResults) (s : State) :
  exists s' : State,
    added s s' (ranEvents E (held s) plan) /\
    outputs s' = outputs s /\ catalog s' = catalog s /\
    match planOutcome E (held s) plan with
    | Fails e => runSteps E plan r s = (Err e, s')
    | Blocks => runSteps E plan r s = (Blocked, s')
    | Runs =>
        added s s' (planEvents E plan) /\
        exists r' qs,
          runSteps E plan r s = (Ok r', s') /\
          DbType r' = DbType r /\ Ingestion r' = Ingestion r /\
          Queries r' = Queries r ++ qs /\
          Forall2 (entryOf E) (List.filter records plan) qs
    end.
Proof.
  revert r s. induction plan as [| st plan IH]; intros r s.
  - exists s. cbn. repeat split.
    exists r, []. rewrite app_nil_r. repeat split. constructor.
  - destruct (runStep_spec E st r s) as (s1 & Hout & Hcat & Hrun).
    cbn [planOutcome runSteps planEvents flat_map ranEvents].
    destruct (stepOutcome E (held s) st) as [| e |] eqn:Ho.
    + destruct Hrun as (Hadd & Hheld & r1 & Hrun & Hdb & Hing & Hq).
      destruct (IH r1 s1) as (s' & Hadd' & Hout' & Hcat' & Hrest).
      rewrite Hheld in Hadd', Hrest.
      exists s'.
      split; [eapply added_app; eassumption |].
      split; [congruence |]. split; [congruence |].
      rewrite (bind_Ok_l _ _ _ _ _ Hrun).
      destruct (planOutcome E (heldAfter (held s) st) plan) as [| e |]; try assumption.
      destruct Hrest as (Hfull & r' & qs & Hrun' & Hdb' & Hing' & Hqs & Hall).
      split; [eapply added_app; eassumption |].
      destruct (records st) eqn:Hrec.
      * destruct Hq as (q & Hq & Hq1).
        exists r', (q :: qs). cbn [List.filter]. rewrite Hrec.
        repeat split; try congruence.
        -- rewrite Hqs, Hq1, <- app_assoc. reflexivity.
        -- constructor; assumption.
      * exists r', qs. cbn [List.filter]. rewrite Hrec.
        repeat split; try congruence.
    + destruct Hrun as (Hrun & Hadd). exists s1. repeat split; try assumption.
      apply bind_Err_l, Hrun.
    + destruct Hrun as (Hrun & Hadd). exists s1. repeat split; try assumption.
      unfold bind. rewrite Hrun. reflexivity.
Qed.

Lemma bind_ext {A B} (m m' : M A) (f f' : A -> M B) (s : State) :
  (forall s, m s = m' s) -> (forall a s, f a s = f' a s) -> bind m f s = bind m' f' s.
Proof.
  intros Hm Hf. unfold bind. rewrite Hm. destruct (m' s) as [[a | e | |] s1]; auto.
Qed.


(** A sequence of blocks that returns its results went through. *)
Lemma runSteps_Ok (plan : list Step) (r r' : BenchmarkResults) (s s' : State) :
  runSteps E plan r s = (Ok r', s') ->
  planOutcome E (held s) plan = Runs /\
  added s s' (planEvents E plan) /\
  outputs s' = outputs s /\ catalog s' = catalog s /\
  DbType r' = DbType r /\ Ingestion r' = Ingestion r /\
  exists qs, Queries r' = Queries r ++ qs /\
             Forall2 (entryOf E) (List.filter records plan) qs.
Proof.
  intros H.
  destruct (runSteps_spec plan r s) as (s1 & _ & Hout & Hcat & Hrun).
  destruct (planOutcome E (held s) plan); try congruence.
  destruct Hrun as (Hadd & r1 & qs & Hrun & Hdb & Hing & Hqs & Hall).
  rewrite H in Hrun. inversion Hrun; subst. eauto 10.
Qed.

(** The blocks of the SQL adapters are steps. *)
Lemma sqlQuery_step (id : Z) (desc : string) (args : list Time) (r : BenchmarkResults)
    (s : State) :
  sqlQuery E id desc args r s = runStep E (StepSql id desc [] (map SqlTime args) false) r s.
Proof. reflexivity. Qed.

Lemma sqlQueryRows_step (id : Z) (desc : string) (args : list Time) (r : BenchmarkResults)
    (s : State) :
  sqlQueryRows E id desc args r s = runStep E (StepSql id desc [] (map SqlTime args) true) r s.
Proof. reflexivity. Qed.

Lemma sqlQuery7_step (m : Time) (r : BenchmarkResults) (s : State) :
  sqlQuery7 E m r s = runStep E (step7 false m) r s.
Proof.
  cbv [sqlQuery7 step7 runStep bind derives derive emit ret time_Now].
  reflexivity.
Qed.

Lemma sqlQuery8_step (m : Time) (r : BenchmarkResults) (s : State) :
  sqlQuery8 E m r s = runStep E (step8 false m) r s.
Proof.
  cbv [sqlQuery8 step8 runStep bind derives derive emit ret time_Now].
  reflexivity.
Qed.

Lemma sqlQuery1_bind {B} (r : BenchmarkResults) (f : BenchmarkResults * Time * Time -> M B)
    (s : State) :
  bind (sqlQuery1 E r) f s =
  bind (runStep E (StepSql 1 "Get time bounds" [] [] false) r)
       (fun r1 => f (r1, fst (time_bounds E), snd (time_bounds E))) s.
Proof.
  unfold sqlQuery1. cbn [runStep]. destruct (time_bounds E) as [minTime maxTime].
  destruct s as [c cat out tr h].
  cbv [bind ret fail check time_Now time_Since db_Query emit try_call tick measured
       derives acquire fst snd clock catalog outputs trace held].
  destruct (poolFull E h); [reflexivity |].
  destruct (fault E (CallQuery 1 0)); reflexivity.
Qed.

Local Ltac steps :=
  repeat (apply bind_ext;
          [ intros; first [ apply sqlQuery_step | apply sqlQueryRows_step
                          | apply sqlQuery7_step | apply sqlQuery8_step
                          | reflexivity ]
          | intros ]).

Lemma queriesPostgres_plan (results : BenchmarkResults) (s : State) :
  queriesPostgres E results s = runSteps E (planPostgres E) results s.
Proof.
  unfold queriesPostgres, planPostgres. rewrite sqlQuery1_bind.
  destruct (time_bounds E) as [minTime maxTime]. cbn [runSteps fst snd].
  apply bind_ext; [reflexivity |]. intros r1 s1.
  steps. reflexivity.
Qed.

Lemma queriesSql_plan (results : BenchmarkResults) (s : State) :
  queriesSql E results s = runSteps E (planSql E) results s.
Proof.
  unfold queriesSql, planSql. rewrite sqlQuery1_bind.
  destruct (time_bounds E) as [minTime maxTime]. cbn [runSteps fst snd].
  apply bind_ext; [reflexivity |]. intros r1 s1.
  steps. reflexivity.
Qed.

Lemma queriesQuestDb_plan (results : BenchmarkResults) (s : State) :
  queriesQuestDb E results s = runSteps E (planQuestDb E) results s.
Proof.
  unfold queriesQuestDb, planQuestDb. rewrite sqlQuery1_bind.
  destruct (time_bounds E) as [minTime maxTime]. cbn [runSteps fst snd].
  apply bind_ext; [reflexivity |]. intros r1 s1.
  steps. reflexivity.
Qed.

End Plans.


Section PlanInflux.

Variable E : Env.

Lemma fluxQuery_step (id : Z) (desc : string) (args : list Time) (r : BenchmarkResults)
    (s : State) :
  fluxQuery E id desc args r s = runStep E (StepFlux id desc [] (map RFC3339 args)) r s.
Proof. reflexivity. Qed.

Lemma fluxQuery7_step (m : Time) (r : BenchmarkResults) (s : State) :
  fluxQuery7 E m r s = runStep E (step7 true m) r s.
Proof.
  cbv [fluxQuery7 step7 runStep bind derives derive emit ret time_Now].
  reflexivity.
Qed.

Lemma fluxQuery8_step (m : Time) (r : BenchmarkResults) (s : State) :
  fluxQuery8 E m r s = runStep E (step8 true m) r s.
Proof.
  cbv [fluxQuery8 step8 runStep bind derives derive emit ret time_Now].
  reflexivity.
Qed.

Lemma fluxQuery1_bounds (r : BenchmarkResults) (s : State) :
  exists r1 s1,
    fluxQuery1 E r s = (Ok (r1, fst (influxBounds E), snd (influxBounds E)), s1).
Proof.
  unfold fluxQuery1, influxBounds.
  cbv [bind ret time_Now db_Query emit try_call tick measured time_Since].
  destruct (fault E (CallQuery 1 0)); [eauto |].
  destruct (fault E (CallQuery 1 1)); eauto.
Qed.

Lemma derive_bind {B} (what : Derived) (t : Time) (f : Time -> M B) (s : State) :
  bind (derive what t) f s =
  f t (mkState (clock s) (catalog s) (outputs s) (EvDerive what t :: trace s) (held s)).
Proof. reflexivity. Qed.

Lemma stepDerive_bind {B} (what : Derived) (t : Time) (r : BenchmarkResults)
    (f : BenchmarkResults -> M B) (s : State) :
  bind (runStep E (StepDerive what t) r) f s =
  f r (mkState (clock s) (catalog s) (outputs s) (EvDerive what t :: trace s) (held s)).
Proof. reflexivity. Qed.

Lemma queriesInfluxDB_plan (results : BenchmarkResults) (s : State) :
  queriesInfluxDB E results s = runSteps E (planInfluxDB E) results s.
Proof.
  unfold queriesInfluxDB, planInfluxDB.
  destruct (fluxQuery1_bounds results s) as (r1 & s1 & H1).
  destruct (influxBounds E) as [minTime maxTime]. cbn [fst snd] in H1.
  assert (H2 : runStep E StepFluxBounds results s = (Ok r1, s1))
    by (cbn [runStep]; rewrite (bind_Ok_l _ _ _ _ _ H1); reflexivity).
  cbn [runSteps]. rewrite (bind_Ok_l _ _ _ _ _ H1), (bind_Ok_l _ _ _ _ _ H2).
  rewrite derive_bind, stepDerive_bind.
  repeat (apply bind_ext;
          [ intros; first [ apply fluxQuery_step | apply fluxQuery7_step | apply fluxQuery8_step ]
          | intros ]).
  reflexivity.
Qed.

End PlanInflux.

(** ** The ingestion blocks *)

Section Writes.

Variable E : Env.

Lemma db_Write_spec (chunk : Z) (op : WriteOp) (rows : list Row) (s : State) :
  exists s',
    outputs s' = outputs s /\ catalog s' = catalog s /\
    db_Write E chunk op rows s = (outcome (fault E (CallWrite chunk op)), s').
Proof.
  cbv [db_Write bind emit try_call tick ret check fail outcome].
  destruct (fault E (CallWrite chunk op));
    (eexists; (split; [| split]); [ | | reflexivity]; reflexivity).
Qed.

Lemma db_Write_noerr_spec (chunk : Z) (op : WriteOp) (rows : list Row) (s : State) :
  exists s',
    outputs s' = outputs s /\ catalog s' = catalog s /\
    db_Write_noerr E chunk op rows s = (Ok tt, s').
Proof.
  cbv [db_Write_noerr bind emit try_call tick ret].
  eexists; (split; [| split]); [ | | reflexivity]; reflexivity.
Qed.

Lemma forRange_write (mk : nat -> WriteOp) (row : nat -> Reading -> list Row) (chunk : Z)
    (l : list Reading) (i : nat) (s : State) :
  exists s',
    outputs s' = outputs s /\ catalog s' = catalog s /\
    forRange (fun i reading => db_Write E chunk (mk i) (row i reading)) i l s =
    (outcome (firstFault E chunk (map mk (seq i (length l)))), s').
Proof.
  revert i s. induction l as [| reading l IH]; intros i s.
  - exists s. repeat split.
  - cbn [forRange length seq map firstFault].
    destruct (db_Write_spec chunk (mk i) (row i reading) s) as (s1 & Ho & Hc & Hw).
    unfold bind at 1. rewrite Hw.
    destruct (fault E (CallWrite chunk (mk i))) as [e |]; cbn [outcome].
    + exists s1. repeat split; assumption.
    + destruct (IH (S i) s1) as (s' & Ho' & Hc' & Hw').
      exists s'. repeat split; congruence.
Qed.

Lemma forRange_write_noerr (mk : nat -> WriteOp) (row : nat -> Reading -> list Row) (chunk : Z)
    (l : list Reading) (i : nat) (s : State) :
  exists s',
    outputs s' = outputs s /\ catalog s' = catalog s /\
    forRange (fun i reading => db_Write_noerr E chunk (mk i) (row i reading)) i l s = (Ok tt, s').
Proof.
  revert i s. induction l as [| reading l IH]; intros i s.
  - exists s. repeat split.
  - cbn [forRange].
    destruct (db_Write_noerr_spec chunk (mk i) (row i reading) s) as (s1 & Ho & Hc & Hw).
    unfold bind at 1. rewrite Hw.
    destruct (IH (S i) s1) as (s' & Ho' & Hc' & Hw').
    exists s'. repeat split; congruence.
Qed.

Lemma firstFault_app (chunk : Z) (l1 l2 : list WriteOp) :
  firstFault E chunk (l1 ++ l2) =
  match firstFault E chunk l1 with
  | Some e => Some e
  | None => firstFault E chunk l2
  end.
Proof.
  induction l1 as [| op l1 IH]; cbn; [reflexivity |].
  destruct (fault E (CallWrite chunk op)); [reflexivity | apply IH].
Qed.

(** The ingestion block of an adapter ends with the error of the first
    driver call that fails; the block of the InfluxDB adapter has no error
    to end with. *)
Lemma writeOf_spec (b : Backend) (nRecords chunk : Z) (data : ReadingFile) (s : State) :
  exists s',
    outputs s' = outputs s /\ catalog s' = catalog s /\
    writeOf E b nRecords chunk data s =
    (match b with
     | InfluxDB => Ok tt
     | _ => outcome (firstFault E chunk (writeOps b data))
     end, s').
Proof.
  destruct b; cbn [writeOf writeOps].
  - destruct (db_Write_spec chunk CopyFrom (map rowOf (Response data)) s) as (s' & ? & ? & H).
    exists s'. unfold writeCopyFrom. cbn [firstFault]. rewrite H.
    repeat split; try assumption. destruct (fault E _); reflexivity.
  - destruct (db_Write_spec chunk CopyFrom (map rowOf (Response data)) s) as (s' & ? & ? & H).
    exists s'. unfold writeCopyFrom. cbn [firstFault]. rewrite H.
    repeat split; try assumption. destruct (fault E _); reflexivity.
  - unfold writeLineSender.
    destruct (forRange_write LineAt (fun _ reading => [rowOf reading]) chunk (Response data) 0 s)
      as (s1 & Ho & Hc & H).
    unfold bind. rewrite H. rewrite firstFault_app.
    destruct (firstFault E chunk (map LineAt _)) as [e |]; cbn [outcome].
    + exists s1. repeat split; assumption.
    + destruct (db_Write_spec chunk LineFlush [] s1) as (s' & ? & ? & H').
      exists s'. rewrite H'. cbn [firstFault].
      repeat split; try congruence. destruct (fault E _); reflexivity.
  - unfold writeInflux.
    destruct (forRange_write_noerr WritePoint (fun _ reading => [rowOf reading]) chunk
                (Response data) 0 s) as (s1 & Ho & Hc & H).
    unfold bind. rewrite H.
    destruct (db_Write_noerr_spec chunk WriteFlush [] s1) as (s' & ? & ? & H').
    exists s'. rewrite H'. repeat split; congruence.
  - destruct (db_Write_spec chunk SendBatch (map rowOf (Response data)) s) as (s' & ? & ? & H).
    exists s'. unfold writeBatch. cbn [firstFault]. rewrite H.
    repeat split; try assumption. destruct (fault E _); reflexivity.
  - unfold writeTx. cbn [app firstFault].
    destruct (db_Write_spec chunk TxBegin [] s) as (s1 & Ho1 & Hc1 & H1).
    unfold bind at 1. rewrite H1.
    destruct (fault E (CallWrite chunk TxBegin)) as [e |]; cbn [outcome];
      [exists s1; repeat split; assumption |].
    destruct (db_Write_spec chunk TxPrepare [] s1) as (s2 & Ho2 & Hc2 & H2).
    unfold bind at 1. rewrite H2.
    destruct (fault E (CallWrite chunk TxPrepare)) as [e |]; cbn [outcome];
      [exists s2; repeat split; congruence |].
    destruct (forRange_write StmtExec (fun i reading => [rowWithId nRecords i reading]) chunk
                (Response data) 0 s2) as (s3 & Ho3 & Hc3 & H3).
    unfold bind at 1. rewrite H3. rewrite firstFault_app.
    destruct (firstFault E chunk (map StmtExec _)) as [e |]; cbn [outcome];
      [exists s3; repeat split; congruence |].
    destruct (db_Write_spec chunk TxCommit [] s3) as (s' & ? & ? & H').
    exists s'. rewrite H'. cbn [firstFault].
    repeat split; try congruence. destruct (fault E _); reflexivity.
Qed.

End Writes.

(** ** [loadDataChunk] and the ingestion loop *)

Section Ingestion.

Variable E : Env.

Lemma len_dir : len (map_to_list (readings E)) = Z.of_nat (size (readings E)).
Proof. unfold len. rewrite length_map_to_list. reflexivity. Qed.

Lemma loadDataChunk_state (c : Z) (s : State) :
  outputs (snd (loadDataChunk E c s)) = outputs s /\
  catalog (snd (loadDataChunk E c s)) = catalog s /\
  trace (snd (loadDataChunk E c s)) = EvLoadChunk c :: trace s.
Proof.
  unfold loadDataChunk.
  destruct (readings E !! chunkName c) as [[data | e | e] |]; cbn; auto.
  destruct (readdir_error E); cbn; auto.
  destruct (add64 c 1 <? _); cbn; auto.
Qed.

Lemma loadDataChunk_ok (c : Z) (s s' : State) (hasMore : bool) (data : ReadingFile) :
  loadDataChunk E c s = ((hasMore, data, None), s') ->
  readings E !! chunkName c = Some (Decodes data) /\
  readdir_error E = None /\
  hasMore = (add64 c 1 <? Z.of_nat (size (readings E))).
Proof.
  unfold loadDataChunk. rewrite len_dir.
  destruct (readings E !! chunkName c) as [[d | e | e] |]; try discriminate.
  destruct (readdir_error E); try discriminate.
  destruct (add64 c 1 <? _); intros H; inversion H; subst; auto.
Qed.

Lemma chunkSize_ok (c : Z) (data : ReadingFile) :
  readings E !! chunkName c = Some (Decodes data) -> chunkSize E c = len (Response data).
Proof. unfold chunkSize. intros ->. reflexivity. Qed.

Lemma chunkSize_nonneg (c : Z) : 0 <= chunkSize E c.
Proof.
  unfold chunkSize, len.
  destruct (readings E !! chunkName c) as [[d | e | e] |]; lia.
Qed.

Section Loop.

Variable write : Z -> Z -> ReadingFile -> M unit.

Hypothesis write_spec :
  forall nRecords chunk data s,
    exists s' res,
      outputs s' = outputs s /\ catalog s' = catalog s /\
      write nRecords chunk data s = (res, s') /\ res <> OutOfFuel.

Lemma ingestLoop_step (fuel : nat) (c : Z) (r : BenchmarkResults) (n : Z) (s : State) :
  let '(hasNext, data, err, s1) := loadDataChunk E c s in
  match err with
  | Some e => ingestLoop E write (S fuel) c r n s = (Err e, s1)
  | None =>
      match write n c data s1 with
      | (Err e, s2) => ingestLoop E write (S fuel) c r n s = (Err e, s2)
      | (OutOfFuel, s2) => ingestLoop E write (S fuel) c r n s = (OutOfFuel, s2)
      | (Blocked, s2) => ingestLoop E write (S fuel) c r n s = (Blocked, s2)
      | (Ok _, s2) =>
          let n' := add64 n (len (Response data)) in
          let r' := appendIngestion r
                      (mkSample (Milliseconds (subMono (clock s2) (clock s1))) n') in
          ingestLoop E write (S fuel) c r n s =
          if negb hasNext then (Ok r', s2)
          else ingestLoop E write fuel (add64 c 1) r' n' s2
      end
  end.
Proof.
  cbn [ingestLoop].
  destruct (loadDataChunk E c s) as [[[hasNext data] [e |]] s1]; [reflexivity |].
  cbv [bind time_Now time_Since ret].
  destruct (write n c data s1) as [[[] | e | |] s2]; try reflexivity.
  destruct hasNext; reflexivity.
Qed.

(** The loop leaves the output files and the catalog alone, and appends
    to the ingestion list only. *)
Lemma ingestLoop_frame (fuel : nat) (c : Z) (r : BenchmarkResults) (n : Z) (s : State) :
  exists res s',
    ingestLoop E write fuel c r n s = (res, s') /\
    outputs s' = outputs s /\ catalog s' = catalog s /\
    forall r', res = Ok r' -> DbType r' = DbType r /\ Queries r' = Queries r.
Proof.
  revert c r n s. induction fuel as [| fuel IH]; intros c r n s.
  - exists OutOfFuel, s. split; [| split; [| split]]; try reflexivity.
    intros r' Hr'. discriminate.
  - pose proof (ingestLoop_step fuel c r n s) as Hstep.
    pose proof (loadDataChunk_state c s) as (Ho1 & Hc1 & _).
    destruct (loadDataChunk E c s) as [[[hasNext data] [e |]] s1] eqn:Hload;
      cbn [snd] in Ho1, Hc1.
    { exists (Err e), s1. split; [| split; [| split]]; try assumption.
      intros r' Hr'. discriminate. }
    destruct (write_spec n c data s1) as (s2 & res & Ho2 & Hc2 & Hw & Hres).
    rewrite Hw in Hstep.
    destruct res as [[] | e | |]; [| | congruence |].
    2: { exists (Err e), s2. split; [| split; [| split]]; congruence. }
    2: { exists Blocked, s2. split; [| split; [| split]]; congruence. }
    cbv zeta in Hstep.
    destruct hasNext; cbn [negb] in Hstep.
    + match type of Hstep with
      | _ = ingestLoop _ _ _ ?c1 ?r1 ?n1 _ =>
          destruct (IH c1 r1 n1 s2) as (res & s' & Hrun & Ho & Hcat & Hok)
      end.
      exists res, s'. rewrite Hstep.
      split; [exact Hrun |]. split; [congruence |]. split; [congruence |].
      intros r' Hr'. destruct (Hok r' Hr') as (H1 & H2).
      split; [exact H1 | exact H2].
    + eexists _, s2. split; [exact Hstep |].
      split; [congruence |]. split; [congruence |].
      intros r' Hr'; inversion Hr'; subst; clear Hr'.
      split; reflexivity.
Qed.

(** When the loop ends without an error it has appended one sample per
    pass, with the running count. *)
Lemma ingestLoop_counts (fuel : nat) (c : Z) (r r' : BenchmarkResults) (n : Z) (s s' : State) :
  0 <= c -> c + Z.of_nat fuel <= maxInt64 ->
  ingestLoop E write fuel c r n s = (Ok r', s') ->
  exists k, (0 < k)%nat /\
    map NRecords (Ingestion r') = map NRecords (Ingestion r) ++ runningFrom E c n k.
Proof.
  revert c r n s. induction fuel as [| fuel IH]; intros c r n s Hc Hfuel Hrun.
  - discriminate.
  - pose proof (ingestLoop_step fuel c r n s) as Hstep.
    destruct (loadDataChunk E c s) as [[[hasNext data] [e |]] s1] eqn:Hload;
      [congruence |].
    destruct (write n c data s1) as [[[] | e | |] s2]; [| congruence | congruence | congruence].
    cbv zeta in Hstep.
    apply loadDataChunk_ok in Hload as (Hfile & _ & Hmore).
    rewrite <- (chunkSize_ok _ _ Hfile) in Hstep.
    rewrite Hstep in Hrun. clear Hstep.
    destruct hasNext; cbn [negb] in Hrun.
    + assert (Hnext : add64 c 1 = c + 1).
      { unfold add64. apply wrap64_fits. unfold fits64, minInt64, maxInt64 in *. lia. }
      rewrite Hnext in Hrun.
      apply IH in Hrun as (k & Hk & H); [| lia | lia].
      exists (S k). split; [lia |].
      rewrite H. cbn [appendIngestion Ingestion runningFrom].
      rewrite map_app, <- app_assoc. reflexivity.
    + inversion Hrun; subst; clear Hrun.
      exists 1%nat. split; [lia |].
      cbn [appendIngestion Ingestion runningFrom]. rewrite map_app. reflexivity.
Qed.

(** One pass more than the directory has entries is enough: the loop does
    not run out of passes. *)
Lemma ingestLoop_fuel (fuel : nat) (c : Z) (r : BenchmarkResults) (n : Z) (s : State) :
  0 <= c -> c + Z.of_nat fuel <= maxInt64 ->
  Z.of_nat (size (readings E)) < c + Z.of_nat fuel -> (0 < fuel)%nat ->
  fst (ingestLoop E write fuel c r n s) <> OutOfFuel.
Proof.
  revert c r n s. induction fuel as [| fuel IH]; intros c r n s Hc Hfuel Hsize Hpos.
  - lia.
  - pose proof (ingestLoop_step fuel c r n s) as Hstep.
    destruct (loadDataChunk E c s) as [[[hasNext data] [e |]] s1] eqn:Hload.
    { rewrite Hstep. discriminate. }
    destruct (write_spec n c data s1) as (s2 & res & _ & _ & Hw & Hres).
    rewrite Hw in Hstep.
    destruct res as [[] | e | |];
      [| rewrite Hstep; discriminate | congruence | rewrite Hstep; discriminate].
    cbv zeta in Hstep. rewrite Hstep.
    apply loadDataChunk_ok in Hload as (_ & _ & Hmore).
    destruct hasNext; cbn [negb]; [| discriminate].
    symmetry in Hmore. apply Z.ltb_lt in Hmore.
    assert (Hnext : add64 c 1 = c + 1).
    { unfold add64. apply wrap64_fits. unfold fits64, minInt64, maxInt64 in *. lia. }
    rewrite Hnext in *. apply IH; lia.
Qed.

End Loop.

End Ingestion.

(** ** Running counts *)

Section Counts.

Variable E : Env.

Lemma wrap64_add_l (a b : Z) : wrap64 (wrap64 a + b) = wrap64 (a + b).
Proof.
  unfold wrap64.
  replace ((a + 2 ^ 63) mod 2 ^ 64 - 2 ^ 63 + b + 2 ^ 63)
    with ((a + 2 ^ 63) mod 2 ^ 64 + b) by lia.
  rewrite Z.add_mod_idemp_l by lia.
  replace (a + 2 ^ 63 + b) with (a + b + 2 ^ 63) by lia. reflexivity.
Qed.

Lemma cumulativeFrom_nonneg (c : Z) (m : nat) : 0 <= cumulativeFrom E c m.
Proof.
  revert c. induction m as [| m IH]; intros c; cbn [cumulativeFrom]; [lia |].
  pose proof (chunkSize_nonneg E c). pose proof (IH (c + 1)). lia.
Qed.

Lemma cumulativeFrom_mono (c : Z) (m m' : nat) :
  (m <= m')%nat -> cumulativeFrom E c m <= cumulativeFrom E c m'.
Proof.
  revert c m'. induction m as [| m IH]; intros c m' Hle.
  - apply cumulativeFrom_nonneg.
  - destruct m' as [| m']; [lia |]. cbn [cumulativeFrom].
    pose proof (IH (c + 1) m'). lia.
Qed.

Lemma runningFrom_length (c n : Z) (k : nat) : length (runningFrom E c n k) = k.
Proof.
  revert c n. induction k as [| k IH]; intros c n; cbn [runningFrom length]; [reflexivity |].
  rewrite IH. reflexivity.
Qed.

Lemma runningFrom_nth (k : nat) (c n : Z) (i : nat) :
  (i < k)%nat ->
  nth i (runningFrom E c n k) 0 = wrap64 (n + cumulativeFrom E c (S i)).
Proof.
  revert c n i. induction k as [| k IH]; intros c n i Hi; [lia |].
  cbn [runningFrom].
  destruct i as [| i]; cbn [nth].
  - unfold add64. cbn [cumulativeFrom]. f_equal. lia.
  - rewrite IH by lia. unfold add64. rewrite wrap64_add_l.
    f_equal. cbn [cumulativeFrom]. lia.
Qed.

Lemma last_nth {A} (l : list A) (d : A) : List.last l d = nth (length l - 1) l d.
Proof.
  induction l as [| a [| b l] IH]; try reflexivity.
  change (List.last (a :: b :: l) d) with (List.last (b :: l) d).
  rewrite IH. cbn [length]. replace (S (S (length l)) - 1)%nat with (S (S (length l) - 1)) by lia.
  reflexivity.
Qed.

(** The counts of the samples of an ingestion that started at chunk 0 with
    no record. *)
Lemma running_counts (ns : list Z) (k : nat) :
  (0 < k)%nat ->
  ns = runningFrom E 0 0 k ->
  ns <> [] /\
  (forall i, (i < length ns)%nat -> nth i ns 0 = wrap64 (cumulative E i)) /\
  (cumulative E (length ns - 1) <= maxInt64 ->
   (forall i, (i < length ns)%nat -> nth i ns 0 = cumulative E i) /\
   (forall i j, (i <= j < length ns)%nat -> nth i ns 0 <= nth j ns 0) /\
   List.last ns 0 = cumulative E (length ns - 1)).
Proof.
  intros Hk ->. rewrite runningFrom_length.
  assert (Hnth : forall i, (i < k)%nat ->
            nth i (runningFrom E 0 0 k) 0 = wrap64 (cumulative E i)).
  { intros i Hi. rewrite runningFrom_nth by assumption. reflexivity. }
  split; [| split; [exact Hnth |]].
  - destruct k; [lia | discriminate].
  - intros Hfit.
    assert (Hplain : forall i, (i < k)%nat ->
              nth i (runningFrom E 0 0 k) 0 = cumulative E i).
    { intros i Hi. rewrite Hnth by assumption. apply wrap64_fits.
      pose proof (cumulativeFrom_nonneg 0 (S i)).
      pose proof (cumulativeFrom_mono 0 (S i) (S (k - 1)) ltac:(lia)).
      unfold cumulative, fits64, minInt64 in *. lia. }
    split; [exact Hplain |]. split.
    + intros i j Hij. rewrite !Hplain by lia.
      apply cumulativeFrom_mono. lia.
    + rewrite last_nth, runningFrom_length. apply Hplain. lia.
Qed.

End Counts.

(** ** The benchmark functions, phase by phase *)

Section Phases.

Variable E : Env.

Lemma bind_assoc {A B C} (m : M A) (f : A -> M B) (g : B -> M C) (s : State) :
  bind (bind m f) g s = bind m (fun a => bind (f a) g) s.
Proof. unfold bind. destruct (m s) as [[a | e | |] s1]; reflexivity. Qed.

Lemma benchmark_phases (b : Backend) (connStr outFile : string) (s : State) :
  benchmark E b connStr outFile s =
  (setupOf E b connStr ;;
   results <- ingest E (writeOf E b) ;;
   results <- queriesOf E b results ;;
   writeResults E (dbTypeOf b) outFile results) s.
Proof.
  destruct b; cbn [benchmark setupOf writeOf queriesOf dbTypeOf];
    try (rewrite bind_assoc; reflexivity); try reflexivity.
  unfold benchmarkQuestDb.
  destruct (Split connStr ":::") as [| a [| b [| c l]]]; try reflexivity.
  rewrite bind_assoc. reflexivity.
Qed.

Lemma queriesOf_plan (b : Backend) (r : BenchmarkResults) (s : State) :
  queriesOf E b r s = runSteps E (planOf E b) r s.
Proof.
  destruct b; cbn [queriesOf planOf];
    auto using queriesPostgres_plan, queriesSql_plan, queriesQuestDb_plan,
      queriesInfluxDB_plan.
Qed.

Lemma writeOf_frame (b : Backend) (nRecords chunk : Z) (data : ReadingFile) (s : State) :
  exists s' res,
    outputs s' = outputs s /\ catalog s' = catalog s /\
    writeOf E b nRecords chunk data s = (res, s') /\ res <> OutOfFuel.
Proof.
  destruct (writeOf_spec E b nRecords chunk data s) as (s' & Ho & Hc & H).
  eexists s', _. repeat split; try eassumption.
  destruct b; try discriminate;
    destruct (firstFault E chunk _); discriminate.
Qed.

(** What writing the result file does. *)
Lemma writeResults_spec (dbType outFile : string) (r : BenchmarkResults) (s : State) :
  exists s',
    catalog s' = catalog s /\
    match fault E (CallCreate outFile), fault E (CallEncode outFile) with
    | Some e, _ =>
        writeResults E dbType outFile r s = (Err e, s') /\ outputs s' = outputs s
    | None, Some e =>
        writeResults E dbType outFile r s = (Err e, s') /\
        outputs s' = <[outFile := Empty]> (outputs s)
    | None, None =>
        writeResults E dbType outFile r s = (Ok tt, s') /\
        outputs s' = <[outFile := Json (setDbType r dbType)]> (outputs s)
    end.
Proof.
  cbv [writeResults bind emit try_call tick ret check fail setFile
       clock catalog outputs trace].
  destruct (fault E (CallCreate outFile)).
  { eexists; split; cycle 1; [split; reflexivity | reflexivity]. }
  destruct (fault E (CallEncode outFile)).
  { eexists; split; cycle 1; [split; reflexivity | reflexivity]. }
  eexists; split; cycle 1; [split; [reflexivity |] | reflexivity].
  apply insert_insert_eq.
Qed.

(** A run that returns [nil] went through its four phases and left the
    result record in the output file. *)
Lemma completed_run (b : Backend) (connStr outFile : string) (s s' : State) :
  benchmark E b connStr outFile s = (Ok tt, s') ->
  exists s1 r0 s2 r1 s3,
    setupOf E b connStr s = (Ok tt, s1) /\
    ingest E (writeOf E b) s1 = (Ok r0, s2) /\
    queriesOf E b r0 s2 = (Ok r1, s3) /\
    Queries r0 = [] /\
    outputs s' !! outFile = Some (Json (setDbType r1 (dbTypeOf b))).
Proof.
  rewrite benchmark_phases. intros H.
  apply bind_Ok in H as ([] & s1 & Hsetup & H).
  apply bind_Ok in H as (r0 & s2 & Hingest & H).
  apply bind_Ok in H as (r1 & s3 & Hqueries & H).
  exists s1, r0, s2, r1, s3. repeat split; try assumption.
  - unfold ingest in Hingest.
    destruct (ingestLoop_frame E _ (writeOf_frame b) (S (size (readings E))) 0 emptyResults 0 s1)
      as (res & s2' & Hrun & _ & _ & Hok).
    rewrite Hingest in Hrun. inversion Hrun; subst.
    destruct (Hok r0 eq_refl) as (_ & Hq). exact Hq.
  - destruct (writeResults_spec (dbTypeOf b) outFile r1 s3) as (s4 & _ & Hw).
    destruct (fault E (CallCreate outFile)); [destruct Hw; congruence |].
    destruct (fault E (CallEncode outFile)); [destruct Hw; congruence |].
    destruct Hw as (Hw & Hout). rewrite H in Hw. inversion Hw; subst.
    rewrite Hout. apply lookup_insert_eq.
Qed.

End Phases.

(** ** The chunk directory and [hasMore] *)

Lemma string_length_app (s1 s2 : string) :
  String.length (s1 +:+ s2) = (String.length s1 + String.length s2)%nat.
Proof.
  induction s1 as [| a s1 IH]; [reflexivity |].
  change (S (String.length (s1 +:+ s2)) = S (String.length s1 + String.length s2)).
  rewrite IH. reflexivity.
Qed.

Lemma string_app_inj_r (s1 s2 t : string) : s1 +:+ t = s2 +:+ t -> s1 = s2.
Proof.
  intros H.
  assert (Hlen : String.length s1 = String.length s2).
  { apply (f_equal String.length) in H. rewrite !string_length_app in H. lia. }
  revert s2 H Hlen. induction s1 as [| a s1 IH]; intros [| b s2] H Hlen;
    try discriminate; [reflexivity |].
  cbn in H, Hlen. inversion H; subst. f_equal. apply IH; [assumption | lia].
Qed.

Lemma chunkName_inj (c c' : Z) : chunkName c = chunkName c' -> c = c'.
Proof.
  unfold chunkName, Itoa. intros H.
  apply String.app_inj in H. apply string_app_inj_r in H.
  apply (inj pretty) in H. exact H.
Qed.

Lemma chunkDir_keys (chunks : list ReadingFile) :
  (imap (fun i data => (chunkName (Z.of_nat i), Decodes data)) chunks).*1 =
  (fun i => chunkName (Z.of_nat i)) <$> seq 0 (length chunks).
Proof.
  rewrite fmap_imap.
  rewrite (imap_ext _ (fun i _ => chunkName (Z.of_nat i))) by reflexivity.
  apply imap_seq_0.
Qed.

Lemma chunkDir_NoDup (chunks : list ReadingFile) :
  NoDup (imap (fun i data => (chunkName (Z.of_nat i), Decodes data)) chunks).*1.
Proof.
  rewrite chunkDir_keys. apply NoDup_fmap_2; [| apply NoDup_seq].
  intros i j H. apply chunkName_inj in H. lia.
Qed.

Lemma chunkDir_size (chunks : list ReadingFile) : size (chunkDir chunks) = length chunks.
Proof.
  unfold chunkDir. rewrite map_size_list_to_map by apply chunkDir_NoDup.
  apply length_imap.
Qed.

Lemma chunkDir_lookup (chunks : list ReadingFile) (i : nat) (data : ReadingFile) :
  chunks !! i = Some data ->
  chunkDir chunks !! chunkName (Z.of_nat i) = Some (Decodes data).
Proof.
  intros H. unfold chunkDir.
  apply elem_of_list_to_map_1; [apply chunkDir_NoDup |].
  apply list_elem_of_lookup. exists i.
  rewrite list_lookup_imap, H. reflexivity.
Qed.

(** In a directory of exactly K chunk files every call for an index below
    K succeeds, and reports [hasMore = false] for the index K-1 only. *)
Lemma loadDataChunk_chunkDir (E : Env) (chunks : list ReadingFile) (i : nat)
    (data : ReadingFile) (s : State) :
  readings E = chunkDir chunks -> readdir_error E = None ->
  Z.of_nat (length chunks) <= maxInt64 ->
  chunks !! i = Some data ->
  exists s',
    loadDataChunk E (Z.of_nat i) s =
    ((negb (Nat.eqb i (length chunks - 1)), data, None), s').
Proof.
  intros Hdir Hread Hfit Hi.
  pose proof (lookup_lt_Some _ _ _ Hi) as Hlt.
  unfold loadDataChunk. rewrite len_dir, Hdir, (chunkDir_lookup _ _ _ Hi), Hread.
  rewrite chunkDir_size.
  unfold add64. rewrite wrap64_fits by (unfold fits64, minInt64, maxInt64 in *; lia).
  destruct (Nat.eqb_spec i (length chunks - 1)) as [-> | Hne]; cbn [negb].
  + replace (Z.of_nat (length chunks - 1) + 1 <? Z.of_nat (length chunks)) with false
      by (symmetry; apply Z.ltb_ge; lia).
    eexists; reflexivity.
  + replace (Z.of_nat i + 1 <? Z.of_nat (length chunks)) with true
      by (symmetry; apply Z.ltb_lt; lia).
    eexists; reflexivity.
Qed.


(** ** The twenty entries of a run *)

Section Entries.

Variable E : Env.

Lemma entryOf_sql (b : Backend) (id : Z) (desc : string) (pre : list (Derived * Time))
    (args : list Arg) (rows : bool) (q : QueryResult) :
  runsQuery b id = true ->
  entryOf E (StepSql id desc pre args rows) q -> entryFor b id q.
Proof.
  intros Hb (Hid & _ & Hd). unfold entryFor. rewrite Hb.
  repeat split; auto. destruct b; auto.
Qed.

Lemma entryOf_sentinel (id : Z) (desc : string) (q : QueryResult) :
  runsQuery Postgres id = false ->
  entryOf E (StepSentinel id desc) q -> entryFor Postgres id q.
Proof.
  intros Hb (Hid & _ & Hd). unfold entryFor. rewrite Hb. repeat split; auto.
Qed.

Lemma entryOf_flux (id : Z) (desc : string) (pre : list (Derived * Time))
    (args : list Arg) (q : QueryResult) :
  entryOf E (StepFlux id desc pre args) q -> entryFor InfluxDB id q.
Proof.
  intros (Hid & _ & Hd). unfold entryFor. repeat split; auto.
  destruct (fault E (CallQuery id 0)); auto.
Qed.

Lemma entryOf_fluxBounds (q : QueryResult) :
  entryOf E StepFluxBounds q -> entryFor InfluxDB 1 q.
Proof.
  intros (Hid & _ & Hd). unfold entryFor. repeat split; auto.
  destruct (fluxBoundsFailed E); auto.
Qed.

Local Ltac entries H :=
  repeat match type of H with
    | Forall2 _ (_ :: _) _ =>
        let q := fresh "q" in
        let Hq := fresh "Hq" in
        apply Forall2_cons_inv_l in H as (q & ? & Hq & H & ->)
    | Forall2 _ [] _ => apply Forall2_nil_inv_l in H as ->
    end.

Local Ltac entry :=
  first [ eapply entryOf_sql; [reflexivity | eassumption]
        | eapply entryOf_sentinel; [reflexivity | eassumption]
        | eapply entryOf_flux; eassumption
        | eapply entryOf_fluxBounds; eassumption ].

(** The blocks of every adapter record the identifiers 1 to 20, in this
    order, each once. *)
Lemma plan_entries (b : Backend) (qs : list QueryResult) :
  Forall2 (entryOf E) (List.filter records (planOf E b)) qs ->
  Forall2 (entryFor b) allQueryIds qs.
Proof.
  intros H.
  destruct b; cbn [planOf] in H;
    unfold planPostgres, planSql, planQuestDb, planInfluxDB in H;
    match type of H with
    | context [time_bounds E] => destruct (time_bounds E) as [minTime maxTime]
    | context [influxBounds E] => destruct (influxBounds E) as [minTime maxTime]
    end;
    cbn [List.filter records step7 step8] in H;
    entries H; unfold allQueryIds;
    repeat (constructor; [entry |]); constructor.
Qed.

End Entries.

Lemma Forall2_ids (b : Backend) (ids : list Z) (qs : list QueryResult) :
  Forall2 (entryFor b) ids qs -> map QueryId qs = ids.
Proof.
  induction 1 as [| id q ids qs (Hid & _) _ IH]; cbn; [reflexivity |].
  rewrite Hid, IH. reflexivity.
Qed.

(** A run that returns [nil] has left the twenty entries in the output
    file, each as its block recorded it. *)
Lemma completed_entries (E : Env) (b : Backend) (connStr outFile : string) (s s' : State) :
  benchmark E b connStr outFile s = (Ok tt, s') ->
  exists r,
    outputs s' !! outFile = Some (Json r) /\
    DbType r = dbTypeOf b /\
    Forall2 (entryFor b) allQueryIds (Queries r).
Proof.
  intros H.
  apply completed_run in H as (s1 & r0 & s2 & r1 & s3 & _ & _ & Hq & Hr0 & Hout).
  exists (setDbType r1 (dbTypeOf b)). split; [exact Hout |]. split; [reflexivity |].
  rewrite queriesOf_plan in Hq.
  apply runSteps_Ok in Hq as (_ & _ & _ & _ & _ & _ & qs & Hqs & Hall).
  cbn [setDbType Queries]. rewrite Hqs, Hr0. cbn [app].
  apply plan_entries with (E := E). exact Hall.
Qed.

Lemma allQueryIds_sorted : StronglySorted Z.lt allQueryIds.
Proof. unfold allQueryIds. repeat (constructor; [| repeat constructor; lia]). constructor. Qed.

Lemma allQueryIds_nodup : NoDup allQueryIds.
Proof. apply (bool_decide_unpack (NoDup allQueryIds)). vm_compute. exact I. Qed.

(** C1: every completed run of a backend benchmark function leaves exactly
    twenty query entries whose identifiers are 1, 2, ..., 20 in this order
    (hence strictly increasing, without duplicate and without gap); each
    carries either the sentinel duration or a duration that is not
    negative. *)
Theorem queries_complete (E : Env) (b : Backend) (connStr outFile : string) (s s' : State) :
  benchmark E b connStr outFile s = (Ok tt, s') ->
  exists r,
    outputs s' !! outFile = Some (Json r) /\
    length (Queries r) = 20%nat /\
    map QueryId (Queries r) = allQueryIds /\
    StronglySorted Z.lt (map QueryId (Queries r)) /\
    NoDup (map QueryId (Queries r)) /\
    Forall (fun q => DurationMs q = sentinel \/ 0 <= DurationMs q) (Queries r).
Proof.
  intros H. apply completed_entries in H as (r & Hout & _ & Hall).
  exists r. split; [exact Hout |].
  pose proof (Forall2_ids _ _ _ Hall) as Hids.
  split; [| split; [exact Hids | split; [| split]]].
  - rewrite <- (length_map QueryId), Hids. reflexivity.
  - rewrite Hids. apply allQueryIds_sorted.
  - rewrite Hids. apply allQueryIds_nodup.
  - clear Hids. induction Hall as [| id q ids qs (_ & Hd & _) _ IH]; constructor; assumption.
Qed.

Lemma queries_complete_witness :
  exists r,
    outputs (snd (benchmark quietEnv Postgres "postgres://bench" "out.json" freshState))
      !! "out.json" = Some (Json r) /\
    map QueryId (Queries r) = allQueryIds.
Proof.
  destruct (queries_complete quietEnv Postgres "postgres://bench" "out.json" freshState
              (snd (benchmark quietEnv Postgres "postgres://bench" "out.json" freshState)))
    as (r & Hout & _ & Hids & _).
  - vm_compute. reflexivity.
  - exists r. split; assumption.
Defined.

(** ** Errors of query calls *)

Section QueryErrors.

Variable E : Env.

Lemma connect_frame (api : Api) (url : string) (s : State) :
  outputs (snd (connect E api url s)) = outputs s /\
  catalog (snd (connect E api url s)) = catalog s.
Proof.
  cbv [connect bind emit try_call tick ret check fail opensPool newPool].
  destruct api, (fault E (CallConnect _ url)); split; reflexivity.
Qed.

Lemma db_Exec_frame (stmts : list Stmt) (s : State) :
  outputs (snd (db_Exec E stmts s)) = outputs s.
Proof.
  cbv [db_Exec bind emit try_call tick ret check fail clock catalog outputs trace].
  destruct (fault E (CallExec stmts)); [reflexivity |].
  destruct (execStmts _ stmts); reflexivity.
Qed.

Lemma bind_outputs {A B} (m : M A) (f : A -> M B) (s : State) :
  outputs (snd (m s)) = outputs s ->
  (forall a s1, outputs (snd (f a s1)) = outputs s1) ->
  outputs (snd (bind m f s)) = outputs s.
Proof.
  intros Hm Hf. unfold bind. destruct (m s) as [[a | e | |] s1]; cbn [snd] in *; try assumption.
  rewrite Hf. assumption.
Qed.

(** Connecting and creating the schema do not touch the output files. *)
Lemma setupOf_outputs (b : Backend) (connStr : string) (s : State) :
  outputs (snd (setupOf E b connStr s)) = outputs s.
Proof.
  destruct b; cbn [setupOf]; try reflexivity;
    try (apply bind_outputs; [apply connect_frame | intros; apply db_Exec_frame]).
  destruct (Split connStr ":::") as [| a [| b [| c l]]]; try reflexivity.
  apply bind_outputs; [apply connect_frame | intros; apply connect_frame].
Qed.

Lemma ingest_outputs (b : Backend) (s : State) :
  outputs (snd (ingest E (writeOf E b) s)) = outputs s.
Proof.
  unfold ingest.
  destruct (ingestLoop_frame E _ (writeOf_frame E b) (S (size (readings E))) 0 emptyResults 0 s)
    as (res & s' & Hrun & Ho & _).
  rewrite Hrun. exact Ho.
Qed.

Lemma queriesOf_outputs (b : Backend) (r : BenchmarkResults) (s : State) :
  outputs (snd (queriesOf E b r s)) = outputs s.
Proof.
  rewrite queriesOf_plan.
  destruct (runSteps_spec E (planOf E b) r s) as (s' & _ & Ho & _ & Hrun).
  destruct (planOutcome E (held s) (planOf E b)); try (rewrite Hrun; exact Ho).
  destruct Hrun as (_ & r' & qs & Hrun & _). rewrite Hrun. exact Ho.
Qed.

(** ** The connection pool *)

Lemma keepsPool_bind {A B} (m : M A) (f : A -> M B) :
  keepsPool m -> (forall a, keepsPool (f a)) -> keepsPool (bind m f).
Proof.
  intros Hm Hf s. unfold bind. specialize (Hm s).
  destruct (m s) as [[a | e | |] s1]; cbn [snd] in *; try assumption.
  rewrite Hf. assumption.
Qed.

Lemma keepsPool_db_Write (chunk : Z) (op : WriteOp) (rows : list Row) :
  keepsPool (db_Write E chunk op rows).
Proof.
  intros s. cbv [db_Write bind emit try_call tick ret check fail].
  destruct (fault E (CallWrite chunk op)); reflexivity.
Qed.

Lemma keepsPool_db_Write_noerr (chunk : Z) (op : WriteOp) (rows : list Row) :
  keepsPool (db_Write_noerr E chunk op rows).
Proof. intros s. reflexivity. Qed.

Lemma keepsPool_forRange (body : nat -> Reading -> M unit) (i : nat) (l : list Reading) :
  (forall i reading, keepsPool (body i reading)) -> keepsPool (forRange body i l).
Proof.
  intros Hbody. revert i. induction l as [| reading l IH]; intros i; [intros s; reflexivity |].
  cbn [forRange]. apply keepsPool_bind; [apply Hbody | intros _; apply IH].
Qed.

Lemma keepsPool_writeOf (b : Backend) (n chunk : Z) (data : ReadingFile) :
  keepsPool (writeOf E b n chunk data).
Proof.
  destruct b; cbn [writeOf];
    unfold writeCopyFrom, writeLineSender, writeInflux, writeBatch, writeTx;
    repeat first [ apply keepsPool_db_Write | apply keepsPool_db_Write_noerr
                 | apply keepsPool_bind | apply keepsPool_forRange | intros ].
Qed.

Lemma loadDataChunk_pool (c : Z) (s : State) : held (snd (loadDataChunk E c s)) = held s.
Proof.
  unfold loadDataChunk.
  destruct (readings E !! chunkName c) as [[data | e | e] |]; cbn; auto.
  destruct (readdir_error E); cbn; auto.
  destruct (add64 c 1 <? _); cbn; auto.
Qed.

Lemma keepsPool_ingestLoop (write : Z -> Z -> ReadingFile -> M unit) (fuel : nat) (c : Z)
    (r : BenchmarkResults) (n : Z) :
  (forall n c data, keepsPool (write n c data)) -> keepsPool (ingestLoop E write fuel c r n).
Proof.
  intros Hw. revert c r n. induction fuel as [| fuel IH]; intros c r n s; [reflexivity |].
  pose proof (ingestLoop_step E write fuel c r n s) as Hstep.
  pose proof (loadDataChunk_pool c s) as Hload.
  destruct (loadDataChunk E c s) as [[[hasNext data] [e |]] s1]; cbn [snd] in Hload.
  { rewrite Hstep. exact Hload. }
  pose proof (Hw n c data s1) as Hw1.
  destruct (write n c data s1) as [[[] | e | |] s2]; cbn [snd] in Hw1;
    try (rewrite Hstep; cbn [snd]; congruence).
  cbv zeta in Hstep. rewrite Hstep.
  destruct hasNext; cbn [negb snd]; [| congruence].
  rewrite IH. congruence.
Qed.

(** What the setup step does to the pool: it builds it. *)
Lemma setupOf_pool (b : Backend) (connStr : string) (s s1 : State) :
  b <> InfluxDB -> setupOf E b connStr s = (Ok tt, s1) -> held s1 = 0%nat.
Proof.
  intros Hb Hsetup.
  destruct b; try congruence; cbn [setupOf] in Hsetup;
    try (cbv [connect db_Exec bind emit try_call tick ret check fail opensPool newPool
              clock catalog outputs trace held] in Hsetup;
         destruct (fault E (CallConnect _ connStr)); [discriminate |];
         destruct (fault E (CallExec _)); [discriminate |];
         destruct (execStmts _ _); inversion Hsetup; reflexivity).
  destruct (Split connStr ":::") as [| a [| a' [| c l]]]; try discriminate.
  cbv [connect bind emit try_call tick ret check fail opensPool newPool
       clock catalog outputs trace held] in Hsetup.
  destruct (fault E (CallConnect LineSenderFromConf a)); [discriminate |].
  destruct (fault E (CallConnect PgxPoolNew a')); inversion Hsetup; reflexivity.
Qed.

(** The pool is idle when the queries start: the setup has built it, and
    the calls of the setup and of the ingestion loop give their connection
    back. *)
Lemma pool_idle (b : Backend) (connStr : string) (s s1 : State) (r0 : BenchmarkResults)
    (s2 : State) :
  b <> InfluxDB ->
  setupOf E b connStr s = (Ok tt, s1) ->
  ingest E (writeOf E b) s1 = (Ok r0, s2) ->
  held s1 = 0%nat /\ held s2 = 0%nat.
Proof.
  intros Hb Hsetup Hingest.
  pose proof (setupOf_pool b connStr s s1 Hb Hsetup) as H1.
  split; [exact H1 |].
  pose proof (keepsPool_ingestLoop (writeOf E b) (S (size (readings E))) 0 emptyResults 0
                (keepsPool_writeOf b) s1) as H2.
  unfold ingest in Hingest. rewrite Hingest in H2. cbn [snd] in H2. congruence.
Qed.

Lemma poolFull_le (n m : nat) : poolFull E n = false -> (m <= n)%nat -> poolFull E m = false.
Proof.
  unfold poolFull. destruct (max_conns E) as [limit |]; [| reflexivity].
  rewrite !Nat.leb_gt. lia.
Qed.

(** The first query call that returns an error decides the outcome of the
    query sequence of a SQL adapter, when the pool has a connection left
    for it. *)
Lemma planOutcome_first (b : Backend) (k : Z) (e : error) :
  b <> InfluxDB ->
  In k allQueryIds -> runsQuery b k = true ->
  fault E (CallQuery k 0) = Some e ->
  (forall j, In j allQueryIds -> runsQuery b j = true -> j < k ->
             fault E (CallQuery j 0) = None) ->
  poolFull E (heldBefore b k) = false ->
  planOutcome E 0 (planOf E b) = Fails e.
Proof.
  intros Hb Hk Hruns Hfault Hbefore Hpool.
  assert (Hnone : forall j, j < k -> In j allQueryIds -> runsQuery b j = true ->
                            fault E (CallQuery j 0) = None) by auto.
  clear Hbefore.
  pose proof (fun m => poolFull_le (heldBefore b k) m Hpool) as Hfree. clear Hpool.
  destruct b; try congruence; cbn [planOf];
    unfold planPostgres, planSql, planQuestDb;
    destruct (time_bounds E) as [minTime maxTime];
    cbn [planOutcome stepOutcome heldAfter step7 step8];
    unfold allQueryIds in Hk; cbn [In] in Hk;
    repeat (destruct Hk as [<- | Hk]; [| ]); try contradiction; try discriminate Hruns;
    repeat match goal with
      | |- context [poolFull E ?m] => rewrite (Hfree m) by (vm_compute; lia)
      | |- context [fault E (CallQuery ?j 0)] =>
          first [ rewrite Hfault
                | rewrite (Hnone j) by (first [lia | cbn; tauto | reflexivity]) ]
      end; reflexivity.
Qed.

(** The query sequence of the InfluxDB adapter takes no connection of a
    pool and has no error to return. *)
Lemma planOutcome_influx (n : nat) : planOutcome E n (planInfluxDB E) = Runs.
Proof. unfold planInfluxDB. destruct (influxBounds E). reflexivity. Qed.

End QueryErrors.

(** The query sequence of the InfluxDB adapter has no error to return. *)
Lemma queriesInfluxDB_total (E : Env) (r : BenchmarkResults) (s : State) :
  exists r' s', queriesInfluxDB E r s = (Ok r', s').
Proof.
  rewrite queriesInfluxDB_plan.
  destruct (runSteps_spec E (planInfluxDB E) r s) as (s' & _ & _ & _ & Hrun).
  rewrite planOutcome_influx in Hrun. destruct Hrun as (_ & r' & qs & Hrun & _). eauto.
Qed.

Section Reported.

Variable E : Env.

Lemma reported_sql (b : Backend) (id : Z) (desc : string) (pre : list (Derived * Time))
    (args : list Arg) (rows : bool) (q : QueryResult) :
  b <> InfluxDB -> runsQuery b id = true ->
  entryOf E (StepSql id desc pre args rows) q -> reported E b id q.
Proof.
  intros Hb Hruns (Hid & _ & Hd). unfold reported. rewrite Hruns.
  split; [exact Hid |]. destruct b; try congruence; exact Hd.
Qed.

Lemma reported_sentinel (id : Z) (desc : string) (q : QueryResult) :
  runsQuery Postgres id = false ->
  entryOf E (StepSentinel id desc) q -> reported E Postgres id q.
Proof.
  intros Hruns (Hid & _ & Hd). unfold reported. rewrite Hruns. split; assumption.
Qed.

Lemma reported_flux (id : Z) (desc : string) (pre : list (Derived * Time))
    (args : list Arg) (q : QueryResult) :
  (id =? 1) = false ->
  entryOf E (StepFlux id desc pre args) q -> reported E InfluxDB id q.
Proof.
  intros Hid1 (Hid & _ & Hd). unfold reported, fluxFailed. rewrite Hid1.
  split; [exact Hid |]. cbn [runsQuery negb orb].
  destruct (fault E (CallQuery id 0)); exact Hd.
Qed.

Lemma reported_fluxBounds (q : QueryResult) :
  entryOf E StepFluxBounds q -> reported E InfluxDB 1 q.
Proof.
  intros (Hid & _ & Hd). unfold reported, fluxFailed.
  split; [exact Hid |]. cbn [runsQuery negb orb Z.eqb Pos.eqb].
  destruct (fluxBoundsFailed E); exact Hd.
Qed.

Local Ltac entries H :=
  repeat match type of H with
    | Forall2 _ (_ :: _) _ =>
        let q := fresh "q" in
        let Hq := fresh "Hq" in
        apply Forall2_cons_inv_l in H as (q & ? & Hq & H & ->)
    | Forall2 _ [] _ => apply Forall2_nil_inv_l in H as ->
    end.

Local Ltac entry :=
  first [ eapply reported_sql; [discriminate | reflexivity | eassumption]
        | eapply reported_sentinel; [reflexivity | eassumption]
        | eapply reported_flux; [reflexivity | eassumption]
        | eapply reported_fluxBounds; eassumption ].

(** The blocks of every adapter record the identifiers 1 to 20, in this
    order, each once and each as [reported] says. *)
Lemma plan_reported (b : Backend) (qs : list QueryResult) :
  Forall2 (entryOf E) (List.filter records (planOf E b)) qs ->
  Forall2 (reported E b) allQueryIds qs.
Proof.
  intros H.
  destruct b; cbn [planOf] in H;
    unfold planPostgres, planSql, planQuestDb, planInfluxDB in H;
    match type of H with
    | context [time_bounds E] => destruct (time_bounds E) as [minTime maxTime]
    | context [influxBounds E] => destruct (influxBounds E) as [minTime maxTime]
    end;
    cbn [List.filter records step7 step8] in H;
    entries H; unfold allQueryIds;
    repeat (constructor; [entry |]); constructor.
Qed.

Lemma Forall2_In_l {A B} (P : A -> B -> Prop) (l1 : list A) (l2 : list B) (x : A) :
  Forall2 P l1 l2 -> In x l1 -> exists y, In y l2 /\ P x y.
Proof.
  induction 1 as [| a b0 l1 l2 Hab _ IH]; intros Hin; [contradiction |].
  destruct Hin as [-> | Hin].
  - exists b0. split; [left; reflexivity | exact Hab].
  - destruct (IH Hin) as (y & Hy & HP). exists y. split; [right; exact Hy | exact HP].
Qed.

End Reported.

(** C4: in the adapters that check the error of a query call (all but
    InfluxDB, which has a sentinel path for every query), the first query
    call that returns an error makes the benchmark function return that
    very error, with no output file touched; the call is made when the
    pool has a connection left for it, that is, when fewer queries before
    it have dropped their rows than the pool has connections.  The output
    file of a completed run holds twenty entries, one per identifier and in
    this order: the entry of an identifier the adapter has no query for
    (PostgreSQL: 8, 14, 17, 18, 19, 20) carries the sentinel -1, the entry
    of a query of the InfluxDB adapter whose call returned an error
    carries the sentinel -1, and every other entry carries a measured
    duration, which is not negative.  The query sequence of the InfluxDB
    adapter never aborts. *)
Theorem query_failure_aborts_or_sentinel (E : Env) :
  (forall b connStr outFile s s1 r0 s2 k e,
     b <> InfluxDB ->
     setupOf E b connStr s = (Ok tt, s1) ->
     ingest E (writeOf E b) s1 = (Ok r0, s2) ->
     In k allQueryIds -> runsQuery b k = true ->
     fault E (CallQuery k 0) = Some e ->
     (forall j, In j allQueryIds -> runsQuery b j = true -> j < k ->
                fault E (CallQuery j 0) = None) ->
     poolFull E (heldBefore b k) = false ->
     exists s', benchmark E b connStr outFile s = (Err e, s') /\ outputs s' = outputs s) /\
  (forall b connStr outFile s s',
     benchmark E b connStr outFile s = (Ok tt, s') ->
     exists r,
       outputs s' !! outFile = Some (Json r) /\
       Forall2 (reported E b) allQueryIds (Queries r)) /\
  (forall connStr outFile s s',
     benchmark E Postgres connStr outFile s = (Ok tt, s') ->
     exists r,
       outputs s' !! outFile = Some (Json r) /\
       forall id, In id postgresUnsupported ->
                  exists q, In q (Queries r) /\ QueryId q = id /\ DurationMs q = sentinel) /\
  (forall id, runsQuery Postgres id = false <-> In id postgresUnsupported) /\
  (forall r s, exists r' s' qs,
     queriesInfluxDB E r s = (Ok r', s') /\
     Queries r' = Queries r ++ qs /\
     Forall2 (reported E InfluxDB) allQueryIds qs).
Proof.
  assert (Hunsupported : forall id, runsQuery Postgres id = false <-> In id postgresUnsupported).
  { intros id. unfold runsQuery, postgresUnsupported. cbn [existsb In].
    rewrite Bool.negb_false_iff, !Bool.orb_true_iff, !Z.eqb_eq.
    intuition (try discriminate; auto). }
  assert (Hcompleted : forall b connStr outFile s s',
            benchmark E b connStr outFile s = (Ok tt, s') ->
            exists r, outputs s' !! outFile = Some (Json r) /\
                      Forall2 (reported E b) allQueryIds (Queries r)).
  { intros b connStr outFile s s' H.
    apply completed_run in H as (s1 & r0 & s2 & r1 & s3 & _ & _ & Hq & Hr0 & Hout).
    exists (setDbType r1 (dbTypeOf b)). split; [exact Hout |].
    rewrite queriesOf_plan in Hq.
    apply runSteps_Ok in Hq as (_ & _ & _ & _ & _ & _ & qs & Hqs & Hall).
    cbn [setDbType Queries]. rewrite Hqs, Hr0. cbn [app].
    apply plan_reported, Hall. }
  split; [| split; [exact Hcompleted | split; [| split; [exact Hunsupported |]]]].
  - intros b connStr outFile s s1 r0 s2 k e Hb Hsetup Hingest Hk Hruns Hfault Hbefore Hpool.
    pose proof (planOutcome_first E b k e Hb Hk Hruns Hfault Hbefore Hpool) as Hplan.
    destruct (pool_idle E b connStr s s1 r0 s2 Hb Hsetup Hingest) as (_ & Hidle).
    destruct (runSteps_spec E (planOf E b) r0 s2) as (s3 & _ & Ho & _ & Hrun).
    rewrite Hidle, Hplan in Hrun.
    exists s3. split.
    + rewrite benchmark_phases.
      rewrite (bind_Ok_l _ _ _ _ _ Hsetup), (bind_Ok_l _ _ _ _ _ Hingest).
      apply bind_Err_l. rewrite queriesOf_plan. exact Hrun.
    + rewrite Ho.
      pose proof (ingest_outputs E b s1) as Hi. rewrite Hingest in Hi. cbn [snd] in Hi.
      pose proof (setupOf_outputs E b connStr s) as Hs. rewrite Hsetup in Hs. cbn [snd] in Hs.
      congruence.
  - intros connStr outFile s s' H.
    destruct (Hcompleted Postgres connStr outFile s s' H) as (r & Hout & Hall).
    exists r. split; [exact Hout |].
    intros id Hid.
    assert (Hin : In id allQueryIds).
    { unfold postgresUnsupported, allQueryIds in *. cbn [In] in *. intuition auto. }
    destruct (Forall2_In_l _ _ _ _ Hall Hin) as (q & Hq & Hqid & Hd).
    exists q. split; [exact Hq |]. split; [exact Hqid |].
    apply Hunsupported in Hid. rewrite Hid in Hd. exact Hd.
  - intros r s. rewrite queriesInfluxDB_plan.
    destruct (runSteps_spec E (planInfluxDB E) r s) as (s' & _ & _ & _ & Hrun).
    rewrite planOutcome_influx in Hrun.
    destruct Hrun as (_ & r' & qs & Hrun & _ & _ & Hqs & Hall).
    exists r', s', qs. split; [exact Hrun |]. split; [exact Hqs |].
    apply (plan_reported E InfluxDB), Hall.
Qed.

Lemma query_failure_aborts_or_sentinel_witness :
  exists s',
    benchmark brokenQueryEnv Postgres "postgres://bench" "out.json" freshState
      = (Err "unexpected EOF", s') /\
    outputs s' = outputs freshState.
Proof.
  pose (s1 := snd (setupOf brokenQueryEnv Postgres "postgres://bench" freshState)).
  pose (run := ingest brokenQueryEnv (writeOf brokenQueryEnv Postgres) s1).
  apply (proj1 (query_failure_aborts_or_sentinel brokenQueryEnv)
           Postgres "postgres://bench" "out.json" freshState s1 (match fst run with
                                                                 | Ok r => r
                                                                 | _ => emptyResults
                                                                 end)
           (snd run) 3 "unexpected EOF").
  - discriminate.
  - vm_compute. reflexivity.
  - vm_compute. reflexivity.
  - cbn. tauto.
  - reflexivity.
  - reflexivity.
  - intros j Hj _ Hlt. cbn [allQueryIds In] in Hj.
    repeat (destruct Hj as [<- | Hj]; [first [reflexivity | lia] |]). contradiction.
  - reflexivity.
Defined.

(** ** The ingestion samples *)

Lemma queriesOf_ingestion (E : Env) (b : Backend) (r r' : BenchmarkResults) (s s' : State) :
  queriesOf E b r s = (Ok r', s') -> Ingestion r' = Ingestion r.
Proof.
  rewrite queriesOf_plan. intros H.
  apply runSteps_Ok in H as (_ & _ & _ & _ & _ & Hing & _). exact Hing.
Qed.

Lemma ingest_counts (E : Env) (b : Backend) (r : BenchmarkResults) (s s' : State) :
  dirFits E ->
  ingest E (writeOf E b) s = (Ok r, s') ->
  cumulativeCounts E (map NRecords (Ingestion r)).
Proof.
  unfold dirFits, ingest. intros Hfit H.
  apply (ingestLoop_counts E) in H as (k & Hk & H); [| lia | lia].
  cbn [emptyResults Ingestion map app] in H.
  apply (running_counts E _ k Hk H).
Qed.

(** The loop over a directory of exactly K chunk files makes one pass per
    chunk. *)
Lemma ingestLoop_passes (E : Env) (write : Z -> Z -> ReadingFile -> M unit)
    (chunks : list ReadingFile) (fuel i : nat) (r r' : BenchmarkResults) (n : Z)
    (s s' : State) :
  readings E = chunkDir chunks -> readdir_error E = None ->
  Z.of_nat (length chunks) < maxInt64 ->
  (i < length chunks)%nat ->
  ingestLoop E write fuel (Z.of_nat i) r n s = (Ok r', s') ->
  length (Ingestion r') = (length (Ingestion r) + (length chunks - i))%nat.
Proof.
  intros Hdir Hread Hfit. revert i r n s.
  induction fuel as [| fuel IH]; intros i r n s Hi Hrun; [discriminate |].
  pose proof (ingestLoop_step E write fuel (Z.of_nat i) r n s) as Hstep.
  destruct (lookup_lt_is_Some_2 chunks i Hi) as (data & Hdata).
  destruct (loadDataChunk_chunkDir E chunks i data s Hdir Hread ltac:(lia) Hdata)
    as (s1 & Hload).
  rewrite Hload in Hstep.
  destruct (write n (Z.of_nat i) data s1) as [[[] | e | |] s2];
    [| congruence | congruence | congruence].
  cbv zeta in Hstep. rewrite Hstep in Hrun. clear Hstep.
  rewrite Bool.negb_involutive in Hrun.
  destruct (Nat.eqb_spec i (length chunks - 1)) as [-> | Hne].
  - inversion Hrun; subst. cbn [appendIngestion Ingestion].
    rewrite length_app. cbn [length]. lia.
  - assert (Hnext : add64 (Z.of_nat i) 1 = Z.of_nat (S i)).
    { unfold add64. rewrite wrap64_fits; unfold fits64, minInt64, maxInt64 in *; lia. }
    rewrite Hnext in Hrun. apply IH in Hrun; [| lia].
    rewrite Hrun. cbn [appendIngestion Ingestion]. rewrite length_app. cbn [length]. lia.
Qed.

Lemma chunkDir_chunkSize (E : Env) (chunks : list ReadingFile) (i : nat) (data : ReadingFile) :
  readings E = chunkDir chunks -> chunks !! i = Some data ->
  chunkSize E (Z.of_nat i) = len (Response data).
Proof.
  intros Hdir Hi. apply chunkSize_ok. rewrite Hdir. apply chunkDir_lookup, Hi.
Qed.

Lemma ingest_passes (E : Env) (b : Backend) (chunks : list ReadingFile)
    (r : BenchmarkResults) (s s' : State) :
  readings E = chunkDir chunks -> readdir_error E = None ->
  Z.of_nat (length chunks) < maxInt64 ->
  ingest E (writeOf E b) s = (Ok r, s') ->
  length (Ingestion r) = length chunks.
Proof.
  intros Hdir Hread Hfit Hrun. unfold ingest in Hrun.
  destruct chunks as [| c0 chunks'] eqn:Hc.
  - (* an empty directory has no chunk 0 *)
    exfalso. cbn [ingestLoop] in Hrun.
    unfold loadDataChunk in Hrun. rewrite Hdir in Hrun.
    cbn in Hrun. discriminate.
  - rewrite <- Hc in *.
    apply (ingestLoop_passes E _ chunks _ 0%nat) in Hrun; try assumption.
    + cbn [emptyResults Ingestion length] in Hrun. lia.
    + rewrite Hc. cbn. lia.
Qed.

(** C7: the count of the i-th ingestion sample is the sum of the sizes of
    the chunks 0 to i (computed in [int] arithmetic); when the total fits an
    [int] the counts are these sums themselves, they never decrease, and the
    last one is the sum of the sizes of the chunks read.  This holds of the
    samples the loop hands on, and of those in the output file of a
    completed run.  Over a directory of exactly K chunk files there are K
    samples, one per chunk, so that the last count is the sum of all chunk
    sizes. *)
Theorem ingestion_counts_cumulative (E : Env) (b : Backend) :
  dirFits E ->
  (forall s r s',
     ingest E (writeOf E b) s = (Ok r, s') ->
     cumulativeCounts E (map NRecords (Ingestion r))) /\
  (forall connStr outFile s s',
     benchmark E b connStr outFile s = (Ok tt, s') ->
     exists r,
       outputs s' !! outFile = Some (Json r) /\
       cumulativeCounts E (map NRecords (Ingestion r))) /\
  (forall chunks s r s',
     readings E = chunkDir chunks -> readdir_error E = None ->
     ingest E (writeOf E b) s = (Ok r, s') ->
     length (Ingestion r) = length chunks /\
     forall i data, chunks !! i = Some data ->
                    chunkSize E (Z.of_nat i) = len (Response data)).
Proof.
  intros Hfit. split; [| split].
  - intros s r s'. apply ingest_counts, Hfit.
  - intros connStr outFile s s' H.
    apply completed_run in H as (s1 & r0 & s2 & r1 & s3 & _ & Hingest & Hq & _ & Hout).
    exists (setDbType r1 (dbTypeOf b)). split; [exact Hout |].
    cbn [setDbType Ingestion]. rewrite (queriesOf_ingestion _ _ _ _ _ _ Hq).
    eapply ingest_counts; eassumption.
  - intros chunks s r s' Hdir Hread Hrun. split.
    + eapply ingest_passes; try eassumption.
      unfold dirFits in Hfit. rewrite Hdir, chunkDir_size in Hfit. exact Hfit.
    + intros i data Hi. eapply chunkDir_chunkSize; eassumption.
Qed.

Lemma ingestion_counts_cumulative_witness :
  dirFits quietEnv /\
  exists r,
    outputs (snd (benchmark quietEnv Postgres "postgres://bench" "out.json" freshState))
      !! "out.json" = Some (Json r) /\
    cumulativeCounts quietEnv (map NRecords (Ingestion r)) /\
    map NRecords (Ingestion r) = [3; 5].
Proof.
  assert (Hfit : dirFits quietEnv) by (vm_compute; reflexivity).
  split; [exact Hfit |].
  destruct (proj1 (proj2 (ingestion_counts_cumulative quietEnv Postgres Hfit))
              "postgres://bench" "out.json" freshState
              (snd (benchmark quietEnv Postgres "postgres://bench" "out.json" freshState)))
    as (r & Hout & Hcounts).
  - vm_compute. reflexivity.
  - exists r. split; [exact Hout |]. split; [exact Hcounts |].
    vm_compute in Hout. inversion Hout. reflexivity.
Defined.

(** ** Failures during ingestion *)

(** The loop of [ingest] does not run out of passes. *)
Lemma ingest_terminates (E : Env) (b : Backend) (s : State) :
  dirFits E -> fst (ingest E (writeOf E b) s) <> OutOfFuel.
Proof.
  unfold dirFits, ingest. intros Hfit.
  apply ingestLoop_fuel; [apply writeOf_frame | lia | lia | lia | lia].
Qed.

(** C8, as stated, fails for the InfluxDB adapter: the backend rejects every
    write of the first chunk, and the benchmark function returns [nil] and
    writes the output file. *)
Lemma rejected_write_influx_continues :
  firstFault rejectingWritesEnv 0
    (writeOps InfluxDB (List.hd (mkReadingFile []) twoChunks)) = Some "unauthorized access" /\
  fst (benchmark rejectingWritesEnv InfluxDB "" "out.json" freshState) = Ok tt /\
  exists r,
    outputs (snd (benchmark rejectingWritesEnv InfluxDB "" "out.json" freshState))
      !! "out.json" = Some (Json r) /\
    map NRecords (Ingestion r) = [3; 5].
Proof.
  split; [reflexivity |]. split; [vm_compute; reflexivity |].
  eexists. split; [vm_compute; reflexivity |]. reflexivity.
Qed.

(** C8, amended: in every adapter a chunk that cannot be read or decoded
    makes the loop, and with it the benchmark function, return that error at
    once; in the adapters whose write calls return an error (all but
    InfluxDB) so does the first write call the backend rejects; a benchmark
    function that returns an error of the ingestion loop has not touched any
    output file. *)
Theorem ingestion_failure_aborts (E : Env) (b : Backend) :
  (forall fuel c r n s hasNext data e s1,
     loadDataChunk E c s = ((hasNext, data, Some e), s1) ->
     ingestLoop E (writeOf E b) (S fuel) c r n s = (Err e, s1)) /\
  (b <> InfluxDB ->
   forall fuel c r n s hasNext data e s1,
     loadDataChunk E c s = ((hasNext, data, None), s1) ->
     firstFault E c (writeOps b data) = Some e ->
     exists s2, ingestLoop E (writeOf E b) (S fuel) c r n s = (Err e, s2)) /\
  (forall connStr outFile s s1 e s2,
     setupOf E b connStr s = (Ok tt, s1) ->
     ingest E (writeOf E b) s1 = (Err e, s2) ->
     benchmark E b connStr outFile s = (Err e, s2) /\ outputs s2 = outputs s).
Proof.
  split; [| split].
  - intros fuel c r n s hasNext data e s1 Hload.
    pose proof (ingestLoop_step E (writeOf E b) fuel c r n s) as Hstep.
    rewrite Hload in Hstep. exact Hstep.
  - intros Hb fuel c r n s hasNext data e s1 Hload Hfault.
    pose proof (ingestLoop_step E (writeOf E b) fuel c r n s) as Hstep.
    rewrite Hload in Hstep.
    destruct (writeOf_spec E b n c data s1) as (s2 & _ & _ & Hw).
    rewrite Hw in Hstep. exists s2.
    destruct b; try congruence; rewrite Hfault in Hstep; exact Hstep.
  - intros connStr outFile s s1 e s2 Hsetup Hingest. split.
    + rewrite benchmark_phases, (bind_Ok_l _ _ _ _ _ Hsetup).
      apply bind_Err_l, Hingest.
    + pose proof (ingest_outputs E b s1) as Hi. rewrite Hingest in Hi. cbn [snd] in Hi.
      pose proof (setupOf_outputs E b connStr s) as Hs. rewrite Hsetup in Hs. cbn [snd] in Hs.
      congruence.
Qed.

Lemma ingestion_failure_aborts_witness :
  exists s2,
    benchmark malformedChunkEnv CrateDB "postgres://crate" "out.json" freshState
      = (Err "unexpected EOF", s2) /\
    outputs s2 = outputs freshState.
Proof.
  pose (s1 := snd (setupOf malformedChunkEnv CrateDB "postgres://crate" freshState)).
  pose (s2 := snd (ingest malformedChunkEnv (writeOf malformedChunkEnv CrateDB) s1)).
  exists s2.
  apply (proj2 (proj2 (ingestion_failure_aborts malformedChunkEnv CrateDB))
           "postgres://crate" "out.json" freshState s1 "unexpected EOF" s2).
  - vm_compute. reflexivity.
  - vm_compute. reflexivity.
Defined.

(** C6: a call of [loadDataChunk] that returns no error reports [hasMore]
    exactly when [index+1] (an [int] sum, the plain sum when [index] is not
    the largest [int]) is below the number of entries of the chunk
    directory; for a directory of exactly K chunk files 0..K-1 every call
    for an index below K succeeds, and it reports [hasMore = false] for the
    index K-1 and for no index before. *)
Theorem hasMore_by_directory_count (E : Env) :
  (forall index s hasMore data s',
     loadDataChunk E index s = ((hasMore, data, None), s') ->
     (hasMore = true <-> add64 index 1 < Z.of_nat (size (readings E))) /\
     (minInt64 <= index < maxInt64 ->
      (hasMore = true <-> index + 1 < Z.of_nat (size (readings E))))) /\
  (forall chunks,
     readings E = chunkDir chunks -> readdir_error E = None ->
     Z.of_nat (length chunks) <= maxInt64 ->
     forall i data, chunks !! i = Some data ->
     forall s, exists s',
       loadDataChunk E (Z.of_nat i) s =
       ((negb (Nat.eqb i (length chunks - 1)), data, None), s')).
Proof.
  split.
  - intros index s hasMore data s' H.
    apply loadDataChunk_ok in H as (_ & _ & ->).
    split; [apply Z.ltb_lt |].
    intros Hi. unfold add64. rewrite wrap64_fits by (unfold fits64 in *; lia).
    apply Z.ltb_lt.
  - intros chunks Hdir Hread Hfit i data Hi s.
    apply loadDataChunk_chunkDir; assumption.
Qed.

Lemma hasMore_by_directory_count_witness :
  (exists s', loadDataChunk quietEnv 0 freshState
              = ((true, List.nth 0 twoChunks (mkReadingFile []), None), s')) /\
  (exists s', loadDataChunk quietEnv 1 freshState
              = ((false, List.nth 1 twoChunks (mkReadingFile []), None), s')) /\
  (true = true <-> 0 + 1 < Z.of_nat (size (readings quietEnv))).
Proof.
  pose proof (hasMore_by_directory_count quietEnv) as [Hcall Hdir].
  split; [| split].
  - apply (Hdir twoChunks eq_refl eq_refl ltac:(vm_compute; discriminate) 0%nat _ eq_refl).
  - apply (Hdir twoChunks eq_refl eq_refl ltac:(vm_compute; discriminate) 1%nat _ eq_refl).
  - eapply (proj2 (Hcall 0 freshState true _ _ ltac:(vm_compute; reflexivity))).
    vm_compute. split; [discriminate | reflexivity].
Defined.

(** ** [strings.Split] *)

Lemma substring_all (s : string) : substring 0 (String.length s) s = s.
Proof. induction s as [| a s IH]; cbn; [reflexivity | rewrite IH; reflexivity]. Qed.

Lemma string_app_cons (a : Ascii.ascii) (s t : string) :
  String a s +:+ t = String a (s +:+ t).
Proof. reflexivity. Qed.

Lemma prefix_app (p s : string) :
  String.prefix p s = true ->
  s = p +:+ substring (String.length p) (String.length s - String.length p) s.
Proof.
  revert s. induction p as [| a p IH]; intros s H.
  - cbn. rewrite Nat.sub_0_r, substring_all. reflexivity.
  - destruct s as [| b s]; [discriminate |]. cbn in H.
    destruct (Ascii.ascii_dec a b) as [-> | Hne]; [| discriminate].
    cbn [String.length substring Nat.sub]. rewrite string_app_cons.
    f_equal. apply IH, H.
Qed.

(** Cutting at the first occurrence of the separator loses nothing. *)
Lemma Index_cut (sep s : string) (m : nat) :
  Index s sep = Some m ->
  s = substring 0 m s +:+ sep +:+
      substring (m + String.length sep) (String.length s - (m + String.length sep)) s.
Proof.
  revert m. induction s as [| a s IH]; intros m.
  - cbn [Index]. destruct (String.prefix sep "") eqn:Hp.
    + intros [= <-]. destruct sep; [reflexivity | discriminate].
    + discriminate.
  - cbn [Index]. destruct (String.prefix sep (String a s)) eqn:Hp.
    + intros [= <-]. cbn [substring Nat.add]. apply prefix_app in Hp. exact Hp.
    + destruct (Index s sep) as [m' |]; [| discriminate].
      intros [= <-]. cbn [substring String.length Nat.add Nat.sub].
      rewrite string_app_cons. f_equal. apply IH. reflexivity.
Qed.

Lemma Join_cons (x : string) (l : list string) (sep : string) :
  l <> [] -> Join (x :: l) sep = x +:+ sep +:+ Join l sep.
Proof. destruct l; [congruence | reflexivity]. Qed.

Lemma genSplit_nonempty (n : nat) (s sep : string) : genSplit n s sep <> [].
Proof. destruct n; cbn; [discriminate |]. destruct (Index s sep); discriminate. Qed.

(** [strings.Join] undoes [strings.Split]. *)
Lemma Join_genSplit (n : nat) (s sep : string) : Join (genSplit n s sep) sep = s.
Proof.
  revert s. induction n as [| n IH]; intros s; cbn [genSplit]; [reflexivity |].
  destruct (Index s sep) as [m |] eqn:Hi; [| reflexivity].
  rewrite Join_cons by apply genSplit_nonempty.
  rewrite IH. symmetry. apply Index_cut, Hi.
Qed.

Lemma Split_two (s sep a b : string) : Split s sep = [a; b] -> s = a +:+ sep +:+ b.
Proof.
  unfold Split. intros H.
  rewrite <- (Join_genSplit (String.length s) s sep), H. reflexivity.
Qed.

Lemma Split_no_separator (s sep : string) : Index s sep = None -> Split s sep = [s].
Proof.
  unfold Split. intros H. destruct (String.length s); cbn [genSplit]; [reflexivity |].
  rewrite H. reflexivity.
Qed.

(** ** The trace only grows *)

Section Grows.

Variable E : Env.

Lemma grows_ret {A} (a : A) : grows (ret a).
Proof. intros s. exists []. reflexivity. Qed.

Lemma grows_fail {A} (e : error) : grows (@fail A e).
Proof. intros s. exists []. reflexivity. Qed.

Lemma grows_bind {A B} (m : M A) (f : A -> M B) :
  grows m -> (forall a, grows (f a)) -> grows (bind m f).
Proof.
  intros Hm Hf s. unfold bind. destruct (Hm s) as (l & Hl).
  destruct (m s) as [[a | e | |] s1]; cbn [snd] in *; eauto.
  destruct (Hf a s1) as (l' & Hl'). exists (l' ++ l).
  rewrite Hl', Hl, app_assoc. reflexivity.
Qed.

Lemma grows_emit (ev : Event) : grows (emit ev).
Proof. intros s. exists [ev]. reflexivity. Qed.

Lemma grows_try_call (c : Call) : grows (try_call E c).
Proof. intros s. exists []. reflexivity. Qed.

Lemma grows_check (err : option error) : grows (check err).
Proof. destruct err; [apply grows_fail | apply grows_ret]. Qed.

Local Ltac grow :=
  repeat first [ apply grows_emit | apply grows_try_call | apply grows_check
               | apply grows_ret | apply grows_fail
               | apply grows_bind; [| intros; cbv beta] ].

Lemma grows_connect (api : Api) (url : string) : grows (connect E api url).
Proof.
  unfold connect. apply grows_bind; [| intros; grow].
  destruct api; intros s; exists []; reflexivity.
Qed.

Lemma grows_db_Write (chunk : Z) (op : WriteOp) (rows : list Row) :
  grows (db_Write E chunk op rows).
Proof.
  unfold db_Write. grow.
Qed.

Lemma grows_db_Write_noerr (chunk : Z) (op : WriteOp) (rows : list Row) :
  grows (db_Write_noerr E chunk op rows).
Proof.
  unfold db_Write_noerr. grow.
Qed.

Lemma grows_forRange (body : nat -> Reading -> M unit) (i : nat) (l : list Reading) :
  (forall i reading, grows (body i reading)) -> grows (forRange body i l).
Proof.
  intros Hbody. revert i. induction l as [| reading l IH]; intros i; cbn [forRange].
  - apply grows_ret.
  - apply grows_bind; [apply Hbody | intros; apply IH].
Qed.

Lemma grows_writeOf (b : Backend) (n chunk : Z) (data : ReadingFile) :
  grows (writeOf E b n chunk data).
Proof.
  destruct b; cbn [writeOf];
    unfold writeCopyFrom, writeLineSender, writeInflux, writeBatch, writeTx;
    repeat first [ apply grows_db_Write | apply grows_db_Write_noerr
                 | apply grows_forRange; intros; cbv beta
                 | apply grows_bind; [| intros; cbv beta] ].
Qed.

Lemma grows_ingestLoop (write : Z -> Z -> ReadingFile -> M unit) (fuel : nat) (c : Z)
    (r : BenchmarkResults) (n : Z) :
  (forall n c data, grows (write n c data)) -> grows (ingestLoop E write fuel c r n).
Proof.
  intros Hw. revert c r n. induction fuel as [| fuel IH]; intros c r n s.
  - exists []. reflexivity.
  - cbn [ingestLoop].
    pose proof (loadDataChunk_state E c s) as (_ & _ & Ht).
    destruct (loadDataChunk E c s) as [[[hasNext data] [e |]] s1]; cbn [snd] in *.
    { exists [EvLoadChunk c]. exact Ht. }
    match goal with
    | |- exists l, trace (snd (?m s1)) = _ =>
        assert (Hm : grows m)
    end.
    { apply grows_bind; [intros s0; exists []; reflexivity | intros start].
      apply grows_bind; [apply Hw | intros _].
      apply grows_bind; [intros s0; exists []; reflexivity | intros d].
      destruct hasNext; cbn [negb]; [apply IH | apply grows_ret]. }
    destruct (Hm s1) as (l & Hl). exists (l ++ [EvLoadChunk c]).
    rewrite Hl, Ht, <- app_assoc. reflexivity.
Qed.

Lemma grows_runSteps (plan : list Step) (r : BenchmarkResults) : grows (runSteps E plan r).
Proof.
  intros s. destruct (runSteps_spec E plan r s) as (s' & Hadd & _ & _ & Hrun).
  exists (rev (ranEvents E (held s) plan)).
  destruct (planOutcome E (held s) plan); try (rewrite Hrun; exact Hadd).
  destruct Hrun as (_ & r' & qs & Hrun & _). rewrite Hrun. exact Hadd.
Qed.

Lemma grows_queriesOf (b : Backend) (r : BenchmarkResults) : grows (queriesOf E b r).
Proof.
  intros s. rewrite queriesOf_plan. apply grows_runSteps.
Qed.

Lemma grows_writeResults (dbType outFile : string) (r : BenchmarkResults) :
  grows (writeResults E dbType outFile r).
Proof.
  unfold writeResults. cbv zeta. grow; intros s; exists []; reflexivity.
Qed.

(** What follows the setup step of a benchmark function. *)
Lemma grows_run (b : Backend) (outFile : string) :
  grows (results <- ingest E (writeOf E b) ;;
         results <- queriesOf E b results ;;
         writeResults E (dbTypeOf b) outFile results).
Proof.
  apply grows_bind; [apply grows_ingestLoop; intros; apply grows_writeOf | intros r0].
  apply grows_bind; [apply grows_queriesOf | intros r1].
  apply grows_writeResults.
Qed.

End Grows.

Lemma connect_spec (E : Env) (api : Api) (url : string) (s : State) :
  connect E api url s =
  (outcome (fault E (CallConnect api url)), afterConnect E api url s).
Proof.
  cbv [connect bind emit try_call tick ret check fail outcome afterConnect newPool
       clock catalog outputs trace held].
  destruct api, (fault E (CallConnect _ url)); reflexivity.
Qed.

(** C10: [benchmarkQuestDb] returns the format error, without a call to any
    backend and with the state untouched, unless [strings.Split] cuts the
    connection string at [":::"] into exactly two parts (a string without
    the separator is not cut at all); when it does, the string is the first
    part, the separator and the second part, the first thing the function
    does is to open the ingestion client on the first part, and the next,
    once that succeeded, to open the query pool on the second. *)
Theorem questdb_connection_string (E : Env) (connStr outFile : string) (s : State) :
  (length (Split connStr ":::") <> 2%nat ->
   benchmarkQuestDb E connStr outFile s = (Err invalidConnStr, s)) /\
  (Index connStr ":::" = None -> length (Split connStr ":::") <> 2%nat) /\
  (forall ingestUrl queryUrl,
     Split connStr ":::" = [ingestUrl; queryUrl] ->
     connStr = ingestUrl +:+ ":::" +:+ queryUrl /\
     exists rest,
       events (snd (benchmarkQuestDb E connStr outFile s)) =
       events s ++ EvConnect LineSenderFromConf ingestUrl :: rest /\
       match fault E (CallConnect LineSenderFromConf ingestUrl) with
       | Some e => rest = [] /\ fst (benchmarkQuestDb E connStr outFile s) = Err e
       | None => exists rest', rest = EvConnect PgxPoolNew queryUrl :: rest'
       end).
Proof.
  split; [| split].
  - intros Hlen. unfold benchmarkQuestDb.
    destruct (Split connStr ":::") as [| a [| b [| c l]]]; try reflexivity.
    cbn in Hlen. congruence.
  - intros Hnone. rewrite (Split_no_separator _ _ Hnone). cbn. discriminate.
  - intros ingestUrl queryUrl Hsplit.
    split; [apply Split_two, Hsplit |].
    unfold benchmarkQuestDb, events. rewrite Hsplit.
    pose proof (connect_spec E LineSenderFromConf ingestUrl s) as Hc1.
    destruct (fault E (CallConnect LineSenderFromConf ingestUrl)) as [e |]; cbn [outcome] in Hc1.
    { rewrite (bind_Err_l _ _ _ _ _ Hc1). exists []. cbn [snd fst afterConnect trace rev app].
      split; [reflexivity |]. split; reflexivity. }
    rewrite (bind_Ok_l _ _ _ _ _ Hc1).
    match type of Hc1 with _ = (_, ?s1) =>
      pose proof (connect_spec E PgxPoolNew queryUrl s1) as Hc2
    end.
    destruct (fault E (CallConnect PgxPoolNew queryUrl)) as [e |]; cbn [outcome] in Hc2.
    { rewrite (bind_Err_l _ _ _ _ _ Hc2).
      exists [EvConnect PgxPoolNew queryUrl]. cbn [snd afterConnect trace rev app].
      split; [| eexists; reflexivity].
      rewrite <- !app_assoc. reflexivity. }
    rewrite (bind_Ok_l _ _ _ _ _ Hc2).
    match type of Hc2 with _ = (_, ?s2) =>
      destruct (grows_run E QuestDb outFile s2) as (l & Hl)
    end.
    cbn [writeOf queriesOf dbTypeOf] in Hl. rewrite Hl. cbn [afterConnect trace rev app].
    exists (EvConnect PgxPoolNew queryUrl :: rev l). split; [| eexists; reflexivity].
    rewrite rev_app_distr. cbn [rev app]. rewrite <- !app_assoc. reflexivity.
Qed.

Lemma questdb_connection_string_witness :
  benchmarkQuestDb quietEnv "postgres://quest:8812/qdb" "out.json" freshState
    = (Err invalidConnStr, freshState) /\
  exists rest,
    events (snd (benchmarkQuestDb quietEnv "http::addr=quest:9000;:::postgres://quest:8812/qdb"
                   "out.json" freshState)) =
    events freshState ++
    EvConnect LineSenderFromConf "http::addr=quest:9000;" ::
    EvConnect PgxPoolNew "postgres://quest:8812/qdb" :: rest.
Proof.
  split.
  - apply (proj1 (questdb_connection_string quietEnv "postgres://quest:8812/qdb" "out.json"
                    freshState)).
    vm_compute. discriminate.
  - destruct (proj2 (proj2 (questdb_connection_string quietEnv
                              "http::addr=quest:9000;:::postgres://quest:8812/qdb"
                              "out.json" freshState))
                "http::addr=quest:9000;" "postgres://quest:8812/qdb")
      as (_ & rest & Hev & Hrest).
    + vm_compute. reflexivity.
    + cbn in Hrest. destruct Hrest as (rest' & ->). exists rest'. exact Hev.
Defined.

(** ** Time arithmetic *)

Lemma wrap64_mul_l (a b : Z) : wrap64 (wrap64 a * b) = wrap64 (a * b).
Proof.
  destruct (wrap64_eqm a) as (k & Hk). rewrite Hk. unfold wrap64.
  replace ((a + k * 2 ^ 64) * b + 2 ^ 63) with (a * b + 2 ^ 63 + (k * b) * 2 ^ 64) by lia.
  rewrite Z.mod_add by lia. reflexivity.
Qed.

Lemma div64_fits (d c : Z) : fits64 d -> 0 < c -> div64 d c = d ÷ c.
Proof.
  intros Hd Hc. unfold div64. apply wrap64_fits.
  unfold fits64, minInt64, maxInt64 in *.
  Z.to_euclidean_division_equations. nia.
Qed.

(** [Add] without saturation is the sum of the instants. *)
Lemma Add_exact (t : Time) (d : Duration) :
  wfTime t -> fits64 d ->
  fits64 (sec t + (nsec t + d) / 1000000000) ->
  Add t d = mkTime (sec t + (nsec t + d) / 1000000000) ((nsec t + d) mod 1000000000).
Proof.
  intros (Hsec & Hns) Hd Hfit. unfold Add, rem64.
  rewrite div64_fits by (assumption || lia).
  assert (Hq : d = 1000000000 * (d ÷ 1000000000) + Z.rem d 1000000000)
    by (apply Z.quot_rem'; lia).
  assert (Hr : -1000000000 < Z.rem d 1000000000 < 1000000000).
  { pose proof (Z.rem_bound_abs d 1000000000 ltac:(lia)). lia. }
  set (q := d ÷ 1000000000) in *. set (r := Z.rem d 1000000000) in *.
  assert (Hqfit : fits64 q /\ fits64 (q + 1) /\ fits64 (q - 1)).
  { unfold fits64, minInt64, maxInt64 in *. lia. }
  destruct Hqfit as (Hq0 & Hq1 & Hq2).
  unfold addSec, add64, sub64. cbn [sec nsec].
  destruct (Z.leb_spec 1000000000 (nsec t + r)).
  - assert (Hdiv : (nsec t + d) / 1000000000 = q + 1 /\
                   (nsec t + d) mod 1000000000 = nsec t + r - 1000000000).
    { Z.to_euclidean_division_equations. lia. }
    destruct Hdiv as (Hdiv & Hmod). rewrite Hdiv, Hmod in *.
    rewrite (wrap64_fits (q + 1)) by assumption.
    rewrite (wrap64_fits (sec t + (q + 1))) by assumption.
    destruct (Z.ltb_spec (sec t) (sec t + (q + 1))), (Z.ltb_spec 0 (q + 1));
      cbn [Bool.eqb]; try reflexivity; lia.
  - destruct (Z.ltb_spec (nsec t + r) 0).
    + assert (Hdiv : (nsec t + d) / 1000000000 = q - 1 /\
                     (nsec t + d) mod 1000000000 = nsec t + r + 1000000000).
      { Z.to_euclidean_division_equations. lia. }
      destruct Hdiv as (Hdiv & Hmod). rewrite Hdiv, Hmod in *.
      rewrite (wrap64_fits (q - 1)) by assumption.
      rewrite (wrap64_fits (sec t + (q - 1))) by assumption.
      destruct (Z.ltb_spec (sec t) (sec t + (q - 1))), (Z.ltb_spec 0 (q - 1));
        cbn [Bool.eqb]; try reflexivity; lia.
    + assert (Hdiv : (nsec t + d) / 1000000000 = q /\
                     (nsec t + d) mod 1000000000 = nsec t + r).
      { Z.to_euclidean_division_equations. lia. }
      destruct Hdiv as (Hdiv & Hmod). rewrite Hdiv, Hmod in *.
      rewrite (wrap64_fits (sec t + q)) by assumption.
      destruct (Z.ltb_spec (sec t) (sec t + q)), (Z.ltb_spec 0 q);
        cbn [Bool.eqb]; try reflexivity; lia.
Qed.

Lemma Add_wf (t : Time) (d : Duration) :
  wfTime t -> fits64 d ->
  fits64 (sec t + (nsec t + d) / 1000000000) ->
  wfTime (Add t d) /\ nanos (Add t d) = nanos t + d.
Proof.
  intros Ht Hd Hfit. rewrite Add_exact by assumption.
  unfold wfTime, nanos. cbn [sec nsec].
  pose proof (Z.mod_pos_bound (nsec t + d) 1000000000 ltac:(lia)).
  pose proof (Z.div_mod (nsec t + d) 1000000000 ltac:(lia)).
  split; [split; [exact Hfit | lia] | lia].
Qed.

(** [Sub] without saturation is the difference of the instants. *)
Lemma Sub_exact (t u : Time) :
  wfTime t -> wfTime u -> fits64 (nanos t - nanos u) ->
  Sub t u = nanos t - nanos u.
Proof.
  intros Ht Hu Hfit. unfold Sub.
  assert (Hd : add64 (mul64 (sub64 (sec t) (sec u)) Second) (nsec t - nsec u)
               = nanos t - nanos u).
  { unfold add64, mul64, sub64, Second.
    rewrite wrap64_mul_l, wrap64_add_l.
    rewrite <- (wrap64_fits _ Hfit). f_equal. unfold nanos. lia. }
  rewrite Hd.
  destruct Ht as (Hts & Htn), Hu as (Hus & Hun).
  assert (Hdiv : (nsec u + (nanos t - nanos u)) / 1000000000 = sec t - sec u /\
                 (nsec u + (nanos t - nanos u)) mod 1000000000 = nsec t).
  { unfold nanos. Z.to_euclidean_division_equations. lia. }
  destruct Hdiv as (Hdiv & Hmod).
  rewrite Add_exact; [| split; assumption | assumption |].
  - rewrite Hdiv, Hmod. unfold Equal. cbn [sec nsec].
    replace (sec u + (sec t - sec u)) with (sec t) by lia.
    rewrite !Z.eqb_refl. reflexivity.
  - rewrite Hdiv. replace (sec u + (sec t - sec u)) with (sec t) by lia. exact Hts.
Qed.

Lemma wfTime_eq (t u : Time) : wfTime t -> wfTime u -> nanos t = nanos u -> t = u.
Proof.
  destruct t as [ts tn], u as [us un]. unfold wfTime, nanos. cbn [sec nsec].
  intros (_ & Ht) (_ & Hu) H.
  assert (ts = us /\ tn = un) as (-> & ->) by lia. reflexivity.
Qed.

(** Half of a representable step is a representable step. *)
Lemma half_fits (t : Time) (D : Duration) :
  wfTime t -> fits64 D ->
  fits64 (sec t + (nsec t + D) / 1000000000) ->
  fits64 (D ÷ 2) /\ fits64 (sec t + (nsec t + D ÷ 2) / 1000000000).
Proof.
  intros ((Hs1 & Hs2) & Hn) (Hd1 & Hd2) (Hf1 & Hf2).
  unfold fits64, minInt64, maxInt64 in *.
  assert (H0 : nsec t / 1000000000 = 0) by (apply Z.div_small; lia).
  destruct (Z_le_gt_dec 0 D).
  - assert (0 <= D ÷ 2 <= D) by (Z.to_euclidean_division_equations; lia).
    pose proof (Z.div_le_mono (nsec t) (nsec t + D ÷ 2) 1000000000 ltac:(lia) ltac:(lia)).
    pose proof (Z.div_le_mono (nsec t + D ÷ 2) (nsec t + D) 1000000000 ltac:(lia) ltac:(lia)).
    lia.
  - assert (D <= D ÷ 2 <= 0) by (Z.to_euclidean_division_equations; lia).
    pose proof (Z.div_le_mono (nsec t + D ÷ 2) (nsec t) 1000000000 ltac:(lia) ltac:(lia)).
    pose proof (Z.div_le_mono (nsec t + D) (nsec t + D ÷ 2) 1000000000 ltac:(lia) ltac:(lia)).
    lia.
Qed.

(** The middle of [T0] and [T0 + D]. *)
Lemma middleOf_exact (T0 : Time) (D : Duration) :
  wfTime T0 -> fits64 D ->
  fits64 (sec T0 + (nsec T0 + D) / 1000000000) ->
  Sub (Add T0 D) T0 = D /\
  middleOf T0 (Add T0 D) = Add T0 (D ÷ 2) /\
  wfTime (middleOf T0 (Add T0 D)) /\
  nanos (middleOf T0 (Add T0 D)) = nanos T0 + D ÷ 2.
Proof.
  intros Hwf HD Hfit.
  destruct (Add_wf T0 D Hwf HD Hfit) as (Hwf' & Hn).
  assert (Hsub : Sub (Add T0 D) T0 = D).
  { rewrite Sub_exact; [lia | assumption | assumption |].
    replace (nanos (Add T0 D) - nanos T0) with D by lia. exact HD. }
  destruct (half_fits T0 D Hwf HD Hfit) as (Hh1 & Hh2).
  split; [exact Hsub |]. unfold middleOf. rewrite Hsub, div64_fits by (assumption || lia).
  split; [reflexivity |]. apply Add_wf; assumption.
Qed.

Lemma plan_has_query7 (E : Env) (b : Backend) :
  In (EvQuery 7 0 (window7 b (middleOf (fst (boundsOf E b)) (snd (boundsOf E b)))))
     (planEvents E (planOf E b)).
Proof.
  destruct b; cbn [boundsOf planOf window7];
    unfold planPostgres, planSql, planQuestDb, planInfluxDB;
    match goal with
    | |- context [time_bounds E] => destruct (time_bounds E) as [minTime maxTime]
    | |- context [influxBounds E] => destruct (influxBounds E) as [minTime maxTime]
    end;
    cbn [planEvents flat_map stepEvents step7 step8 map app fst snd];
    repeat (rewrite !in_app_iff || cbn [In app]); tauto.
Qed.

(** A completed query sequence has left all the events of its blocks. *)
Lemma queriesOf_events (E : Env) (b : Backend) (r r' : BenchmarkResults) (s s' : State)
    (ev : Event) :
  queriesOf E b r s = (Ok r', s') ->
  In ev (planEvents E (planOf E b)) -> In ev (events s').
Proof.
  rewrite queriesOf_plan. intros H Hin.
  apply runSteps_Ok in H as (_ & Hadd & _).
  unfold events. rewrite Hadd, rev_app_distr, rev_involutive.
  apply in_or_app. right. exact Hin.
Qed.

(** C2: for min = T0 and max = T0 + D the derived middle is T0 + D/2, with
    Go's integer division of the duration and nothing lost: its instant is
    that of T0 plus D/2 nanoseconds.  For min = t0 and max = t0 + 7200 s the
    middle is t0 + 3600 s, one hour before it is t0 and one hour after it is
    t0 + 7200 s, and these are the bounds query 7 is run with (QuestDB is
    handed the middle itself). *)
Theorem middle_time_exact (E : Env) :
  (forall T0 D,
     wfTime T0 -> fits64 D -> fits64 (sec T0 + (nsec T0 + D) / 1000000000) ->
     middleOf T0 (Add T0 D) = Add T0 (D ÷ 2) /\
     nanos (middleOf T0 (Add T0 D)) = nanos T0 + D ÷ 2) /\
  (forall t0,
     wfTime t0 -> fits64 (sec t0 + 7200) ->
     let maxTime := Add t0 (7200 * Second) in
     let middleTime := middleOf t0 maxTime in
     middleTime = Add t0 (3600 * Second) /\
     Add middleTime (- Hour) = t0 /\
     Add middleTime Hour = maxTime /\
     forall b r s r' s',
       boundsOf E b = (t0, maxTime) ->
       queriesOf E b r s = (Ok r', s') ->
       In (EvQuery 7 0 (window7 b middleTime)) (events s') /\
       window7 b middleTime =
       match b with
       | QuestDb => [SqlTime (Add t0 (3600 * Second))]
       | InfluxDB => [RFC3339 t0; RFC3339 maxTime]
       | _ => [SqlTime t0; SqlTime maxTime]
       end).
Proof.
  split.
  - intros T0 D Hwf HD Hfit.
    destruct (middleOf_exact T0 D Hwf HD Hfit) as (_ & Hm & _ & Hn). split; assumption.
  - intros t0 Hwf Hfit maxTime middleTime.
    assert (Hsec : forall k, 0 <= k <= 7200 ->
              Add t0 (k * Second) = mkTime (sec t0 + k) (nsec t0)).
    { intros k Hk. destruct Hwf as ((Hs1 & Hs2) & Hn).
      unfold fits64, minInt64, maxInt64, Second in *.
      assert ((nsec t0 + k * 1000000000) / 1000000000 = k /\
              (nsec t0 + k * 1000000000) mod 1000000000 = nsec t0) as (Hdiv & Hmod)
        by (Z.to_euclidean_division_equations; lia).
      rewrite Add_exact; unfold wfTime, fits64, minInt64, maxInt64;
        rewrite ?Hdiv, ?Hmod; try lia. reflexivity. }
    assert (Hmid : middleTime = Add t0 (3600 * Second)).
    { unfold middleTime, maxTime.
      assert (HD : fits64 (7200 * Second))
        by (unfold fits64, minInt64, maxInt64, Second; lia).
      assert (Hend : fits64 (sec t0 + (nsec t0 + 7200 * Second) / 1000000000)).
      { destruct Hwf as ((Hs1 & Hs2) & Hn). unfold fits64, minInt64, maxInt64, Second in *.
        assert ((nsec t0 + 7200 * 1000000000) / 1000000000 = 7200)
          by (Z.to_euclidean_division_equations; lia).
        lia. }
      destruct (middleOf_exact t0 (7200 * Second) Hwf HD Hend) as (_ & Hm & _).
      rewrite Hm. reflexivity. }
    assert (Hbefore : Add middleTime (- Hour) = t0).
    { rewrite Hmid, Hsec by lia. destruct Hwf as ((Hs1 & Hs2) & Hn).
      unfold fits64, minInt64, maxInt64, Hour, Second in *.
      assert ((nsec t0 + - (3600 * 1000000000)) / 1000000000 = -3600 /\
              (nsec t0 + - (3600 * 1000000000)) mod 1000000000 = nsec t0) as (Hdiv & Hmod)
        by (Z.to_euclidean_division_equations; lia).
      rewrite Add_exact; unfold wfTime, fits64, minInt64, maxInt64; cbn [sec nsec];
        rewrite ?Hdiv, ?Hmod; try lia.
      destruct t0 as [ts tn]. cbn [sec nsec]. f_equal. lia. }
    assert (Hafter : Add middleTime Hour = maxTime).
    { unfold maxTime. rewrite Hmid, !Hsec by lia. destruct Hwf as ((Hs1 & Hs2) & Hn).
      unfold fits64, minInt64, maxInt64, Hour, Second in *.
      assert ((nsec t0 + 3600 * 1000000000) / 1000000000 = 3600 /\
              (nsec t0 + 3600 * 1000000000) mod 1000000000 = nsec t0) as (Hdiv & Hmod)
        by (Z.to_euclidean_division_equations; lia).
      rewrite Add_exact; unfold wfTime, fits64, minInt64, maxInt64; cbn [sec nsec];
        rewrite ?Hdiv, ?Hmod; try lia.
      f_equal. lia. }
    split; [exact Hmid |]. split; [exact Hbefore |]. split; [exact Hafter |].
    intros b r s r' s' Hb Hq. split.
    + eapply queriesOf_events; [exact Hq |].
      pose proof (plan_has_query7 E b) as Hin. rewrite Hb in Hin. exact Hin.
    + unfold window7. rewrite Hbefore, Hafter, Hmid. destruct b; reflexivity.
Qed.

Lemma middle_time_exact_witness :
  let t0 := Unix 1700000000 in
  let run := queriesOf quietEnv Postgres emptyResults freshState in
  middleOf t0 (Add t0 (7200 * Second)) = Add t0 (3600 * Second) /\
  nanos (middleOf t0 (Add t0 (7200 * Second))) = nanos t0 + 3600 * Second /\
  In (EvQuery 7 0 [SqlTime t0; SqlTime (Add t0 (7200 * Second))]) (events (snd run)).
Proof.
  intros t0 run.
  assert (Hwf : wfTime t0) by (vm_compute; intuition discriminate).
  assert (Hfit : fits64 (sec t0 + 7200)) by (vm_compute; intuition discriminate).
  destruct (proj2 (middle_time_exact quietEnv) t0 Hwf Hfit) as (Hmid & _ & _ & Hrun).
  split; [exact Hmid |]. split.
  - apply (proj1 (middle_time_exact quietEnv) t0 (7200 * Second) Hwf);
      vm_compute; intuition discriminate.
  - destruct (Hrun Postgres emptyResults freshState
                (match fst run with Ok r => r | _ => emptyResults end) (snd run) eq_refl)
      as (Hin & Hw).
    + vm_compute. reflexivity.
    + rewrite Hw in Hin. exact Hin.
Defined.

(** ** The order of the derivations and of the queries *)

(** The events of the blocks of an adapter are its script. *)
Lemma planEvents_script (E : Env) (b : Backend) :
  planEvents E (planOf E b) = queryScript E b.
Proof.
  unfold queryScript.
  destruct b; cbn [boundsOf planOf];
    unfold planPostgres, planSql, planQuestDb, planInfluxDB;
    match goal with
    | |- context [time_bounds E] => destruct (time_bounds E) as [minTime maxTime]
    | |- context [influxBounds E] => destruct (influxBounds E) as [minTime maxTime]
    end;
    cbn [fst snd]; reflexivity.
Qed.

(** A sequence of blocks that a call ends with an error has left, last,
    the query whose call returned the error. *)
Lemma ranEvents_Fails (E : Env) (n : nat) (plan : list Step) (e : error) :
  planOutcome E n plan = Fails e ->
  exists pre k args,
    ranEvents E n plan = pre ++ [EvQuery k 0 args] /\ fault E (CallQuery k 0) = Some e.
Proof.
  revert n. induction plan as [| st plan IH]; intros n H; [discriminate |].
  cbn [planOutcome ranEvents] in *.
  destruct (stepOutcome E n st) as [| e0 |] eqn:Ho; [| | discriminate].
  - destruct (IH _ H) as (pre & k & args & -> & Hf).
    exists (stepEvents E st ++ pre), k, args. rewrite app_assoc. split; [reflexivity | exact Hf].
  - inversion H; subst e0.
    destruct st as [id desc pre args rows | id desc pre args | | id desc | what t];
      try discriminate.
    cbn [stepOutcome stepEvents] in *.
    destruct (poolFull E n); [discriminate |].
    destruct (fault E (CallQuery id 0)) as [e1 |] eqn:Hf; [| discriminate].
    inversion Ho; subst e1. eauto.
Qed.

(** Whatever its outcome, a query sequence has left an initial segment of
    its script in the trace: all of it when it returned its results, the
    part that ends with the query that failed when it returned an
    error. *)
Lemma queriesOf_script (E : Env) (b : Backend) (r : BenchmarkResults) (s : State) :
  (exists n, added s (snd (queriesOf E b r s)) (firstn n (queryScript E b))) /\
  (forall r' s', queriesOf E b r s = (Ok r', s') -> added s s' (queryScript E b)) /\
  (forall e s', queriesOf E b r s = (Err e, s') ->
     exists pre k args,
       added s s' (pre ++ [EvQuery k 0 args]) /\ fault E (CallQuery k 0) = Some e).
Proof.
  rewrite queriesOf_plan, <- planEvents_script.
  destruct (runSteps_spec E (planOf E b) r s) as (s1 & Hadd & _ & _ & Hrun).
  split; [| split].
  - destruct (ranEvents_prefix E (held s) (planOf E b)) as (n & Hn).
    exists n. rewrite <- Hn.
    destruct (planOutcome E (held s) (planOf E b)); try (rewrite Hrun; exact Hadd).
    destruct Hrun as (_ & r1 & qs & Hrun & _). rewrite Hrun. exact Hadd.
  - intros r' s' H. apply runSteps_Ok in H as (_ & Hfull & _). exact Hfull.
  - intros e s' H.
    destruct (planOutcome E (held s) (planOf E b)) as [| e0 |] eqn:Ho.
    + destruct Hrun as (_ & r1 & qs & Hrun & _). congruence.
    + rewrite H in Hrun. inversion Hrun; subst.
      destruct (ranEvents_Fails E _ _ _ Ho) as (pre & k & args & Hran & Hf).
      exists pre, k, args. rewrite <- Hran. split; assumption.
    + congruence.
Qed.

Lemma afterMiddle_madeOf (b : Backend) (minTime maxTime m : Time) :
  Forall (madeOf b minTime maxTime m) (afterMiddle b minTime maxTime m).
Proof.
  destruct b; cbn [afterMiddle query7Events query8Events plainQuery runsQuery app
                   postgresUnsupported existsb Z.eqb negb orb Pos.eqb];
    repeat constructor; try discriminate;
    cbn [dependentIds In]; intros; reflexivity || (exfalso; lia).
Qed.

Lemma afterMiddle_once (b : Backend) (minTime maxTime m : Time) (what : Derived) :
  (length (List.filter (isDerivationOf what) (afterMiddle b minTime maxTime m)) <= 1)%nat.
Proof.
  destruct b, what;
    cbn [afterMiddle query7Events query8Events plainQuery runsQuery app
         postgresUnsupported existsb Z.eqb negb orb Pos.eqb List.filter isDerivationOf length];
    lia.
Qed.

(** The middle time is derived once in the script. *)
Lemma queryScript_middle_once (E : Env) (b : Backend) :
  length (List.filter (isDerivationOf MiddleTime) (queryScript E b)) = 1%nat.
Proof.
  unfold queryScript. rewrite List.filter_app, length_app.
  assert (H1 : List.filter (isDerivationOf MiddleTime) (query1Events E b) = []).
  { destruct b; cbn [query1Events]; try reflexivity.
    destruct (fault E (CallQuery 1 0)); reflexivity. }
  rewrite H1. cbn [length List.filter isDerivationOf Nat.add]. f_equal.
  destruct b;
    cbn [afterMiddle query7Events query8Events plainQuery runsQuery app
         postgresUnsupported existsb Z.eqb negb orb Pos.eqb List.filter isDerivationOf length];
    reflexivity.
Qed.

(** Every dependent query the adapter runs is in the script, with the
    arguments made of the middle time. *)
Lemma afterMiddle_dependent (b : Backend) (minTime maxTime m : Time) (id : Z) :
  In id dependentIds -> runsQuery b id = true ->
  In (EvQuery id 0 (dependentArgs b minTime maxTime m id)) (afterMiddle b minTime maxTime m).
Proof.
  unfold dependentIds. cbn [In]. intros Hid Hruns.
  repeat (destruct Hid as [<- | Hid]; [| ]); try contradiction;
    destruct b; try discriminate Hruns;
    cbn [afterMiddle query7Events query8Events plainQuery runsQuery app window7 argOf
         dependentArgs postgresUnsupported existsb Z.eqb negb orb Pos.eqb In];
    tauto.
Qed.
(** C3, as stated, fails: in a complete run of [benchmarkPostgres] the
    offsets of the middle time are derived after the queries 5 and 6 have
    run, not before any of the dependent queries. *)
Lemma offsets_derived_after_dependents :
  let run := benchmark quietEnv Postgres "postgres://bench" "out.json" freshState in
  let m := middleOf (Unix 1700000000) (Unix 1700007200) in
  fst run = Ok tt /\
  derivedBeforeDependents (events (snd run)) = false /\
  exists pre mid post,
    events (snd run) =
    pre ++ EvQuery 5 0 [SqlTime m] :: mid ++ EvDerive HourBefore (Add m (- Hour)) :: post.
Proof.
  split; [vm_compute; reflexivity |]. split; [vm_compute; reflexivity |].
  eexists (firstn 11 (events (snd (benchmark quietEnv Postgres "postgres://bench" "out.json"
                                     freshState)))),
          [_], _.
  vm_compute. reflexivity.
Qed.

(** C3, amended: a query sequence that returns its results has run its
    whole script, in order: the calls of query 1, the one derivation of the
    middle time, and then derivations and queries that are made of that one
    value.  The middle time is derived exactly once, after query 1 and
    before the first of the queries 5, 6, 7, 8, 15, 16; each offset is
    derived at most once, in the block of its query (after the queries 5
    and 6 for the bounds of query 7, after query 7 for the bound of query
    8); every one of the queries 5, 6, 7, 8, 15, 16 the adapter has is run,
    with the arguments made of the middle time.  A query sequence that ends
    otherwise has run an initial segment of the same script, which ends
    with the query whose call returned the error when it returns one. *)
Theorem derived_bounds_order (E : Env) (b : Backend) (r : BenchmarkResults) (s : State) :
  let minTime := fst (boundsOf E b) in
  let maxTime := snd (boundsOf E b) in
  let m := middleOf minTime maxTime in
  (forall r' s', queriesOf E b r s = (Ok r', s') ->
     events s' =
     events s ++ query1Events E b ++ EvDerive MiddleTime m :: afterMiddle b minTime maxTime m) /\
  (forall e s', queriesOf E b r s = (Err e, s') ->
     exists pre k args,
       events s' = events s ++ pre ++ [EvQuery k 0 args] /\
       fault E (CallQuery k 0) = Some e) /\
  (exists n, events (snd (queriesOf E b r s)) = events s ++ firstn n (queryScript E b)) /\
  queryScript E b = query1Events E b ++ EvDerive MiddleTime m :: afterMiddle b minTime maxTime m /\
  Forall (fun ev => exists part, ev = EvQuery 1 part []) (query1Events E b) /\
  Forall (madeOf b minTime maxTime m) (afterMiddle b minTime maxTime m) /\
  length (List.filter (isDerivationOf MiddleTime) (queryScript E b)) = 1%nat /\
  (forall what,
     (length (List.filter (isDerivationOf what) (afterMiddle b minTime maxTime m)) <= 1)%nat) /\
  (forall id,
     In id dependentIds -> runsQuery b id = true ->
     In (EvQuery id 0 (dependentArgs b minTime maxTime m id))
        (afterMiddle b minTime maxTime m)) /\
  derivedBeforeDependents
    (query1Events E b ++ EvDerive MiddleTime m :: firstn 5 (afterMiddle b minTime maxTime m))
  = true.
Proof.
  intros minTime maxTime m.
  destruct (queriesOf_script E b r s) as ((n & Hn) & Hok & Herr).
  assert (Hev : forall s' evs, added s s' evs -> events s' = events s ++ evs).
  { intros s' evs H. unfold events. rewrite H, rev_app_distr, rev_involutive. reflexivity. }
  split; [| split; [| split; [| split; [| split; [| split; [| split; [| split; [| split]]]]]]]].
  - intros r' s' H. apply Hev. exact (Hok r' s' H).
  - intros e s' H. destruct (Herr e s' H) as (pre & k & args & Hadd & Hf).
    exists pre, k, args. split; [apply Hev, Hadd | exact Hf].
  - exists n. apply Hev, Hn.
  - reflexivity.
  - destruct b; cbn [query1Events]; repeat constructor; eauto.
    destruct (fault E (CallQuery 1 0)); repeat constructor; eauto.
  - apply afterMiddle_madeOf.
  - apply queryScript_middle_once.
  - intros what. apply afterMiddle_once.
  - intros id. apply afterMiddle_dependent.
  - destruct b; cbn [query1Events]; try reflexivity.
    destruct (fault E (CallQuery 1 0)); reflexivity.
Qed.

Lemma derived_bounds_order_witness :
  let run := queriesOf quietEnv TimescaleDb emptyResults freshState in
  let m := middleOf (Unix 1700000000) (Unix 1700007200) in
  events (snd run) =
  events freshState ++
  query1Events quietEnv TimescaleDb ++
  EvDerive MiddleTime m :: afterMiddle TimescaleDb (Unix 1700000000) (Unix 1700007200) m.
Proof.
  intros run m.
  apply (proj1 (derived_bounds_order quietEnv TimescaleDb emptyResults freshState)
           (match fst run with Ok r => r | _ => emptyResults end) (snd run)).
  vm_compute. reflexivity.
Defined.

(** ** Query 1 of the InfluxDB adapter *)

(** C9, as stated, fails: when the first call of query 1 succeeds and the
    second fails, the sentinel is recorded and the run goes on, but
    [minTime] keeps the time read from the dataset; the middle time is
    computed from it and from the zero time, and query 15 is run from the
    dataset's minimum. *)
Lemma influx_max_failure_keeps_min :
  let run := queriesInfluxDB maxQueryFailsEnv emptyResults freshState in
  let minTime := Unix 1700000000 in
  fluxBoundsFailed maxQueryFailsEnv = true /\
  (exists r' qs, fst run = Ok r' /\
                 Queries r' = mkQueryResult 1 sentinel "Get time bounds" :: qs) /\
  influxBounds maxQueryFailsEnv = (minTime, zeroTime) /\
  minTime <> zeroTime /\
  middleOf minTime zeroTime <> zeroTime /\
  In (EvQuery 15 0 [RFC3339 minTime; RFC3339 (middleOf minTime zeroTime)]) (events (snd run)).
Proof.
  split; [reflexivity |].
  split; [eexists _, _; split; vm_compute; reflexivity |].
  split; [reflexivity |].
  split; [discriminate |].
  split; [vm_compute; discriminate |].
  vm_compute. tauto.
Qed.

Lemma middleOf_zero : middleOf zeroTime zeroTime = zeroTime.
Proof. reflexivity. Qed.

(** C9, amended: when one of the two calls of query 1 fails, the query
    sequence of the InfluxDB adapter still returns no error, the entry of
    identifier 1 carries the sentinel, and the whole script is run.  When
    the first call fails, [minTime], [maxTime] and the middle time are the
    zero time and the queries 5 to 8, 15 and 16 are run with windows made of
    it.  When only the second call fails, [maxTime] is the zero time and
    [minTime] is the time of the last record the first call returned: the
    middle time and the windows are made of these two. *)
Theorem influx_query1_failure (E : Env) (r : BenchmarkResults) (s : State) :
  fluxBoundsFailed E = true ->
  exists r' s',
    queriesInfluxDB E r s = (Ok r', s') /\
    (exists qs, Queries r' = Queries r ++ mkQueryResult 1 sentinel "Get time bounds" :: qs) /\
    added s s' (queryScript E InfluxDB) /\
    match fault E (CallQuery 1 0) with
    | Some _ =>
        queryScript E InfluxDB =
        EvQuery 1 0 [] :: EvDerive MiddleTime zeroTime ::
        afterMiddle InfluxDB zeroTime zeroTime zeroTime
    | None =>
        let minTime := List.last (flux_records E (CallQuery 1 0)) zeroTime in
        queryScript E InfluxDB =
        EvQuery 1 0 [] :: EvQuery 1 1 [] :: EvDerive MiddleTime (middleOf minTime zeroTime) ::
        afterMiddle InfluxDB minTime zeroTime (middleOf minTime zeroTime)
    end.
Proof.
  intros Hfail.
  pose proof (queriesOf_plan E InfluxDB r s) as Hplan. cbn [queriesOf planOf] in Hplan.
  destruct (runSteps_spec E (planInfluxDB E) r s) as (s' & _ & _ & _ & Hrun).
  rewrite planOutcome_influx in Hrun. destruct Hrun as (Hfull & r' & qs & Hrun & _ & _ & Hqs & Hall).
  exists r', s'. rewrite Hplan.
  split; [exact Hrun |]. split; [| split].
  - unfold planInfluxDB in Hall. destruct (influxBounds E) as [minTime maxTime].
    cbn [List.filter records] in Hall.
    apply Forall2_cons_inv_l in Hall as (q & qs' & (Hid & Hdesc & Hd) & _ & ->).
    rewrite Hfail in Hd. exists qs'. rewrite Hqs.
    destruct q as [id d desc]. cbn [QueryId DurationMs Description] in *. subst.
    reflexivity.
  - rewrite <- (planEvents_script E InfluxDB). exact Hfull.
  - unfold queryScript, fluxBoundsFailed in *. cbn [boundsOf query1Events].
    unfold influxBounds.
    destruct (fault E (CallQuery 1 0)); [reflexivity |].
    destruct (fault E (CallQuery 1 1)); [reflexivity | discriminate].
Qed.

Lemma influx_query1_failure_witness :
  exists r' s',
    queriesInfluxDB minQueryFailsEnv emptyResults freshState = (Ok r', s') /\
    events s' =
    EvQuery 1 0 [] :: EvDerive MiddleTime zeroTime ::
    afterMiddle InfluxDB zeroTime zeroTime zeroTime.
Proof.
  destruct (influx_query1_failure minQueryFailsEnv emptyResults freshState eq_refl)
    as (r' & s' & Hrun & _ & Hadd & _).
  exists r', s'. split; [exact Hrun |].
  unfold events. rewrite Hadd. reflexivity.
Defined.

(** ** The schema setup, run again *)

Lemma db_Exec_spec (E : Env) (stmts : list Stmt) (s : State) :
  fault E (CallExec stmts) = None ->
  exists s1,
    catalog s1 = catalog s /\
    db_Exec E stmts s =
    match execStmts (catalog s) stmts with
    | inl e => (Err e, s1)
    | inr cat => (Ok tt, mkState (clock s1) cat (outputs s1) (trace s1) (held s1))
    end.
Proof.
  intros Hf.
  cbv [db_Exec bind emit try_call tick ret check fail clock catalog outputs trace held].
  rewrite Hf. eexists (mkState _ _ _ _ _). split; [reflexivity |].
  cbn [clock catalog outputs trace held]. reflexivity.
Qed.

(** [CREATE TABLE user_events] without [IF NOT EXISTS] (PostgreSQL and
    TimescaleDB) fails on a backend that has the table; with it (CrateDB and
    ClickHouse) the setup succeeds and changes nothing. *)
Lemma setup_on_provisioned (E : Env) (b : Backend) (connStr : string) (s : State) :
  is_Some (catalog s !! "user_events") ->
  (forall c, fault E c = None) ->
  exists s',
    catalog s' = catalog s /\
    setupOf E b connStr s =
    (match b with
     | Postgres | TimescaleDb => Err "relation user_events already exists"
     | QuestDb => if bool_decide (length (Split connStr ":::") = 2%nat)
                  then Ok tt else Err invalidConnStr
     | _ => Ok tt
     end, s').
Proof.
  intros [kind Hk] Hf.
  destruct b; cbn [setupOf].
  - pose proof (connect_spec E PgxPoolNew connStr s) as Hc. rewrite Hf in Hc.
    rewrite (bind_Ok_l _ _ _ _ _ Hc).
    match goal with
    | |- context [db_Exec E ?st ?s0] =>
        destruct (db_Exec_spec E st s0 (Hf _)) as (s1 & Hcat & ->)
    end.
    cbn [afterConnect catalog] in *. cbn [schemaPostgres execStmts execStmt]. rewrite Hk.
    exists s1. split; [exact Hcat | reflexivity].
  - pose proof (connect_spec E PgxPoolNew connStr s) as Hc. rewrite Hf in Hc.
    rewrite (bind_Ok_l _ _ _ _ _ Hc).
    match goal with
    | |- context [db_Exec E ?st ?s0] =>
        destruct (db_Exec_spec E st s0 (Hf _)) as (s1 & Hcat & ->)
    end.
    cbn [afterConnect catalog] in *. cbn [schemaTimescaleDb execStmts execStmt]. rewrite Hk.
    exists s1. split; [exact Hcat | reflexivity].
  - destruct (Split connStr ":::") as [| a [| b [| c l]]]; cbn [length];
      try (exists s; split; reflexivity).
    pose proof (connect_spec E LineSenderFromConf a s) as Hc. rewrite Hf in Hc.
    rewrite (bind_Ok_l _ _ _ _ _ Hc), connect_spec, Hf.
    eexists. split; [| reflexivity]. reflexivity.
  - exists s. split; reflexivity.
  - pose proof (connect_spec E PgxPoolNew connStr s) as Hc. rewrite Hf in Hc.
    rewrite (bind_Ok_l _ _ _ _ _ Hc).
    match goal with
    | |- context [db_Exec E ?st ?s0] =>
        destruct (db_Exec_spec E st s0 (Hf _)) as (s1 & Hcat & ->)
    end.
    cbn [afterConnect catalog] in *. cbn [schemaCrateDB execStmts execStmt]. rewrite Hk.
    eexists. split; [| reflexivity]. reflexivity.
  - pose proof (connect_spec E ClickHousePing connStr s) as Hc. rewrite Hf in Hc.
    rewrite (bind_Ok_l _ _ _ _ _ Hc).
    match goal with
    | |- context [db_Exec E ?st ?s0] =>
        destruct (db_Exec_spec E st s0 (Hf _)) as (s1 & Hcat & ->)
    end.
    cbn [afterConnect catalog] in *. cbn [schemaClickHouse execStmts execStmt]. rewrite Hk.
    eexists. split; [| reflexivity]. reflexivity.
Qed.

(** C5, the failing input: a second run of [benchmarkPostgres] and of
    [benchmarkTimescaleDb] against the backend the first run has provisioned
    returns the error of [CREATE TABLE user_events]; the second run of
    [benchmarkCrateDB] and of [benchmarkClickHouse], whose statement has
    [IF NOT EXISTS], succeeds and leaves the catalog as it was. *)
Theorem schema_setup_second_run :
  let first b := benchmark quietEnv b "db://bench" "out.json" freshState in
  let second b := benchmark quietEnv b "db://bench" "out.json" (snd (first b)) in
  (fst (first Postgres) = Ok tt /\
   fst (second Postgres) = Err "relation user_events already exists") /\
  (fst (first TimescaleDb) = Ok tt /\
   fst (second TimescaleDb) = Err "relation user_events already exists") /\
  (fst (first CrateDB) = Ok tt /\ fst (second CrateDB) = Ok tt /\
   catalog (snd (second CrateDB)) = catalog (snd (first CrateDB))) /\
  (fst (first ClickHouse) = Ok tt /\ fst (second ClickHouse) = Ok tt /\
   catalog (snd (second ClickHouse)) = catalog (snd (first ClickHouse))).
Proof.
  cbv zeta. repeat split; vm_compute; reflexivity.
Qed.

(** * More of the program

    ** The driver calls of the ingestion blocks *)

Lemma runWrites_spec (E : Env) (checked : bool) (chunk : Z)
    (calls : list (WriteOp * list Row)) (s : State) :
  runWrites E checked chunk calls s =
  (if checked then outcome (firstFault E chunk (map fst calls)) else Ok tt,
   mkState (clock s + callsLatency E chunk (sentCalls E checked chunk calls))
           (catalog s) (outputs s)
           (rev (map (evWrite chunk) (sentCalls E checked chunk calls)) ++ trace s)
           (held s)).
Proof.
  revert s. induction calls as [| [op rows] calls IH]; intros s.
  - cbn. destruct s, checked; cbn; rewrite Z.add_0_r; reflexivity.
  - cbn [runWrites sentCalls map fst firstFault callsLatency fold_right].
    destruct checked.
    + cbv [bind db_Write emit try_call tick ret check fail clock catalog outputs trace held].
      destruct (fault E (CallWrite chunk op)) as [e |].
      * cbn. rewrite Z.add_0_r. reflexivity.
      * rewrite IH. cbn [clock catalog outputs trace held outcome map rev evWrite fst snd].
        unfold callsLatency. cbn [fold_right fst].
        rewrite <- app_assoc. cbn [app]. f_equal. f_equal. lia.
    + cbv [bind db_Write_noerr emit try_call tick ret check fail clock catalog outputs trace held].
      rewrite IH. cbn [clock catalog outputs trace held outcome map rev evWrite fst snd].
      assert (Hs : (match fault E (CallWrite chunk op) with
                    | Some _ => sentCalls E false chunk calls
                    | None => sentCalls E false chunk calls
                    end) = sentCalls E false chunk calls)
        by (destruct (fault E (CallWrite chunk op)); reflexivity).
      rewrite Hs. unfold callsLatency. cbn [fold_right fst].
      rewrite <- app_assoc. cbn [app]. f_equal. f_equal. lia.
Qed.

Lemma runWrites_app (E : Env) (checked : bool) (chunk : Z)
    (l1 l2 : list (WriteOp * list Row)) (s : State) :
  runWrites E checked chunk (l1 ++ l2) s =
  (runWrites E checked chunk l1 ;; runWrites E checked chunk l2) s.
Proof.
  revert s. induction l1 as [| [op rows] l1 IH]; intros s; [reflexivity |].
  cbn [app runWrites]. rewrite bind_assoc.
  apply bind_ext; [reflexivity |]. intros _ s1. apply IH.
Qed.

Lemma forRange_calls (E : Env) (checked : bool) (chunk : Z)
    (call : nat -> Reading -> WriteOp * list Row) (l : list Reading) (i : nat) (s : State) :
  forRange (fun j reading =>
              if checked then db_Write E chunk (fst (call j reading)) (snd (call j reading))
              else db_Write_noerr E chunk (fst (call j reading)) (snd (call j reading))) i l s =
  runWrites E checked chunk (imap (fun j => call (i + j)%nat) l) s.
Proof.
  revert i s. induction l as [| reading l IH]; intros i s; [reflexivity |].
  cbn [forRange imap runWrites]. rewrite Nat.add_0_r.
  destruct (call i reading) as [op rows] eqn:Hc. cbn [fst snd].
  apply bind_ext; [reflexivity |]. intros _ s1. rewrite IH.
  f_equal. apply imap_ext. intros j x _. cbn. f_equal. lia.
Qed.

Lemma writeOf_calls (E : Env) (b : Backend) (nRecords chunk : Z) (data : ReadingFile)
    (s : State) :
  writeOf E b nRecords chunk data s =
  runWrites E (checksWrites b) chunk (writeCalls b nRecords data) s.
Proof.
  destruct b; cbn [writeOf writeCalls checksWrites].
  - unfold writeCopyFrom. cbn [runWrites]. unfold bind.
    destruct (db_Write E chunk CopyFrom _ s) as [[[] | e | |] s1]; reflexivity.
  - unfold writeCopyFrom. cbn [runWrites]. unfold bind.
    destruct (db_Write E chunk CopyFrom _ s) as [[[] | e | |] s1]; reflexivity.
  - unfold writeLineSender. rewrite runWrites_app.
    apply bind_ext.
    + intros s0.
      exact (forRange_calls E true chunk (fun j reading => (LineAt j, [rowOf reading])) _ 0%nat s0).
    + intros _ s0. cbn [runWrites]. unfold bind.
      destruct (db_Write E chunk LineFlush [] s0) as [[[] | e | |] s1]; reflexivity.
  - unfold writeInflux. rewrite runWrites_app.
    apply bind_ext.
    + intros s0.
      exact (forRange_calls E false chunk (fun j reading => (WritePoint j, [rowOf reading])) _ 0%nat s0).
    + intros _ s0. cbn [runWrites]. unfold bind.
      destruct (db_Write_noerr E chunk WriteFlush [] s0) as [[[] | e | |] s1]; reflexivity.
  - unfold writeBatch. cbn [runWrites]. unfold bind.
    destruct (db_Write E chunk SendBatch _ s) as [[[] | e | |] s1]; reflexivity.
  - unfold writeTx. cbn [app runWrites].
    apply bind_ext; [reflexivity |]. intros _ s0.
    apply bind_ext; [reflexivity |]. intros _ s1.
    rewrite runWrites_app.
    apply bind_ext.
    + intros s2.
      exact (forRange_calls E true chunk (fun j reading => (StmtExec j, [rowWithId nRecords j reading])) _ 0%nat s2).
    + intros _ s2. cbn [runWrites]. unfold bind.
      destruct (db_Write E chunk TxCommit [] s2) as [[[] | e | |] s3]; reflexivity.
Qed.

Lemma writeCalls_ops (b : Backend) (n : Z) (data : ReadingFile) :
  map fst (writeCalls b n data) = writeOps b data.
Proof.
  assert (Hi : forall (op : nat -> WriteOp) (row : nat -> Reading -> list Row)
                 (l : list Reading) (i : nat),
             map fst (imap (fun j reading => (op (i + j)%nat, row j reading)) l) =
             map op (seq i (length l))).
  { intros op row l. revert row. induction l as [| reading l IH]; intros row i; [reflexivity |].
    cbn [imap map fst length seq]. rewrite Nat.add_0_r. f_equal.
    rewrite <- (IH (row ∘ S) (S i)). f_equal. apply imap_ext. intros j x _. cbn.
    f_equal. f_equal. lia. }
  destruct b; cbn [writeCalls writeOps map fst app]; try reflexivity.
  - pose proof (Hi LineAt (fun _ reading => [rowOf reading]) (Response data) 0%nat) as H.
    cbn [Nat.add] in H. rewrite map_app, H. reflexivity.
  - pose proof (Hi WritePoint (fun _ reading => [rowOf reading]) (Response data) 0%nat) as H.
    cbn [Nat.add] in H. rewrite map_app, H. reflexivity.
  - pose proof (Hi StmtExec (fun j reading => [rowWithId n j reading]) (Response data) 0%nat)
      as H.
    cbn [Nat.add] in H. rewrite map_app, H. reflexivity.
Qed.

(** ** The passes of the ingestion loop *)

Lemma sentCalls_all (E : Env) (checked : bool) (chunk : Z) (calls : list (WriteOp * list Row)) :
  (if checked then outcome (firstFault E chunk (map fst calls)) else Ok tt) = Ok tt ->
  sentCalls E checked chunk calls = calls.
Proof.
  induction calls as [| [op rows] calls IH]; [reflexivity |].
  cbn [sentCalls map fst firstFault]. intros H.
  destruct checked.
  - destruct (fault E (CallWrite chunk op)); [discriminate |]. rewrite IH; auto.
  - rewrite IH by reflexivity. destruct (fault E (CallWrite chunk op)); reflexivity.
Qed.

Lemma subMono_shift (x l : Z) : subMono (x + l) x = subMono l 0.
Proof.
  unfold subMono, sub64. replace (x + l - x) with (l - 0) by lia.
  destruct (wrap64 (l - 0) <? 0), (0 <? wrap64 (l - 0)); cbn [andb];
    destruct (Z.ltb_spec x (x + l)), (Z.ltb_spec 0 l), (Z.ltb_spec (x + l) x),
      (Z.ltb_spec l 0); try reflexivity; lia.
Qed.

Lemma loadDataChunk_decodes (E : Env) (c : Z) (data : ReadingFile) (s : State) :
  readings E !! chunkName c = Some (Decodes data) -> readdir_error E = None ->
  loadDataChunk E c s =
  ((add64 c 1 <? Z.of_nat (size (readings E)), data, None),
   mkState (clock s + Z.of_N (latency E (CallLoadChunk c))) (catalog s) (outputs s)
           (EvLoadChunk c :: trace s) (held s)).
Proof.
  intros Hc Hr. unfold loadDataChunk. rewrite Hc, Hr, len_dir.
  destruct (add64 c 1 <? Z.of_nat (size (readings E))); reflexivity.
Qed.

(** One pass of the loop over a chunk that decodes. *)
Lemma ingestLoop_pass (E : Env) (b : Backend) (fuel : nat) (c : Z) (r : BenchmarkResults)
    (n : Z) (data : ReadingFile) (s : State) :
  readings E !! chunkName c = Some (Decodes data) -> readdir_error E = None ->
  let calls := writeCalls b n data in
  let sent := sentCalls E (checksWrites b) c calls in
  let s2 := mkState (clock s + Z.of_N (latency E (CallLoadChunk c)) + callsLatency E c sent)
                    (catalog s) (outputs s)
                    (rev (EvLoadChunk c :: map (evWrite c) sent) ++ trace s) (held s) in
  ingestLoop E (writeOf E b) (S fuel) c r n s =
  match (if checksWrites b then firstFault E c (map fst calls) else None) with
  | Some e => (Err e, s2)
  | None =>
      let r' := appendIngestion r (passSample E b c n data) in
      if add64 c 1 <? Z.of_nat (size (readings E))
      then ingestLoop E (writeOf E b) fuel (add64 c 1) r' (add64 n (len (Response data))) s2
      else (Ok r', s2)
  end.
Proof.
  intros Hc Hr calls sent s2.
  pose proof (ingestLoop_step E (writeOf E b) fuel c r n s) as Hstep.
  rewrite (loadDataChunk_decodes E c data s Hc Hr) in Hstep.
  rewrite writeOf_calls, runWrites_spec in Hstep.
  cbn [clock catalog outputs trace held] in Hstep.
  assert (Hs2 :
    mkState (clock s + Z.of_N (latency E (CallLoadChunk c)) + callsLatency E c sent)
            (catalog s) (outputs s)
            (rev (map (evWrite c) sent) ++ EvLoadChunk c :: trace s) (held s) = s2).
  { unfold s2. cbn [rev]. rewrite <- app_assoc. reflexivity. }
  fold calls sent in Hstep. rewrite Hs2 in Hstep.
  destruct (checksWrites b) eqn:Hchk.
  - destruct (firstFault E c (map fst calls)) as [e |] eqn:Hf; cbn [outcome] in Hstep.
    + exact Hstep.
    + cbv zeta in Hstep. rewrite Hstep.
      assert (Hsent : sent = calls).
      { unfold sent. rewrite ?Hchk. apply sentCalls_all. rewrite Hf. reflexivity. }
      unfold passSample. fold calls. rewrite <- Hsent.
      rewrite !subMono_shift.
      destruct (add64 c 1 <? Z.of_nat (size (readings E))); reflexivity.
  - cbv zeta in Hstep. rewrite Hstep.
    assert (Hsent : sent = calls).
    { unfold sent. rewrite ?Hchk. apply sentCalls_all. reflexivity. }
    unfold passSample. fold calls. rewrite <- Hsent.
    rewrite !subMono_shift.
    destruct (add64 c 1 <? Z.of_nat (size (readings E))); reflexivity.
Qed.

Lemma add64_succ (c : Z) : 0 <= c < maxInt64 -> add64 c 1 = c + 1.
Proof.
  intros H. unfold add64. apply wrap64_fits. unfold fits64, minInt64, maxInt64 in *. lia.
Qed.

(** A loop that returns its results has made one pass per chunk of an
    initial segment of the chunk files, all of which decode. *)
Lemma ingestLoop_run (E : Env) (b : Backend) (fuel : nat) (c : Z) (r r' : BenchmarkResults)
    (n : Z) (s s' : State) :
  0 <= c -> c + Z.of_nat fuel <= maxInt64 ->
  ingestLoop E (writeOf E b) fuel c r n s = (Ok r', s') ->
  exists datas,
    (forall j data, datas !! j = Some data ->
       readings E !! chunkName (c + Z.of_nat j) = Some (Decodes data)) /\
    (0 < length datas)%nat /\
    Z.of_nat (size (readings E)) <= c + Z.of_nat (length datas) /\
    ((1 < length datas)%nat -> c + Z.of_nat (length datas) <= Z.of_nat (size (readings E))) /\
    readdir_error E = None /\
    added s s' (ingestEvents b c n datas) /\
    Ingestion r' = Ingestion r ++ ingestSamples E b c n datas /\
    (checksWrites b = true ->
     forall j data, datas !! j = Some data ->
                    firstFault E (c + Z.of_nat j) (writeOps b data) = None).
Proof.
  revert c r n s. induction fuel as [| fuel IH]; intros c r n s Hc Hfuel Hrun; [discriminate |].
  pose proof (ingestLoop_step E (writeOf E b) fuel c r n s) as Hstep.
  destruct (loadDataChunk E c s) as [[[hasNext data] [e |]] s1] eqn:Hload;
    [rewrite Hstep in Hrun; discriminate |].
  clear Hstep.
  apply loadDataChunk_ok in Hload as (Hfile & Hread & _).
  rewrite (ingestLoop_pass E b fuel c r n data s Hfile Hread) in Hrun. cbv zeta in Hrun.
  assert (Hsent : sentCalls E (checksWrites b) c (writeCalls b n data) = writeCalls b n data).
  { apply sentCalls_all. destruct (checksWrites b); [| reflexivity].
    destruct (firstFault E c (map fst (writeCalls b n data))); [discriminate | reflexivity]. }
  rewrite Hsent in Hrun.
  destruct (if checksWrites b then firstFault E c (map fst (writeCalls b n data)) else None)
    eqn:Hfault; [discriminate |].
  rewrite writeCalls_ops in Hfault.
  rewrite add64_succ in Hrun by lia.
  destruct (Z.ltb_spec (c + 1) (Z.of_nat (size (readings E)))) as [Hmore | Hlast].
  - apply IH in Hrun as (datas & Hfiles & Hlen & Hsize & Hsize' & _ & Hadd & Hing & Hnone); [| lia | lia].
    exists (data :: datas).
    split; [| split; [| split; [| split; [| split; [exact Hread | split; [| split]]]]]].
    + intros [| j] d Hj; cbn in Hj.
      * inversion Hj; subst. rewrite Z.add_0_r. exact Hfile.
      * apply Hfiles in Hj. rewrite <- Hj. f_equal. f_equal. lia.
    + cbn [length]. lia.
    + cbn [length]. lia.
    + cbn [length]. intros _. destruct (Nat.eq_dec (length datas) 1%nat); lia.
    + cbn [ingestEvents]. unfold added in *. rewrite Hadd. cbn [trace].
      unfold passEvents. rewrite rev_app_distr, <- app_assoc. reflexivity.
    + rewrite Hing. cbn [appendIngestion Ingestion ingestSamples].
      rewrite <- app_assoc. reflexivity.
    + intros Hchk [| j] d Hj; cbn in Hj.
      * inversion Hj; subst. rewrite Z.add_0_r. rewrite Hchk in Hfault. exact Hfault.
      * rewrite <- (Hnone Hchk j d Hj). f_equal. lia.
  - inversion Hrun; subst. exists [data].
    split; [| split; [| split; [| split; [| split; [exact Hread | split; [| split]]]]]].
    + intros [| j] d Hj; cbn in Hj; [| discriminate].
      inversion Hj; subst. rewrite Z.add_0_r. exact Hfile.
    + cbn. lia.
    + cbn [length]. lia.
    + cbn [length]. lia.
    + cbn [ingestEvents]. unfold added. cbn [trace]. unfold passEvents.
      rewrite app_nil_r. reflexivity.
    + reflexivity.
    + intros Hchk [| j] d Hj; cbn in Hj; [| discriminate].
      inversion Hj; subst. rewrite Z.add_0_r. rewrite Hchk in Hfault. exact Hfault.
Qed.

Lemma chunkDir_lookup_inv (chunks : list ReadingFile) (name : string) (f : ChunkFile) :
  chunkDir chunks !! name = Some f ->
  exists i data, chunks !! i = Some data /\ name = chunkName (Z.of_nat i) /\ f = Decodes data.
Proof.
  unfold chunkDir. intros H.
  apply elem_of_list_to_map in H; [| apply chunkDir_NoDup].
  apply elem_of_lookup_imap in H as (i & data & Heq & Hi).
  inversion Heq; subst. eauto.
Qed.

(** An ingestion that completes has read a directory that holds the chunk
    files [readings_0.json] ... [readings_(K-1).json] and nothing else, and
    has made one pass per chunk. *)
Lemma ingest_run (E : Env) (b : Backend) (r : BenchmarkResults) (s s' : State) :
  dirFits E ->
  ingest E (writeOf E b) s = (Ok r, s') ->
  exists chunks,
    readings E = chunkDir chunks /\ chunks <> [] /\ readdir_error E = None /\
    added s s' (ingestEvents b 0 0 chunks) /\
    Ingestion r = ingestSamples E b 0 0 chunks /\
    (checksWrites b = true ->
     forall j data, chunks !! j = Some data ->
                    firstFault E (Z.of_nat j) (writeOps b data) = None).
Proof.
  unfold dirFits, ingest. intros Hfit Hrun.
  apply ingestLoop_run in Hrun
    as (chunks & Hfiles & Hlen & Hsize & Hsize' & Hread & Hadd & Hing & Hnone);
    [| lia | lia].
  exists chunks.
  split; [| split; [| split; [exact Hread | split; [exact Hadd | split; [exact Hing |]]]]].
  - symmetry. apply map_subseteq_size_eq.
    + apply map_subseteq_spec. intros name f Hf.
      apply chunkDir_lookup_inv in Hf as (i & data & Hi & -> & ->).
      apply Hfiles in Hi. exact Hi.
    + rewrite chunkDir_size.
      lia.
  - intros ->. cbn in Hlen. lia.
  - intros Hchk j data Hj. apply (Hnone Hchk j data Hj).
Qed.
(** ** The rows of the passes *)

Lemma rowsWritten_app (l1 l2 : list Event) :
  rowsWritten (l1 ++ l2) = rowsWritten l1 ++ rowsWritten l2.
Proof. unfold rowsWritten. apply flat_map_app. Qed.

Lemma rowsWritten_calls (chunk : Z) (calls : list (WriteOp * list Row)) :
  rowsWritten (map (evWrite chunk) calls) = flat_map snd calls.
Proof.
  induction calls as [| [op rows] calls IH]; [reflexivity |].
  unfold rowsWritten in *. cbn [map flat_map evWrite fst snd]. rewrite IH. reflexivity.
Qed.

Lemma flat_map_imap_row (op : nat -> WriteOp) (row : nat -> Reading -> Row) (l : list Reading) :
  flat_map snd (imap (fun i reading => (op i, [row i reading])) l) = imap row l.
Proof.
  revert op row. induction l as [| reading l IH]; intros op row; [reflexivity |].
  cbn [imap flat_map snd app]. f_equal. apply (IH (op ∘ S) (row ∘ S)).
Qed.

Lemma writeCalls_rows (b : Backend) (n : Z) (data : ReadingFile) :
  flat_map snd (writeCalls b n data) =
  match b with
  | ClickHouse => imap (rowWithId n) (Response data)
  | _ => map rowOf (Response data)
  end.
Proof.
  destruct b; cbn [writeCalls flat_map snd app]; rewrite ?app_nil_r; try reflexivity.
  - rewrite flat_map_app, (flat_map_imap_row LineAt (fun _ => rowOf)). cbn.
    rewrite app_nil_r. apply imap_const.
  - rewrite flat_map_app, (flat_map_imap_row WritePoint (fun _ => rowOf)). cbn.
    rewrite app_nil_r. apply imap_const.
  - rewrite flat_map_app, (flat_map_imap_row StmtExec (rowWithId n)). cbn.
    rewrite app_nil_r. reflexivity.
Qed.

Lemma passEvents_rows (b : Backend) (c n : Z) (data : ReadingFile) :
  map eraseId (rowsWritten (passEvents b c n data)) = map rowOf (Response data).
Proof.
  unfold passEvents.
  change (rowsWritten (EvLoadChunk c :: ?l)) with (rowsWritten l).
  rewrite rowsWritten_calls, writeCalls_rows.
  destruct b; try (rewrite map_map; apply map_ext; intros []; reflexivity).
  assert (H : forall row : nat -> Reading -> Row,
             (forall i x, eraseId (row i x) = rowOf x) ->
             map eraseId (imap row (Response data)) = map rowOf (Response data)).
  { induction (Response data) as [| x l IH]; intros row' Hrow'; [reflexivity |].
    cbn [imap map]. rewrite Hrow'. f_equal. apply IH. intros i y. apply Hrow'. }
  apply H. intros i x. reflexivity.
Qed.

Lemma ingestEvents_rows (b : Backend) (c n : Z) (datas : list ReadingFile) :
  map eraseId (rowsWritten (ingestEvents b c n datas)) = map rowOf (allReadings datas).
Proof.
  revert c n. induction datas as [| data datas IH]; intros c n; [reflexivity |].
  cbn [ingestEvents allReadings flat_map].
  rewrite rowsWritten_app, !map_app, passEvents_rows, IH. reflexivity.
Qed.

Lemma rowWithId_id (n : Z) (i : nat) (reading : Reading) :
  0 <= n -> n + Z.of_nat i < maxInt64 ->
  row_id (rowWithId n i reading) = Some (n + Z.of_nat i + 1).
Proof.
  intros Hn Hi. unfold rowWithId. cbn [row_id]. f_equal.
  unfold add64.
  rewrite (wrap64_fits (n + Z.of_nat i)) by (unfold fits64, minInt64, maxInt64 in *; lia).
  rewrite wrap64_fits by (unfold fits64, minInt64, maxInt64 in *; lia).
  apply Z.mod_small. unfold maxInt64 in *. lia.
Qed.

(** The ids ClickHouse is given count on from one pass to the next. *)
Lemma ingestEvents_ids (c n : Z) (datas : list ReadingFile) :
  0 <= n -> n + Z.of_nat (length (allReadings datas)) <= maxInt64 ->
  map row_id (rowsWritten (ingestEvents ClickHouse c n datas)) =
  map (fun k => Some (n + Z.of_nat k)) (seq 1 (length (allReadings datas))).
Proof.
  revert c n. induction datas as [| data datas IH]; intros c n Hn Hfit; [reflexivity |].
  cbn [ingestEvents allReadings flat_map] in *.
  rewrite length_app in *. rewrite seq_app, !map_app, rowsWritten_app, map_app.
  f_equal.
  - unfold passEvents.
    change (rowsWritten (EvLoadChunk c :: ?l)) with (rowsWritten l).
    rewrite rowsWritten_calls, writeCalls_rows.
    assert (H : forall (l : list Reading) (i : nat),
               (i + length l <= length (Response data))%nat ->
               map row_id (imap (fun j => rowWithId n (i + j)) l) =
               map (fun k => Some (n + Z.of_nat k)) (seq (S i) (length l))).
    { induction l as [| x l IHl]; intros i Hi; [reflexivity |].
      cbn [imap map length seq] in *. rewrite Nat.add_0_r. f_equal.
      - rewrite rowWithId_id by lia. f_equal. lia.
      - rewrite <- (IHl (S i)) by lia. f_equal. apply imap_ext. intros j y _. cbn.
        f_equal. lia. }
    apply (H (Response data) 0%nat). lia.
  - assert (Hlen : add64 n (len (Response data)) = n + Z.of_nat (length (Response data))).
    { unfold add64, len. apply wrap64_fits. unfold fits64, minInt64, maxInt64 in *. lia. }
    rewrite Hlen, IH by (unfold allReadings; lia).
    unfold allReadings.
    replace (1 + length (Response data))%nat with (length (Response data) + 1)%nat by lia.
    rewrite <- fmap_add_seq.
    change (map ?f (?g <$> ?l)) with (map f (map g l)).
    rewrite map_map. apply map_ext. intros k. f_equal. lia.
Qed.

(** ** The loop over the chunk directory *)

Lemma countAfter_cons (n : Z) (data : ReadingFile) (datas : list ReadingFile) :
  countAfter n (data :: datas) = countAfter (add64 n (len (Response data))) datas.
Proof. reflexivity. Qed.

(** Passes over chunks that decode, whose writes are accepted and after
    which the directory has more entries: the loop goes on. *)
Lemma ingestLoop_prefix (E : Env) (b : Backend) (datas : list ReadingFile) (fuel : nat)
    (c : Z) (r : BenchmarkResults) (n : Z) (s : State) :
  (forall j data, datas !! j = Some data ->
     readings E !! chunkName (c + Z.of_nat j) = Some (Decodes data) /\
     (checksWrites b = true -> firstFault E (c + Z.of_nat j) (writeOps b data) = None)) ->
  readdir_error E = None ->
  0 <= c -> c + Z.of_nat (length datas) < Z.of_nat (size (readings E)) -> dirFits E ->
  exists s',
    added s s' (ingestEvents b c n datas) /\
    outputs s' = outputs s /\ catalog s' = catalog s /\ held s' = held s /\
    ingestLoop E (writeOf E b) (length datas + fuel) c r n s =
    ingestLoop E (writeOf E b) fuel (c + Z.of_nat (length datas))
      (mkResults (DbType r) (Ingestion r ++ ingestSamples E b c n datas) (Queries r))
      (countAfter n datas) s'.
Proof.
  unfold dirFits. intros Hfiles Hread Hc Hsize Hfit.
  revert c r n s Hfiles Hc Hsize.
  induction datas as [| data datas IH]; intros c r n s Hfiles Hc Hsize.
  - exists s. cbn [length ingestEvents ingestSamples countAfter fold_left Nat.add].
    rewrite app_nil_r, Z.add_0_r. destruct r. repeat split; reflexivity.
  - cbn [length] in Hsize.
    destruct (Hfiles 0%nat data eq_refl) as (Hfile & Hok). rewrite Z.add_0_r in Hfile, Hok.
    cbn [length Nat.add].
    rewrite (ingestLoop_pass E b _ c r n data s Hfile Hread). cbv zeta.
    assert (Hnone : (if checksWrites b then firstFault E c (map fst (writeCalls b n data))
                     else None) = None).
    { rewrite writeCalls_ops. destruct (checksWrites b); [apply Hok |]; reflexivity. }
    rewrite Hnone.
    rewrite sentCalls_all
      by (rewrite writeCalls_ops; destruct (checksWrites b); [rewrite Hok |]; reflexivity).
    rewrite add64_succ by lia.
    destruct (Z.ltb_spec (c + 1) (Z.of_nat (size (readings E)))) as [_ | Hlast]; [| lia].
    match goal with
    | |- context [ingestLoop _ _ _ (c + 1) ?r1 ?n1 ?s1] =>
        destruct (IH (c + 1) r1 n1 s1) as (s' & Hadd & Ho & Hcat & Hheld & Hrun)
    end.
    + intros j d Hj. specialize (Hfiles (S j) d Hj).
      replace (c + 1 + Z.of_nat j) with (c + Z.of_nat (S j)) by lia. exact Hfiles.
    + lia.
    + lia.
    + exists s'. rewrite Hrun. cbn [appendIngestion DbType Ingestion Queries] in *.
      cbn [outputs catalog held] in Ho, Hcat, Hheld.
      split; [| split; [exact Ho | split; [exact Hcat | split; [exact Hheld |]]]].
      * unfold added in *. rewrite Hadd. cbn [trace ingestEvents]. unfold passEvents.
        rewrite rev_app_distr, <- app_assoc. reflexivity.
      * cbn [ingestSamples]. rewrite countAfter_cons, <- app_assoc. cbn [app].
        f_equal. lia.
Qed.
Lemma chunkDir_lookup_None (chunks : list ReadingFile) (i : nat) :
  (length chunks <= i)%nat -> chunkDir chunks !! chunkName (Z.of_nat i) = None.
Proof.
  intros Hi. destruct (chunkDir chunks !! chunkName (Z.of_nat i)) as [f |] eqn:Hf; [| reflexivity].
  apply chunkDir_lookup_inv in Hf as (i' & d & Hi' & Hname & _).
  apply chunkName_inj, Nat2Z.inj in Hname. subst i'.
  apply lookup_lt_Some in Hi'. lia.
Qed.

(** Over a directory of chunk files whose writes are accepted the
    ingestion loop returns its results. *)
Lemma ingest_ok (E : Env) (b : Backend) (chunks : list ReadingFile) (s : State) :
  readings E = chunkDir chunks -> chunks <> [] -> readdir_error E = None -> dirFits E ->
  writesAccepted E b chunks ->
  exists r s', ingest E (writeOf E b) s = (Ok r, s').
Proof.
  intros Hdir Hne Hread Hfit Hacc.
  assert (Hsize : size (readings E) = length chunks) by (rewrite Hdir; apply chunkDir_size).
  destruct (exists_last Hne) as (init & last & Hchunks).
  assert (Hlen : length chunks = S (length init))
    by (rewrite Hchunks, length_app; cbn; lia).
  destruct (ingestLoop_prefix E b init 2 0 emptyResults 0 s) as (s1 & _ & _ & _ & _ & Hrun).
  - intros j data Hj. rewrite Z.add_0_l. split.
    + rewrite Hdir. apply chunkDir_lookup. rewrite Hchunks. apply lookup_app_l_Some, Hj.
    + intros Hchk. apply (Hacc Hchk). rewrite Hchunks. apply lookup_app_l_Some, Hj.
  - exact Hread.
  - lia.
  - lia.
  - exact Hfit.
  - unfold ingest. rewrite Hsize, Hlen.
    replace (S (S (length init))) with (length init + 2)%nat by lia.
    rewrite Hrun. rewrite Z.add_0_l.
    assert (Hlast : chunks !! length init = Some last).
    { rewrite Hchunks. rewrite lookup_app_r by lia. rewrite Nat.sub_diag. reflexivity. }
    assert (Hfile : readings E !! chunkName (Z.of_nat (length init)) = Some (Decodes last))
      by (rewrite Hdir; apply chunkDir_lookup, Hlast).
    rewrite (ingestLoop_pass E b 1 _ _ _ last s1 Hfile Hread). cbv zeta.
    assert (Hnone : forall n, (if checksWrites b
                     then firstFault E (Z.of_nat (length init)) (map fst (writeCalls b n last))
                     else None) = None).
    { intros n. rewrite writeCalls_ops. destruct (checksWrites b) eqn:Hchk; [| reflexivity].
      apply (Hacc Hchk), Hlast. }
    rewrite Hnone.
    unfold dirFits in Hfit. rewrite add64_succ by lia.
    destruct (Z.ltb_spec (Z.of_nat (length init) + 1) (Z.of_nat (size (readings E))));
      [lia |].
    eauto.
Qed.

(** Over a directory that holds the chunk files and one more entry the
    loop makes its pass over every chunk, then looks for one more chunk
    file, and returns the error of [os.Open]. *)
Lemma ingest_stray (E : Env) (b : Backend) (chunks : list ReadingFile) (name : string)
    (f : ChunkFile) (s : State) :
  readings E = <[name := f]> (chunkDir chunks) ->
  chunkDir chunks !! name = None ->
  name <> chunkName (Z.of_nat (length chunks)) ->
  readdir_error E = None -> dirFits E ->
  writesAccepted E b chunks ->
  exists s',
    ingest E (writeOf E b) s = (Err (noSuchChunk (Z.of_nat (length chunks))), s') /\
    added s s' (ingestEvents b 0 0 chunks ++ [EvLoadChunk (Z.of_nat (length chunks))]) /\
    outputs s' = outputs s.
Proof.
  intros Hdir Hfresh Hname Hread Hfit Hacc.
  assert (Hsize : size (readings E) = S (length chunks)).
  { rewrite Hdir, map_size_insert_None by exact Hfresh. rewrite chunkDir_size. reflexivity. }
  assert (Hlook : forall j data, chunks !! j = Some data ->
                    readings E !! chunkName (Z.of_nat j) = Some (Decodes data)).
  { intros j data Hj. rewrite Hdir. apply chunkDir_lookup in Hj.
    rewrite lookup_insert_ne; [exact Hj |]. intros ->. congruence. }
  destruct (ingestLoop_prefix E b chunks 2 0 emptyResults 0 s) as (s1 & Hadd & Ho & _ & _ & Hrun).
  - intros j data Hj. rewrite Z.add_0_l. split; [apply Hlook, Hj |].
    intros Hchk. apply (Hacc Hchk), Hj.
  - exact Hread.
  - lia.
  - lia.
  - exact Hfit.
  - unfold ingest. rewrite Hsize.
    replace (S (S (length chunks))) with (length chunks + 2)%nat by lia.
    rewrite Hrun, Z.add_0_l. cbn [ingestLoop]. unfold loadDataChunk.
    assert (Hnone : readings E !! chunkName (Z.of_nat (length chunks)) = None).
    { rewrite Hdir, lookup_insert_ne by exact Hname. apply chunkDir_lookup_None. lia. }
    rewrite Hnone. eexists. split; [reflexivity |]. split.
    + unfold added in *. cbn [trace]. rewrite Hadd, rev_app_distr. reflexivity.
    + exact Ho.
Qed.

(** ** What the backend receives *)

Lemma callsLatency_ops (E : Env) (chunk : Z) (calls : list (WriteOp * list Row)) :
  callsLatency E chunk calls = opsLatency E chunk (map fst calls).
Proof.
  induction calls as [| call calls IH]; [reflexivity |].
  unfold callsLatency, opsLatency in *. cbn [fold_right map]. rewrite IH. reflexivity.
Qed.

Lemma opsLatency_nonneg (E : Env) (chunk : Z) (ops : list WriteOp) : 0 <= opsLatency E chunk ops.
Proof.
  induction ops as [| op ops IH]; unfold opsLatency in *; cbn [fold_right]; [lia |].
  pose proof (N2Z.is_nonneg (latency E (CallWrite chunk op))). lia.
Qed.

(** The milliseconds of an interval of [l] nanoseconds on the clock. *)
Lemma elapsed_ms (l : Z) :
  0 <= l ->
  0 <= Milliseconds (subMono l 0) /\
  (l <= maxInt64 -> Milliseconds (subMono l 0) = l / 1000000).
Proof.
  intros Hl. split; [apply measured_nonneg, Hl |].
  intros Hfit. unfold subMono, sub64.
  rewrite Z.sub_0_r, wrap64_fits by (unfold fits64, minInt64, maxInt64 in *; lia).
  destruct (Z.ltb_spec l 0), (Z.ltb_spec 0 l); cbn [andb]; try lia;
    unfold Milliseconds; rewrite div64_fits by (unfold fits64, minInt64, maxInt64 in *; lia);
    apply Z.quot_div_nonneg; lia.
Qed.

Lemma ingestSamples_lookup (E : Env) (b : Backend) (c n : Z) (datas : list ReadingFile)
    (j : nat) (data : ReadingFile) (sample : IngestionSample) :
  datas !! j = Some data ->
  ingestSamples E b c n datas !! j = Some sample ->
  exists n', sample = passSample E b (c + Z.of_nat j) n' data.
Proof.
  revert c n j. induction datas as [| d datas IH]; intros c n j Hj Hs; [discriminate |].
  destruct j as [| j]; cbn in Hj, Hs.
  - inversion Hj; inversion Hs; subst. exists n. rewrite Z.add_0_r. reflexivity.
  - destruct (IH _ _ _ Hj Hs) as (n' & ->). exists n'. f_equal. lia.
Qed.

Lemma length_ingestSamples (E : Env) (b : Backend) (c n : Z) (datas : list ReadingFile) :
  length (ingestSamples E b c n datas) = length datas.
Proof.
  revert c n. induction datas as [| d datas IH]; intros c n; [reflexivity |].
  cbn [ingestSamples length]. rewrite IH. reflexivity.
Qed.

Lemma chunkDir_inj (l1 l2 : list ReadingFile) : chunkDir l1 = chunkDir l2 -> l1 = l2.
Proof.
  assert (H : forall l l' i d, chunkDir l = chunkDir l' -> l !! i = Some d -> l' !! i = Some d).
  { intros l l' i d Heq Hi. apply chunkDir_lookup in Hi. rewrite Heq in Hi.
    apply chunkDir_lookup_inv in Hi as (i' & d' & Hi' & Hname & Hd).
    apply chunkName_inj, Nat2Z.inj in Hname. inversion Hd. subst. exact Hi'. }
  intros Heq. apply list_eq. intros i.
  destruct (l1 !! i) as [d |] eqn:H1.
  - symmetry. apply (H l1 l2 i d Heq H1).
  - destruct (l2 !! i) as [d |] eqn:H2; [| reflexivity].
    rewrite (H l2 l1 i d (eq_sym Heq) H2) in H1. discriminate.
Qed.

(** Every reading of every chunk is handed to the backend exactly once, in
    the order of the files: the rows of the write calls of a completed
    ingestion loop, the ClickHouse ids left aside, are the readings of the
    chunk files [readings_0.json], [readings_1.json], ... one after the
    other. *)
Theorem readings_written_once (E : Env) (b : Backend) (r : BenchmarkResults) (s s' : State) :
  dirFits E ->
  ingest E (writeOf E b) s = (Ok r, s') ->
  exists chunks evs,
    readings E = chunkDir chunks /\
    events s' = events s ++ evs /\
    map eraseId (rowsWritten evs) = map rowOf (allReadings chunks).
Proof.
  intros Hfit Hrun.
  destruct (ingest_run E b r s s' Hfit Hrun) as (chunks & Hdir & _ & _ & Hadd & _).
  exists chunks, (ingestEvents b 0 0 chunks).
  split; [exact Hdir |]. split; [| apply ingestEvents_rows].
  unfold events. rewrite Hadd, rev_app_distr, rev_involutive. reflexivity.
Qed.

Lemma readings_written_once_witness :
  let run := ingest quietEnv (writeOf quietEnv QuestDb) freshState in
  exists evs,
    events (snd run) = events freshState ++ evs /\
    map eraseId (rowsWritten evs) = map rowOf (allReadings twoChunks).
Proof.
  intros run.
  destruct (readings_written_once quietEnv QuestDb
              (match fst run with Ok r => r | _ => emptyResults end) freshState (snd run))
    as (chunks & evs & Hdir & Hev & Hrows).
  - vm_compute. reflexivity.
  - vm_compute. reflexivity.
  - assert (Hq : readings quietEnv = chunkDir twoChunks) by reflexivity.
    rewrite Hq in Hdir. apply chunkDir_inj in Hdir. subst chunks.
    exists evs. split; assumption.
Defined.

(** The ids [benchmarkClickHouse] gives its rows count on from chunk to
    chunk: over the whole run they are 1, 2, ..., N in the order of the
    readings, when N, the number of readings, fits an [int]. *)
Theorem clickhouse_row_ids (E : Env) (r : BenchmarkResults) (s s' : State) :
  dirFits E ->
  ingest E (writeOf E ClickHouse) s = (Ok r, s') ->
  exists chunks evs,
    readings E = chunkDir chunks /\
    events s' = events s ++ evs /\
    (Z.of_nat (length (allReadings chunks)) <= maxInt64 ->
     map row_id (rowsWritten evs) =
     map (fun k => Some (Z.of_nat k)) (seq 1 (length (allReadings chunks)))).
Proof.
  intros Hfit Hrun.
  destruct (ingest_run E ClickHouse r s s' Hfit Hrun) as (chunks & Hdir & _ & _ & Hadd & _).
  exists chunks, (ingestEvents ClickHouse 0 0 chunks).
  split; [exact Hdir |]. split.
  - unfold events. rewrite Hadd, rev_app_distr, rev_involutive. reflexivity.
  - intros Hn. rewrite ingestEvents_ids by lia. apply map_ext. intros k. reflexivity.
Qed.

Lemma clickhouse_row_ids_witness :
  let run := ingest quietEnv (writeOf quietEnv ClickHouse) freshState in
  exists evs,
    events (snd run) = events freshState ++ evs /\
    map row_id (rowsWritten evs) = [Some 1; Some 2; Some 3; Some 4; Some 5].
Proof.
  intros run.
  destruct (clickhouse_row_ids quietEnv (match fst run with Ok r => r | _ => emptyResults end)
              freshState (snd run)) as (chunks & evs & Hdir & Hev & Hids).
  - vm_compute. reflexivity.
  - vm_compute. reflexivity.
  - assert (Hq : readings quietEnv = chunkDir twoChunks) by reflexivity.
    rewrite Hq in Hdir. apply chunkDir_inj in Hdir. subst chunks.
    exists evs. split; [exact Hev |]. apply Hids. vm_compute. discriminate.
Defined.

(** The duration of an ingestion sample is the time of the write calls of
    its chunk alone, in whole milliseconds: reading and decoding the chunk
    file is not in it.  It is never negative. *)
Theorem ingestion_durations (E : Env) (b : Backend) (r : BenchmarkResults) (s s' : State) :
  dirFits E ->
  ingest E (writeOf E b) s = (Ok r, s') ->
  exists chunks,
    readings E = chunkDir chunks /\
    length (Ingestion r) = length chunks /\
    forall j data sample,
      chunks !! j = Some data -> Ingestion r !! j = Some sample ->
      let l := opsLatency E (Z.of_nat j) (writeOps b data) in
      0 <= IngestDurationMs sample /\
      (l <= maxInt64 -> IngestDurationMs sample = l / 1000000).
Proof.
  intros Hfit Hrun.
  destruct (ingest_run E b r s s' Hfit Hrun) as (chunks & Hdir & _ & _ & _ & Hing & _).
  exists chunks. split; [exact Hdir |]. split.
  - rewrite Hing. apply length_ingestSamples.
  - intros j data sample Hj Hs l. rewrite Hing in Hs.
    destruct (ingestSamples_lookup E b 0 0 chunks j data sample Hj Hs) as (n' & ->).
    unfold passSample. cbn [IngestDurationMs].
    rewrite callsLatency_ops, writeCalls_ops, Z.add_0_l. fold l.
    apply elapsed_ms, opsLatency_nonneg.
Qed.

Lemma ingestion_durations_witness :
  let run := ingest quietEnv (writeOf quietEnv ClickHouse) freshState in
  exists r, fst run = Ok r /\ map IngestDurationMs (Ingestion r) = [9; 7].
Proof.
  intros run.
  destruct (ingestion_durations quietEnv ClickHouse
              (match fst run with Ok r => r | _ => emptyResults end) freshState (snd run))
    as (chunks & Hdir & Hlen & Hd).
  - vm_compute. reflexivity.
  - vm_compute. reflexivity.
  - eexists. split; [vm_compute; reflexivity |]. vm_compute. reflexivity.
Defined.

(** ** The chunk directory decides *)

(** The ingestion loop returns its results exactly over a directory that
    lists without error and holds the chunk files [readings_0.json] ...
    [readings_(K-1).json], K at least 1, all of which decode, and nothing
    else, when no write call returns an error the adapter checks. *)
Theorem ingestion_completes_iff (E : Env) (b : Backend) (s : State) :
  dirFits E ->
  ((exists r s', ingest E (writeOf E b) s = (Ok r, s')) <->
   (readdir_error E = None /\
    exists chunks,
      chunks <> [] /\ readings E = chunkDir chunks /\ writesAccepted E b chunks)).
Proof.
  intros Hfit. split.
  - intros (r & s' & Hrun).
    destruct (ingest_run E b r s s' Hfit Hrun) as (chunks & Hdir & Hne & Hread & _ & _ & Hacc).
    split; [exact Hread |]. exists chunks. split; [exact Hne |]. split; [exact Hdir |].
    exact Hacc.
  - intros (Hread & chunks & Hne & Hdir & Hacc).
    apply (ingest_ok E b chunks s Hdir Hne Hread Hfit Hacc).
Qed.

Lemma ingestion_completes_iff_witness :
  (exists r s', ingest quietEnv (writeOf quietEnv CrateDB) freshState = (Ok r, s')) /\
  ~ (exists r s', ingest strayEntryEnv (writeOf strayEntryEnv CrateDB) freshState = (Ok r, s')).
Proof.
  split.
  - apply (proj2 (ingestion_completes_iff quietEnv CrateDB freshState
                    ltac:(vm_compute; reflexivity))).
    split; [reflexivity |]. exists twoChunks.
    split; [discriminate |]. split; [reflexivity |]. intros _ j data _. reflexivity.
  - intros H.
    apply (proj1 (ingestion_completes_iff strayEntryEnv CrateDB freshState
                    ltac:(vm_compute; reflexivity))) in H.
    destruct H as (_ & chunks & _ & Hdir & _).
    assert (Hs : size (readings strayEntryEnv) = length chunks)
      by (rewrite Hdir; apply chunkDir_size).
    assert (H0 : readings strayEntryEnv !! ".DS_Store" = Some (Unreadable "is not a chunk"))
      by (vm_compute; reflexivity).
    rewrite Hdir in H0. apply chunkDir_lookup_inv in H0 as (i & d & _ & _ & Hd).
    discriminate.
Defined.

(** One entry too many in the chunk directory, whatever it is, makes every
    benchmark function fail, after every chunk has been written to the
    backend: the loop goes on after the last chunk, looks for a chunk file
    that is not there and returns the error of [os.Open]; no output file
    is written. *)
Theorem stray_entry_aborts (E : Env) (b : Backend) (chunks : list ReadingFile) (name : string)
    (f : ChunkFile) (connStr outFile : string) (s s1 : State) :
  readings E = <[name := f]> (chunkDir chunks) ->
  chunkDir chunks !! name = None ->
  name <> chunkName (Z.of_nat (length chunks)) ->
  readdir_error E = None -> dirFits E ->
  writesAccepted E b chunks ->
  setupOf E b connStr s = (Ok tt, s1) ->
  exists s' evs,
    benchmark E b connStr outFile s = (Err (noSuchChunk (Z.of_nat (length chunks))), s') /\
    outputs s' = outputs s /\
    events s' = events s1 ++ evs ++ [EvLoadChunk (Z.of_nat (length chunks))] /\
    map eraseId (rowsWritten evs) = map rowOf (allReadings chunks).
Proof.
  intros Hdir Hfresh Hname Hread Hfit Hacc Hsetup.
  destruct (ingest_stray E b chunks name f s1 Hdir Hfresh Hname Hread Hfit Hacc)
    as (s' & Hrun & Hadd & Ho).
  exists s', (ingestEvents b 0 0 chunks).
  split; [| split; [| split]].
  - rewrite benchmark_phases, (bind_Ok_l _ _ _ _ _ Hsetup). apply bind_Err_l, Hrun.
  - pose proof (setupOf_outputs E b connStr s) as Hs. rewrite Hsetup in Hs. cbn [snd] in Hs.
    congruence.
  - unfold events. rewrite Hadd, rev_app_distr, rev_involutive. reflexivity.
  - apply ingestEvents_rows.
Qed.

Lemma stray_entry_aborts_witness :
  exists s',
    benchmark strayEntryEnv Postgres "postgres://bench" "out.json" freshState =
    (Err "open ../data/readings/readings_2.json: no such file or directory", s') /\
    outputs s' = outputs freshState.
Proof.
  destruct (stray_entry_aborts strayEntryEnv Postgres twoChunks ".DS_Store"
              (Unreadable "is not a chunk") "postgres://bench" "out.json" freshState
              (snd (setupOf strayEntryEnv Postgres "postgres://bench" freshState)))
    as (s' & evs & Hrun & Ho & _).
  - reflexivity.
  - vm_compute. reflexivity.
  - vm_compute. discriminate.
  - reflexivity.
  - vm_compute. reflexivity.
  - intros _ j data _. reflexivity.
  - vm_compute. reflexivity.
  - exists s'. split; [exact Hrun | exact Ho].
Defined.

(** [benchmarkInfluxDB] returns no error of its backend: over a directory
    of chunk files, and with an output file that can be written, it returns
    [nil] whatever the write and the query calls answer. *)
Theorem influx_never_fails (E : Env) (chunks : list ReadingFile) (connStr outFile : string)
    (s : State) :
  readings E = chunkDir chunks -> chunks <> [] -> readdir_error E = None -> dirFits E ->
  fault E (CallCreate outFile) = None -> fault E (CallEncode outFile) = None ->
  exists r s',
    benchmark E InfluxDB connStr outFile s = (Ok tt, s') /\
    outputs s' = <[outFile := Json r]> (outputs s) /\
    length (Ingestion r) = length chunks /\ length (Queries r) = 20%nat.
Proof.
  intros Hdir Hne Hread Hfit Hcreate Hencode.
  destruct (ingest_ok E InfluxDB chunks s Hdir Hne Hread Hfit) as (r0 & s1 & Hingest);
    [intros Hchk; discriminate |].
  destruct (queriesInfluxDB_total E r0 s1) as (r1 & s2 & Hq).
  destruct (writeResults_spec E "influxdb" outFile r1 s2) as (s' & _ & Hw).
  rewrite Hcreate, Hencode in Hw. destruct Hw as (Hw & Hout).
  exists (setDbType r1 "influxdb"), s'.
  assert (Hrun : benchmark E InfluxDB connStr outFile s = (Ok tt, s')).
  { cbn [benchmark]. unfold benchmarkInfluxDB.
    rewrite (bind_Ok_l _ _ _ _ _ Hingest), (bind_Ok_l _ _ _ _ _ Hq). exact Hw. }
  split; [exact Hrun |].
  pose proof (ingest_outputs E InfluxDB s) as Ho1. rewrite Hingest in Ho1. cbn [snd] in Ho1.
  pose proof (queriesOf_outputs E InfluxDB r0 s1) as Ho2. cbn [queriesOf] in Ho2.
  rewrite Hq in Ho2. cbn [snd] in Ho2.
  split; [rewrite Hout; congruence |].
  cbn [setDbType Ingestion Queries].
  pose proof Hq as Hq'. rewrite queriesInfluxDB_plan in Hq'.
  apply runSteps_Ok in Hq' as (_ & _ & _ & _ & _ & Hing & qs & Hqs & Hall).
  split.
  - rewrite Hing. apply (ingest_passes E InfluxDB chunks r0 s s1 Hdir Hread); [| exact Hingest].
    unfold dirFits in Hfit. rewrite Hdir, chunkDir_size in Hfit. exact Hfit.
  - pose proof (ingestLoop_frame E _ (writeOf_frame E InfluxDB) (S (size (readings E))) 0
                  emptyResults 0 s) as (res & s1' & Hrun' & _ & _ & Hfr).
    unfold ingest in Hingest. rewrite Hingest in Hrun'. inversion Hrun'; subst.
    destruct (Hfr r0 eq_refl) as (_ & Hq0). cbn [emptyResults Queries] in Hq0.
    rewrite Hqs, Hq0. cbn [app].
    apply (plan_entries E InfluxDB) in Hall. apply Forall2_length in Hall.
    rewrite <- Hall. reflexivity.
Qed.

Lemma influx_never_fails_witness :
  exists r s',
    benchmark downEnv InfluxDB "http://localhost:8086" "out.json" freshState = (Ok tt, s') /\
    outputs s' = <["out.json" := Json r]> (outputs freshState) /\
    length (Ingestion r) = 2%nat /\ length (Queries r) = 20%nat.
Proof.
  apply (influx_never_fails downEnv twoChunks "http://localhost:8086" "out.json" freshState).
  - reflexivity.
  - discriminate.
  - reflexivity.
  - vm_compute. reflexivity.
  - reflexivity.
  - reflexivity.
Defined.

(** ** [main] (lines 2593-2631) *)

Lemma backendOf_dbTypeOf (dbType : string) (b : Backend) :
  backendOf dbType = Some b -> dbTypeOf b = dbType.
Proof.
  unfold backendOf. intros H. apply find_some in H as [_ H].
  apply String.eqb_eq in H. congruence.
Qed.

Lemma dispatch_backend (E : Env) (connStr outputFile dbType : string) (s : State) :
  dispatch E connStr outputFile dbType s =
  match backendOf dbType with
  | Some b => benchmark E b connStr outputFile s
  | None => (Err ("Unsupported database type: " +:+ dbType), s)
  end.
Proof.
  unfold dispatch, backendOf. cbn [find dbTypeOf].
  repeat (destruct (String.eqb dbType _); [reflexivity |]).
  reflexivity.
Qed.

(** [main] with a flag left empty prints the usage and runs nothing; with
    the three flags given it runs the benchmark function whose database
    type is the [-type] flag, letter for letter, and panics with the error
    that function returns; for any other type it panics without a call to
    any backend.  The output file of a run that returns carries the flag as
    its [db_type]. *)
Theorem main_dispatch (E : Env) (connStr outputFile dbType : string) (s : State) :
  (connStr = EmptyString \/ dbType = EmptyString \/ outputFile = EmptyString ->
   main E connStr outputFile dbType s = (Ok Usage, s)) /\
  (connStr <> EmptyString -> dbType <> EmptyString -> outputFile <> EmptyString ->
   (forall b, dbTypeOf b = dbType ->
      main E connStr outputFile dbType s =
      match benchmark E b connStr outputFile s with
      | (Ok _, s') => (Ok Returned, s')
      | (Err e, s') => (Ok (Panicked e), s')
      | (OutOfFuel, s') => (OutOfFuel, s')
      | (Blocked, s') => (Blocked, s')
      end) /\
   ((forall b, dbTypeOf b <> dbType) ->
      main E connStr outputFile dbType s =
      (Ok (Panicked ("Unsupported database type: " +:+ dbType)), s)) /\
   (forall s', main E connStr outputFile dbType s = (Ok Returned, s') ->
      exists r, outputs s' !! outputFile = Some (Json r) /\ DbType r = dbType)).
Proof.
  split.
  - intros H. unfold main.
    destruct H as [-> | [-> | ->]]; cbn [String.eqb orb]; rewrite ?orb_true_r; reflexivity.
  - intros Hc Ht Ho.
    assert (Hmain : main E connStr outputFile dbType s =
                    match dispatch E connStr outputFile dbType s with
                    | (Ok _, s') => (Ok Returned, s')
                    | (Err e, s') => (Ok (Panicked e), s')
                    | (OutOfFuel, s') => (OutOfFuel, s')
                    | (Blocked, s') => (Blocked, s')
                    end).
    { unfold main.
      apply String.eqb_neq in Hc, Ht, Ho. rewrite Hc, Ht, Ho. reflexivity. }
    split; [| split].
    + intros b Hb. rewrite Hmain, dispatch_backend.
      assert (Hf : backendOf dbType = Some b) by (subst dbType; destruct b; reflexivity).
      rewrite Hf. reflexivity.
    + intros Hnone. rewrite Hmain, dispatch_backend.
      destruct (backendOf dbType) as [b |] eqn:Hb; [| reflexivity].
      apply backendOf_dbTypeOf in Hb. destruct (Hnone b Hb).
    + intros s' Hrun. rewrite Hmain, dispatch_backend in Hrun.
      destruct (backendOf dbType) as [b |] eqn:Hb; [| discriminate].
      apply backendOf_dbTypeOf in Hb.
      destruct (benchmark E b connStr outputFile s) as [[[] | e | |] s1] eqn:Hbench;
        try discriminate.
      inversion Hrun; subst s1.
      rewrite benchmark_phases in Hbench.
      apply bind_Ok in Hbench as (u & s1 & _ & Hbench).
      apply bind_Ok in Hbench as (r0 & s2 & _ & Hbench).
      apply bind_Ok in Hbench as (r1 & s3 & _ & Hbench).
      destruct (writeResults_spec E (dbTypeOf b) outputFile r1 s3) as (s4 & _ & Hw).
      destruct (fault E (CallCreate outputFile)); [destruct Hw; congruence |].
      destruct (fault E (CallEncode outputFile)); [destruct Hw; congruence |].
      destruct Hw as (Hw & Hout). rewrite Hw in Hbench. inversion Hbench; subst s4.
      exists (setDbType r1 (dbTypeOf b)). rewrite Hout, lookup_insert_eq.
      split; [reflexivity | exact Hb].
Qed.

Lemma main_dispatch_witness :
  main quietEnv EmptyString "out.json" "postgres" freshState = (Ok Usage, freshState) /\
  main quietEnv "postgres://bench" "out.json" "Postgres" freshState =
  (Ok (Panicked "Unsupported database type: Postgres"), freshState).
Proof.
  split.
  - apply (proj1 (main_dispatch quietEnv EmptyString "out.json" "postgres" freshState)).
    left. reflexivity.
  - apply (proj2 (main_dispatch quietEnv "postgres://bench" "out.json" "Postgres" freshState));
      try discriminate.
    intros b. destruct b; discriminate.
Defined.

(** [benchmarkInfluxDB] never looks at its connection string: the client
    is built for a fixed address.  [main] still wants the [-conn] flag:
    any two values of it that are not empty give the same run, and the
    empty one gives the usage text and no run. *)
Theorem influxdb_ignores_connection_string (E : Env) (connStr connStr' outputFile : string)
    (s : State) :
  connStr <> EmptyString -> connStr' <> EmptyString ->
  benchmark E InfluxDB connStr outputFile s = benchmark E InfluxDB connStr' outputFile s /\
  main E connStr outputFile "influxdb" s = main E connStr' outputFile "influxdb" s /\
  main E EmptyString outputFile "influxdb" s = (Ok Usage, s).
Proof.
  intros Hc Hc'. split; [reflexivity |]. split; [| reflexivity].
  unfold main. apply String.eqb_neq in Hc, Hc'. rewrite Hc, Hc'. reflexivity.
Qed.

Lemma influxdb_ignores_connection_string_witness :
  main quietEnv "http://influx:8086" "out.json" "influxdb" freshState =
  main quietEnv "not a url" "out.json" "influxdb" freshState.
Proof.
  apply (influxdb_ignores_connection_string quietEnv "http://influx:8086" "not a url"
           "out.json" freshState); discriminate.
Defined.

(** ** The pool and the result sets left open *)

Lemma poolFull_ge (E : Env) (n m : nat) :
  poolFull E n = true -> (n <= m)%nat -> poolFull E m = true.
Proof.
  unfold poolFull. destruct (max_conns E) as [limit |]; [| discriminate].
  rewrite !Nat.leb_le. lia.
Qed.

Lemma planOutcome_quiet (E : Env) (b : Backend) :
  b <> InfluxDB ->
  (forall k, In k allQueryIds -> fault E (CallQuery k 0) = None) ->
  planOutcome E 0 (planOf E b) =
  if poolFull E (heldBefore b 20) then Blocks else Runs.
Proof.
  intros Hb Hnone.
  destruct (poolFull E (heldBefore b 20)) eqn:Hpool.
  - assert (Hfull : forall m, (heldBefore b 20 <= m)%nat -> poolFull E m = true)
      by (intros m; apply poolFull_ge, Hpool).
    clear Hpool.
    destruct b; try congruence; cbn [planOf];
      unfold planPostgres, planSql, planQuestDb;
      destruct (time_bounds E) as [minTime maxTime];
      cbn [planOutcome stepOutcome heldAfter step7 step8];
      repeat match goal with
        | |- context [fault E (CallQuery ?j 0)] =>
            rewrite (Hnone j) by (cbn; tauto)
        end;
      repeat match goal with
        | |- context [poolFull E ?m] =>
            first [ rewrite (Hfull m) by (vm_compute; lia)
                  | destruct (poolFull E m) ]
        end; reflexivity.
  - pose proof (fun m => poolFull_le E (heldBefore b 20) m Hpool) as Hfree. clear Hpool.
    destruct b; try congruence; cbn [planOf];
      unfold planPostgres, planSql, planQuestDb;
      destruct (time_bounds E) as [minTime maxTime];
      cbn [planOutcome stepOutcome heldAfter step7 step8];
      repeat match goal with
        | |- context [poolFull E ?m] => rewrite (Hfree m) by (vm_compute; lia)
        | |- context [fault E (CallQuery ?j 0)] =>
            rewrite (Hnone j) by (cbn; tauto)
        end; reflexivity.
Qed.

(** The result sets that are never closed use the pool up.  In a run whose
    query calls all succeed, 3 queries of the PostgreSQL adapter and 8 of
    the other SQL adapters leave a connection held, and the last query
    starts with 3, respectively 7, of them gone: with a pool of no more
    connections than that, the run never returns and writes no output
    file, and with a larger pool, or one without a limit, it goes through
    the queries. *)
Theorem unclosed_rows_exhaust_pool (E : Env) (b : Backend) (connStr outFile : string)
    (s s1 s2 : State) (r0 : BenchmarkResults) :
  b <> InfluxDB ->
  setupOf E b connStr s = (Ok tt, s1) ->
  ingest E (writeOf E b) s1 = (Ok r0, s2) ->
  (forall k, In k allQueryIds -> fault E (CallQuery k 0) = None) ->
  heldBefore b 20 = (if runsQuery b 8 then 7%nat else 3%nat) /\
  (poolFull E (heldBefore b 20) = true ->
   exists s', benchmark E b connStr outFile s = (Blocked, s') /\ outputs s' = outputs s) /\
  (poolFull E (heldBefore b 20) = false ->
   fault E (CallCreate outFile) = None -> fault E (CallEncode outFile) = None ->
   exists s', benchmark E b connStr outFile s = (Ok tt, s')).
Proof.
  intros Hb Hsetup Hingest Hnone.
  split; [destruct b; try congruence; reflexivity |].
  destruct (pool_idle E b connStr s s1 r0 s2 Hb Hsetup Hingest) as (_ & Hidle).
  pose proof (planOutcome_quiet E b Hb Hnone) as Hplan.
  destruct (runSteps_spec E (planOf E b) r0 s2) as (s3 & _ & Hout & _ & Hrun).
  rewrite Hidle in Hrun.
  pose proof (setupOf_outputs E b connStr s) as Ho1. rewrite Hsetup in Ho1. cbn [snd] in Ho1.
  pose proof (ingest_outputs E b s1) as Ho2. rewrite Hingest in Ho2. cbn [snd] in Ho2.
  split; intros Hpool; rewrite Hpool in Hplan; rewrite Hplan in Hrun.
  - exists s3. split; [| congruence].
    rewrite benchmark_phases, (bind_Ok_l _ _ _ _ _ Hsetup), (bind_Ok_l _ _ _ _ _ Hingest).
    unfold bind at 1. rewrite queriesOf_plan, Hrun. reflexivity.
  - intros Hcreate Hencode.
    destruct Hrun as (_ & r1 & qs & Hrun & _).
    destruct (writeResults_spec E (dbTypeOf b) outFile r1 s3) as (s4 & _ & Hw).
    rewrite Hcreate, Hencode in Hw. destruct Hw as (Hw & _).
    exists s4.
    rewrite benchmark_phases, (bind_Ok_l _ _ _ _ _ Hsetup), (bind_Ok_l _ _ _ _ _ Hingest).
    unfold bind at 1. rewrite queriesOf_plan, Hrun. exact Hw.
Qed.

Lemma unclosed_rows_exhaust_pool_witness :
  exists s',
    benchmark fourConnEnv TimescaleDb "postgres://bench" "out.json" freshState = (Blocked, s') /\
    outputs s' = outputs freshState.
Proof.
  edestruct (unclosed_rows_exhaust_pool fourConnEnv TimescaleDb "postgres://bench" "out.json"
               freshState) as (_ & Hblock & _).
  - discriminate.
  - vm_compute. reflexivity.
  - vm_compute. reflexivity.
  - intros k _. reflexivity.
  - apply Hblock. reflexivity.
Defined.

(** ** The output file *)

Lemma writeResults_events (E : Env) (dbType outFile : string) (r : BenchmarkResults)
    (s : State) :
  events (snd (writeResults E dbType outFile r s)) =
  events s ++ match fault E (CallCreate outFile) with
              | Some _ => [EvCreate outFile]
              | None => [EvCreate outFile; EvEncode outFile]
              end.
Proof.
  cbv [writeResults bind emit try_call tick ret check fail setFile events
       clock catalog outputs trace held snd].
  destruct (fault E (CallCreate outFile)); [cbn [rev]; reflexivity |].
  destruct (fault E (CallEncode outFile)); cbn [rev]; rewrite <- app_assoc; reflexivity.
Qed.

(** A benchmark function touches one file, the output file, and only at
    its end.  A run that returns [nil] has left the result record there,
    with the database type of the adapter; a run that returns an error has
    left every file as it was, or, when the error is that of the encoder,
    has left the output file created and empty, whatever it held before; a
    run that does not return has written nothing. *)
Theorem output_file_only (E : Env) (b : Backend) (connStr outFile : string) (s s' : State)
    (res : Res unit) :
  benchmark E b connStr outFile s = (res, s') ->
  (forall path, path <> outFile -> outputs s' !! path = outputs s !! path) /\
  match res with
  | Ok _ =>
      exists r, outputs s' = <[outFile := Json r]> (outputs s) /\ DbType r = dbTypeOf b /\
                length (Queries r) = 20%nat
  | Err e =>
      outputs s' = outputs s \/
      (fault E (CallCreate outFile) = None /\ fault E (CallEncode outFile) = Some e /\
       outputs s' = <[outFile := Empty]> (outputs s))
  | _ => outputs s' = outputs s
  end.
Proof.
  rewrite benchmark_phases. intros Hrun.
  pose proof (setupOf_outputs E b connStr s) as Ho1.
  unfold bind at 1 in Hrun.
  destruct (setupOf E b connStr s) as [[u | e | |] s1]; cbn [snd] in Ho1;
    try (inversion Hrun; subst; split; [intros; congruence | first [congruence | left; congruence]]; fail).
  pose proof (ingest_outputs E b s1) as Ho2.
  unfold bind at 1 in Hrun.
  destruct (ingest E (writeOf E b) s1) as [[r0 | e | |] s2] eqn:Hingest; cbn [snd] in Ho2;
    try (inversion Hrun; subst; split; [intros; congruence | first [congruence | left; congruence]]; fail).
  pose proof (queriesOf_outputs E b r0 s2) as Ho3.
  unfold bind at 1 in Hrun.
  destruct (queriesOf E b r0 s2) as [[r1 | e | |] s3] eqn:Hq; cbn [snd] in Ho3;
    try (inversion Hrun; subst; split; [intros; congruence | first [congruence | left; congruence]]; fail).
  assert (Hout : outputs s3 = outputs s) by congruence.
  destruct (writeResults_spec E (dbTypeOf b) outFile r1 s3) as (s4 & _ & Hw).
  destruct (fault E (CallCreate outFile)) as [e1 |].
  { destruct Hw as (Hw & Ho). rewrite Hw in Hrun. inversion Hrun; subst.
    split; [intros; congruence | left; congruence]. }
  destruct (fault E (CallEncode outFile)) as [e2 |].
  { destruct Hw as (Hw & Ho). rewrite Hw in Hrun. inversion Hrun; subst.
    split; [intros path Hp; rewrite Ho, lookup_insert_ne by congruence; congruence |].
    right. split; [reflexivity |]. split; [reflexivity |]. congruence. }
  destruct Hw as (Hw & Ho). rewrite Hw in Hrun. inversion Hrun; subst.
  split; [intros path Hp; rewrite Ho, lookup_insert_ne by congruence; congruence |].
  exists (setDbType r1 (dbTypeOf b)). split; [congruence |]. split; [reflexivity |].
  cbn [setDbType Queries].
  rewrite queriesOf_plan in Hq.
  apply runSteps_Ok in Hq as (_ & _ & _ & _ & _ & _ & qs & Hqs & Hall).
  destruct (ingestLoop_frame E _ (writeOf_frame E b) (S (size (readings E))) 0 emptyResults 0 s1)
    as (res & s2' & Hrun' & _ & _ & Hfr).
  unfold ingest in Hingest. rewrite Hingest in Hrun'. inversion Hrun'; subst.
  destruct (Hfr r0 eq_refl) as (_ & Hq0). cbn [emptyResults Queries] in Hq0.
  rewrite Hqs, Hq0. cbn [app].
  apply (plan_entries E b) in Hall. apply Forall2_length in Hall.
  rewrite <- Hall. reflexivity.
Qed.

Lemma output_file_only_witness :
  exists r,
    outputs (snd (benchmark quietEnv CrateDB "postgres://crate" "out.json" freshState)) =
    <["out.json" := Json r]> (outputs freshState) /\
    DbType r = "cratedb" /\ length (Queries r) = 20%nat.
Proof.
  exact (proj2 (output_file_only quietEnv CrateDB "postgres://crate" "out.json" freshState
                  (snd (benchmark quietEnv CrateDB "postgres://crate" "out.json" freshState))
                  (Ok tt) ltac:(vm_compute; reflexivity))).
Defined.

(** The output file is opened after the last query: a path that cannot be
    created is found out only when the schema is built, every chunk is
    written and the twenty queries are done, and the measurements are
    lost. *)
Theorem output_path_checked_last (E : Env) (b : Backend) (connStr outFile : string)
    (s s1 s2 s3 : State) (r0 r1 : BenchmarkResults) (e : error) :
  setupOf E b connStr s = (Ok tt, s1) ->
  ingest E (writeOf E b) s1 = (Ok r0, s2) ->
  queriesOf E b r0 s2 = (Ok r1, s3) ->
  fault E (CallCreate outFile) = Some e ->
  exists s',
    benchmark E b connStr outFile s = (Err e, s') /\
    outputs s' = outputs s /\
    events s' = events s3 ++ [EvCreate outFile] /\
    length (Queries r1) = 20%nat.
Proof.
  intros Hsetup Hingest Hq Hcreate.
  destruct (writeResults_spec E (dbTypeOf b) outFile r1 s3) as (s4 & _ & Hw).
  pose proof (writeResults_events E (dbTypeOf b) outFile r1 s3) as Hev.
  rewrite Hcreate in Hw, Hev. destruct Hw as (Hw & Ho). rewrite Hw in Hev. cbn [snd] in Hev.
  assert (Hrun : benchmark E b connStr outFile s = (Err e, s4)).
  { rewrite benchmark_phases, (bind_Ok_l _ _ _ _ _ Hsetup), (bind_Ok_l _ _ _ _ _ Hingest),
      (bind_Ok_l _ _ _ _ _ Hq). exact Hw. }
  exists s4. split; [exact Hrun |].
  pose proof (setupOf_outputs E b connStr s) as Ho1. rewrite Hsetup in Ho1.
  pose proof (ingest_outputs E b s1) as Ho2. rewrite Hingest in Ho2.
  pose proof (queriesOf_outputs E b r0 s2) as Ho3. rewrite Hq in Ho3. cbn [snd] in *.
  split; [congruence |]. split; [exact Hev |].
  rewrite queriesOf_plan in Hq.
  apply runSteps_Ok in Hq as (_ & _ & _ & _ & _ & _ & qs & Hqs & Hall).
  destruct (ingestLoop_frame E _ (writeOf_frame E b) (S (size (readings E))) 0 emptyResults 0 s1)
    as (res & s2' & Hrun' & _ & _ & Hfr).
  unfold ingest in Hingest. rewrite Hingest in Hrun'. inversion Hrun'; subst.
  destruct (Hfr r0 eq_refl) as (_ & Hq0). cbn [emptyResults Queries] in Hq0.
  rewrite Hqs, Hq0. cbn [app].
  apply (plan_entries E b) in Hall. apply Forall2_length in Hall.
  rewrite <- Hall. reflexivity.
Qed.

Lemma output_path_checked_last_witness :
  exists s',
    benchmark readOnlyEnv ClickHouse "clickhouse://bench" "/out.json" freshState =
    (Err "permission denied", s') /\
    outputs s' = outputs freshState.
Proof.
  edestruct (output_path_checked_last readOnlyEnv ClickHouse "clickhouse://bench" "/out.json"
               freshState) as (s' & Hrun & Ho & _).
  - vm_compute. reflexivity.
  - vm_compute. reflexivity.
  - vm_compute. reflexivity.
  - reflexivity.
  - exists s'. split; [exact Hrun | exact Ho].
Defined.

(** ** The setup step *)

Lemma setupOf_calls (E : Env) (b : Backend) (api : Api) (stmts : list Stmt)
    (connStr : string) :
  setupCalls b = Some (api, stmts) ->
  setupOf E b connStr = (connect E api connStr ;; db_Exec E stmts).
Proof. destruct b; intros H; inversion H; reflexivity. Qed.

Lemma db_Exec_events (E : Env) (stmts : list Stmt) (s : State) :
  events (snd (db_Exec E stmts s)) = events s ++ [EvExec stmts] /\
  outputs (snd (db_Exec E stmts s)) = outputs s.
Proof.
  cbv [db_Exec bind emit try_call tick ret check fail events clock catalog outputs trace held].
  destruct (fault E (CallExec stmts)); [split; reflexivity |].
  destruct (execStmts _ stmts); split; reflexivity.
Qed.

(** The setup step fails fast.  An error of the constructor of the pool or
    of the schema batch is the result of the benchmark function: the
    former before any statement is sent, both before a chunk file is read,
    with the catalog and the output files as they were.  The schema batch
    is rejected as a whole: the error of one statement leaves none of the
    others applied. *)
Theorem setup_failure_fails_fast (E : Env) (b : Backend) (api : Api) (stmts : list Stmt)
    (connStr outFile : string) (s : State) (e : error) :
  setupCalls b = Some (api, stmts) ->
  (fault E (CallConnect api connStr) = Some e ->
   exists s', benchmark E b connStr outFile s = (Err e, s') /\
              events s' = events s ++ [EvConnect api connStr] /\
              catalog s' = catalog s /\ outputs s' = outputs s) /\
  (fault E (CallConnect api connStr) = None ->
   fault E (CallExec stmts) = Some e \/
   (fault E (CallExec stmts) = None /\ execStmts (catalog s) stmts = inl e) ->
   exists s', benchmark E b connStr outFile s = (Err e, s') /\
              events s' = events s ++ [EvConnect api connStr; EvExec stmts] /\
              catalog s' = catalog s /\ outputs s' = outputs s).
Proof.
  intros Hcalls. split.
  - intros Hf. exists (afterConnect E api connStr s).
    split; [| repeat split].
    rewrite benchmark_phases, (setupOf_calls E b api stmts connStr Hcalls).
    apply bind_Err_l, bind_Err_l. rewrite connect_spec, Hf. reflexivity.
  - intros Hf Hexec.
    pose proof (connect_spec E api connStr s) as Hc. rewrite Hf in Hc. cbn [outcome] in Hc.
    assert (Hrun : exists s', db_Exec E stmts (afterConnect E api connStr s) = (Err e, s') /\
                              catalog s' = catalog s).
    { clear Hc. destruct s as [c cat out tr h]. cbn [catalog] in Hexec.
      cbv [db_Exec bind emit try_call tick ret check fail afterConnect
           clock catalog outputs trace held].
      destruct Hexec as [-> | [-> Hstmts]].
      - eexists. split; reflexivity.
      - rewrite Hstmts. eexists. split; reflexivity. }
    destruct Hrun as (s' & Hrun & Hcat). exists s'.
    pose proof (db_Exec_events E stmts (afterConnect E api connStr s)) as (Hev & Ho).
    rewrite Hrun in Hev, Ho. cbn [snd] in Hev, Ho.
    split; [| split; [| split]].
    + rewrite benchmark_phases, (setupOf_calls E b api stmts connStr Hcalls).
      apply bind_Err_l. rewrite (bind_Ok_l _ _ _ _ _ Hc). exact Hrun.
    + rewrite Hev. unfold events. cbn [afterConnect trace rev].
      rewrite <- app_assoc. reflexivity.
    + exact Hcat.
    + rewrite Ho. reflexivity.
Qed.

Lemma setup_failure_fails_fast_witness :
  exists s',
    benchmark downEnv CrateDB "postgres://crate" "out.json" freshState =
    (Err "connection refused", s') /\
    events s' = events freshState ++ [EvConnect PgxPoolNew "postgres://crate"] /\
    catalog s' = catalog freshState /\ outputs s' = outputs freshState.
Proof.
  apply (proj1 (setup_failure_fails_fast downEnv CrateDB PgxPoolNew schemaCrateDB
                  "postgres://crate" "out.json" freshState "connection refused" eq_refl)).
  reflexivity.
Defined.

Lemma execStmt_keeps (cat : gmap string RelKind) (st : Stmt) (cat' : gmap string RelKind)
    (k : string) :
  execStmt cat st = inr cat' -> is_Some (cat !! k) -> is_Some (cat' !! k).
Proof.
  intros Hst Hk.
  destruct st as [ine name hyper | ine name on | table ine]; cbn [execStmt] in Hst;
    repeat case_match; simplify_eq; try assumption;
    rewrite lookup_insert_is_Some;
    first [destruct (decide (name = k)) | destruct (decide (table = k))]; subst; eauto.
Qed.

Lemma execStmts_keeps (cat : gmap string RelKind) (sts : list Stmt)
    (cat' : gmap string RelKind) (k : string) :
  execStmts cat sts = inr cat' -> is_Some (cat !! k) -> is_Some (cat' !! k).
Proof.
  revert cat. induction sts as [| st sts IH]; intros cat Hsts Hk; cbn [execStmts] in Hsts.
  - congruence.
  - destruct (execStmt cat st) as [e | cat0] eqn:Hst; [discriminate |].
    eauto using execStmt_keeps.
Qed.

(** A setup that succeeded leaves the table behind, and on a backend that
    still has it the same setup step, from any later state, ends as its
    [CREATE TABLE] statement says: with the error of the statement in the
    PostgreSQL and TimescaleDB adapters, which have no [IF NOT EXISTS],
    and with success and an unchanged catalog in the CrateDB and
    ClickHouse adapters, which have one. *)
Theorem setup_rerun (E : Env) (b : Backend) (api : Api) (stmts : list Stmt)
    (connStr : string) (s s1 s2 : State) :
  setupCalls b = Some (api, stmts) ->
  setupOf E b connStr s = (Ok tt, s1) ->
  catalog s2 = catalog s1 ->
  is_Some (catalog s1 !! "user_events") /\
  exists s3,
    catalog s3 = catalog s2 /\
    setupOf E b connStr s2 =
    (match b with
     | Postgres | TimescaleDb => Err "relation user_events already exists"
     | _ => Ok tt
     end, s3).
Proof.
  intros Hcalls Hsetup Hcat.
  rewrite (setupOf_calls E b api stmts connStr Hcalls) in Hsetup |- *.
  apply bind_Ok in Hsetup as (u & s0 & Hc & Hexec).
  rewrite connect_spec in Hc.
  destruct (fault E (CallConnect api connStr)) eqn:Hfc; [discriminate |].
  inversion Hc; subst s0. clear Hc.
  assert (Hfe : fault E (CallExec stmts) = None).
  { cbv [db_Exec bind emit try_call tick ret check fail] in Hexec.
    destruct (fault E (CallExec stmts)); [discriminate | reflexivity]. }
  destruct (db_Exec_spec E stmts (afterConnect E api connStr s) Hfe) as (s0 & Hcat0 & Hrun).
  rewrite Hrun in Hexec. cbn [afterConnect catalog] in Hexec, Hcat0.
  destruct (execStmts (catalog s) stmts) as [e | cat1] eqn:Hstmts; [discriminate |].
  inversion Hexec; subst s1. cbn [catalog] in Hcat.
  assert (Htable : is_Some (cat1 !! "user_events")).
  { clear Hcat Hexec Hrun.
    destruct stmts as [| st stmts']; [destruct b; discriminate |].
    cbn [execStmts] in Hstmts.
    destruct (execStmt (catalog s) st) as [e | cat0] eqn:Hst; [discriminate |].
    apply (execStmts_keeps cat0 stmts' cat1 "user_events" Hstmts).
    destruct b; inversion Hcalls; subst; cbn [execStmt] in Hst;
      destruct (catalog s !! "user_events") eqn:Hl; try discriminate;
      inversion Hst; subst; rewrite ?Hl, ?lookup_insert_eq; eauto. }
  split; [exact Htable |].
  pose proof (connect_spec E api connStr s2) as Hc2. rewrite Hfc in Hc2. cbn [outcome] in Hc2.
  rewrite (bind_Ok_l _ _ _ _ _ Hc2).
  destruct (db_Exec_spec E stmts (afterConnect E api connStr s2) Hfe) as (s3 & Hcat3 & Hrun3).
  rewrite Hrun3. cbn [afterConnect catalog] in Hcat3 |- *. rewrite Hcat.
  destruct Htable as [kind Hk].
  destruct b; inversion Hcalls; subst;
    unfold schemaPostgres, schemaTimescaleDb, schemaCrateDB, schemaClickHouse;
    cbn [execStmts execStmt]; rewrite Hk.
  - exists s3. split; [congruence | reflexivity].
  - exists s3. split; [congruence | reflexivity].
  - eexists. split; [| reflexivity]. cbn [catalog]. congruence.
  - eexists. split; [| reflexivity]. cbn [catalog]. congruence.
Qed.

Lemma setup_rerun_witness :
  let s1 := snd (setupOf quietEnv TimescaleDb "postgres://bench" freshState) in
  exists s3,
    catalog s3 = catalog s1 /\
    setupOf quietEnv TimescaleDb "postgres://bench" s1 =
    (Err "relation user_events already exists", s3).
Proof.
  intros s1.
  apply (setup_rerun quietEnv TimescaleDb PgxPoolNew schemaTimescaleDb "postgres://bench"
           freshState s1 s1 eq_refl).
  - vm_compute. reflexivity.
  - reflexivity.
Defined.

(** ** A write call that fails *)

Lemma sentCalls_fault (E : Env) (chunk : Z) (calls : list (WriteOp * list Row)) (e : error) :
  firstFault E chunk (map fst calls) = Some e ->
  exists pre call post,
    calls = pre ++ call :: post /\
    sentCalls E true chunk calls = pre ++ [call] /\
    fault E (CallWrite chunk (fst call)) = Some e /\
    Forall (fun x => fault E (CallWrite chunk (fst x)) = None) pre.
Proof.
  induction calls as [| [op rows] calls IH]; cbn [map fst firstFault sentCalls]; [discriminate |].
  destruct (fault E (CallWrite chunk op)) as [e' |] eqn:Hf.
  - intros H. inversion H; subst e'. exists [], (op, rows), calls.
    repeat split; [exact Hf | constructor].
  - intros H. destruct (IH H) as (pre & call & post & -> & Hsent & Hcall & Hpre).
    exists ((op, rows) :: pre), call, post. rewrite Hsent.
    repeat split; [exact Hcall | constructor; [exact Hf | exact Hpre]].
Qed.

(** The first write call the backend rejects ends the ingestion, in the
    adapters that check their write calls, and nothing is undone or
    finished: the chunks before it stay written, the calls of its block
    before it have been made, and no call of the block follows it, be it
    the commit of the transaction or the flush of the sender. *)
Theorem rejected_write_leaves_partial_data (E : Env) (b : Backend)
    (done : list ReadingFile) (bad : ReadingFile) (rest : list ReadingFile)
    (s : State) (e : error) :
  readings E = chunkDir (done ++ bad :: rest) ->
  readdir_error E = None -> dirFits E -> checksWrites b = true ->
  writesAccepted E b done ->
  firstFault E (len done) (writeOps b bad) = Some e ->
  exists s' pre call post,
    ingest E (writeOf E b) s = (Err e, s') /\
    writeCalls b (countAfter 0 done) bad = pre ++ call :: post /\
    fault E (CallWrite (len done) (fst call)) = Some e /\
    Forall (fun x => fault E (CallWrite (len done) (fst x)) = None) pre /\
    events s' =
    events s ++ ingestEvents b 0 0 done ++
    EvLoadChunk (len done) :: map (evWrite (len done)) (pre ++ [call]) /\
    map eraseId (rowsWritten (ingestEvents b 0 0 done)) = map rowOf (allReadings done).
Proof.
  intros Hdir Hread Hfit Hchk Hacc Hfault.
  assert (Hsize : size (readings E) = (length done + S (length rest))%nat).
  { rewrite Hdir, chunkDir_size, length_app. reflexivity. }
  assert (Hlook : forall j data, (done ++ bad :: rest) !! j = Some data ->
                    readings E !! chunkName (Z.of_nat j) = Some (Decodes data)).
  { intros j data Hj. rewrite Hdir. apply chunkDir_lookup, Hj. }
  destruct (ingestLoop_prefix E b done (S (S (length rest))) 0 emptyResults 0 s)
    as (s1 & Hadd & _ & _ & _ & Hrun).
  - intros j data Hj. rewrite Z.add_0_l. split.
    + apply Hlook, lookup_app_l_Some, Hj.
    + intros _. apply (Hacc Hchk), Hj.
  - exact Hread.
  - lia.
  - lia.
  - exact Hfit.
  - rewrite Z.add_0_l in Hrun.
    assert (Hbad : readings E !! chunkName (len done) = Some (Decodes bad)).
    { apply Hlook. rewrite lookup_app_r by lia. rewrite Nat.sub_diag. reflexivity. }
    rewrite (ingestLoop_pass E b _ _ _ _ bad s1 Hbad Hread) in Hrun.
    rewrite Hchk, writeCalls_ops in Hrun. unfold len in Hfault. fold (len done) in Hrun.
    unfold len in Hrun. rewrite Hfault in Hrun.
    destruct (sentCalls_fault E (len done) (writeCalls b (countAfter 0 done) bad) e)
      as (pre & call & post & Hcalls & Hsent & Hcall & Hpre).
    { rewrite writeCalls_ops. exact Hfault. }
    unfold len in Hsent. rewrite Hsent in Hrun.
    eexists _, pre, call, post.
    split; [| split; [exact Hcalls | split; [exact Hcall | split; [exact Hpre | split]]]].
    + unfold ingest. rewrite Hsize.
      replace (S (length done + S (length rest))) with (length done + S (S (length rest)))%nat
        by lia.
      exact Hrun.
    + unfold events. cbn [trace]. rewrite Hadd.
      rewrite !rev_app_distr, rev_involutive. cbn [rev]. rewrite !rev_app_distr.
      rewrite rev_involutive. cbn [rev app]. rewrite <- !app_assoc. reflexivity.
    + apply ingestEvents_rows.
Qed.

Lemma rejected_write_leaves_partial_data_witness :
  exists s' pre call post,
    ingest failingRowEnv (writeOf failingRowEnv ClickHouse) freshState =
    (Err "memory limit exceeded", s') /\
    writeCalls ClickHouse 3 (mkReadingFile [reading "u1" 1700005000; reading "u2" 1700007200]) =
    pre ++ call :: post /\
    fst call = StmtExec 1 /\ map fst post = [TxCommit].
Proof.
  destruct (rejected_write_leaves_partial_data failingRowEnv ClickHouse
              [mkReadingFile [reading "u1" 1700000000; reading "u2" 1700000060;
                              reading "u3" 1700003600]]
              (mkReadingFile [reading "u1" 1700005000; reading "u2" 1700007200]) []
              freshState "memory limit exceeded")
    as (s' & pre & call & post & Hrun & Hcalls & Hcall & Hpre & _).
  - reflexivity.
  - reflexivity.
  - vm_compute. reflexivity.
  - reflexivity.
  - intros _ j data Hj. destruct j as [| j]; [| discriminate].
    inversion Hj; subst. reflexivity.
  - reflexivity.
  - exists s', pre, call, post. split; [exact Hrun |].
    change (countAfter 0 _) with 3 in Hcalls.
    split; [exact Hcalls |].
    cbv [writeCalls Response imap app] in Hcalls.
    destruct pre as [| c0 [| c1 [| c2 [| c3 pre]]]]; cbn [app] in Hcalls;
      inversion Hcalls; subst; cbn [fst] in *;
      try discriminate Hcall;
      try (inversion Hpre as [| ? ? Hh Ht]; subst; try discriminate Hh;
           inversion Ht as [| ? ? Hh' Ht']; subst; try discriminate Hh';
           inversion Ht' as [| ? ? Hh2 Ht2]; subst; try discriminate Hh2;
           inversion Ht2 as [| ? ? Hh3 Ht3]; subst; try discriminate Hh3; fail).
    split; reflexivity.
Defined.

(** ** A completed run, call by call *)

Lemma setupOf_events (E : Env) (b : Backend) (connStr : string) (s s1 : State) :
  setupOf E b connStr s = (Ok tt, s1) ->
  events s1 = events s ++ setupEvents b connStr.
Proof.
  intros Hsetup.
  destruct b; cbn [setupOf setupEvents] in *;
    try (apply bind_Ok in Hsetup as (u & s0 & Hc & Hexec);
         cbv beta in Hexec; rewrite connect_spec in Hc; inversion Hc; subst s0;
         match type of Hexec with
         | db_Exec _ ?st ?s0 = _ => pose proof (db_Exec_events E st s0) as (Hev & _)
         end;
         rewrite Hexec in Hev; cbn [snd] in Hev; rewrite Hev;
         unfold events; cbn [afterConnect trace rev]; rewrite <- app_assoc; reflexivity).
  - destruct (Split connStr ":::") as [| a [| a' [| c l]]]; try discriminate.
    apply bind_Ok in Hsetup as (u & s0 & Hc & Hc').
    cbv beta in Hc'. rewrite connect_spec in Hc. rewrite connect_spec in Hc'.
    inversion Hc; subst s0. inversion Hc'; subst s1.
    unfold events. cbn [afterConnect trace rev]. rewrite <- app_assoc. reflexivity.
  - inversion Hsetup; subst. rewrite app_nil_r. reflexivity.
Qed.

(** The whole of a run that returns [nil]: the calls it makes are, in this
    order and with nothing else between them, those of the setup, for
    every chunk file of the directory the read of the file and the write
    calls of its block, the twenty query blocks, and the creation and the
    encoding of the output file.  No chunk is read before the schema is
    there, no query runs before the last chunk is written, and the output
    file is opened last. *)
Theorem completed_run_trace (E : Env) (b : Backend) (connStr outFile : string)
    (s s' : State) :
  dirFits E ->
  benchmark E b connStr outFile s = (Ok tt, s') ->
  exists chunks,
    readings E = chunkDir chunks /\
    events s' =
    events s ++ setupEvents b connStr ++ ingestEvents b 0 0 chunks ++ queryScript E b ++
    [EvCreate outFile; EvEncode outFile].
Proof.
  intros Hfit Hrun.
  rewrite benchmark_phases in Hrun.
  apply bind_Ok in Hrun as (u & s1 & Hsetup & Hrun). destruct u.
  apply bind_Ok in Hrun as (r0 & s2 & Hingest & Hrun).
  apply bind_Ok in Hrun as (r1 & s3 & Hq & Hw).
  destruct (ingest_run E b r0 s1 s2 Hfit Hingest) as (chunks & Hdir & _ & _ & Hadd & _).
  exists chunks. split; [exact Hdir |].
  apply setupOf_events in Hsetup.
  rewrite queriesOf_plan in Hq.
  apply runSteps_Ok in Hq as (_ & Hadd3 & _).
  rewrite planEvents_script in Hadd3.
  pose proof (writeResults_events E (dbTypeOf b) outFile r1 s3) as Hev.
  pose proof (writeResults_spec E (dbTypeOf b) outFile r1 s3) as (s4 & _ & Hspec).
  destruct (fault E (CallCreate outFile)); [destruct Hspec; congruence |].
  rewrite Hw in Hev. cbn [snd] in Hev. rewrite Hev.
  unfold events in *. rewrite Hadd3, Hadd, !rev_app_distr, !rev_involutive.
  rewrite Hsetup. rewrite <- !app_assoc. reflexivity.
Qed.

Lemma completed_run_trace_witness :
  exists chunks,
    readings quietEnv = chunkDir chunks /\
    events (snd (benchmark quietEnv QuestDb "http::addr=q:9000:::postgres://q" "out.json"
                   freshState)) =
    events freshState ++ setupEvents QuestDb "http::addr=q:9000:::postgres://q" ++
    ingestEvents QuestDb 0 0 chunks ++ queryScript quietEnv QuestDb ++
    [EvCreate "out.json"; EvEncode "out.json"].
Proof.
  apply (completed_run_trace quietEnv QuestDb "http::addr=q:9000:::postgres://q" "out.json"
           freshState).
  - vm_compute. reflexivity.
  - vm_compute. reflexivity.
Defined.
